(** * SweetTooth: the reactive-state runtime of [ComponentSystem]

    A shallow embedding of [src/artifacts/generic-type/v1/factory.ts]
    (class [ComponentSystem] and the interfaces it works on) and the
    properties of its creation, update, propagation, batching, history and
    error-handling paths.

    JavaScript objects live in an object store ([System.heap]); a reactive
    handle is an index into that store, so that the registry, the closures
    created by [createReactive] and the handles held by callers alias the
    same object, as they do in the source.  [async] functions are terms of
    a small resumption monad [Task] in which every [await] is an explicit
    suspension point; a single call is run to completion by [run], several
    calls started together ([Promise.all]) are interleaved by [all_].

    Plugin hooks and middleware handlers are user code: they are functions
    of the object store and of their arguments that return or throw, and
    every call the engine makes to them is recorded in [System.trace].
    A hook that writes to a reactive or calls back into the system (as the
    React plugin of the repository does in its update hooks) is outside
    what these functions express.
    The recursion of [set] through [notifyDependents] need not end; it is
    bounded by a fuel argument, and [Pending] is the outcome of a call
    that has not returned within it.

    The example plugins of the source ([LoggerPlugin], the rehydration of
    [PersistencePlugin]) are embedded with the engine.  A last part embeds
    the signal case of [createComponentFactory] of
    [src/Source/v1/alternative.ts]: its getters, setters and subscriber
    sets, as state-passing functions over the closure state of one
    component. *)

From Stdlib Require Import ZArith.
From stdpp Require Import base option list gmap strings fin_maps pretty.

Local Open Scope string_scope.
Local Open Scope list_scope.

(** ** Values *)

(** [Error] objects, identified by their message. *)
Record Error : Type := MkError { message : string }.

(** Handles: the identity of a [Reactive] object, and of a subscriber
    callback (a function object, kept in a [Set] by identity). *)
Definition Ref : Type := nat.
Definition Callback : Type := nat.

(** The values threaded through hooks and middleware are typed [any] in the
    source: plain data, a [ReactiveConfig] object ([beforeCreate]) or a
    [Reactive] handle ([afterCreate], [beforeDestroy]). *)
Inductive Value : Type :=
| VUndefined
| VNull
| VBool (b : bool)
| VNum (n : Z)
| VStr (s : string)
| VConfig (id : option string) (type : string) (initialValue : Value)
          (dependencies : option (list string))
| VReactive (reactive : Ref).

(** Result of calling a user-supplied function: it returns or it throws. *)
Inductive Result (A : Type) : Type :=
| Ok (a : A)
| Raise (e : Error).
Arguments Ok {A} a.
Arguments Raise {A} e.

(** ** The data model (interfaces of factory.ts) *)

Module Status.
Inductive t : Type := idle | loading | error | success.
End Status.

Module ReactiveMetadata.
Record t : Type := Build {
  type : string;
  created : nat;
  lastUpdated : option nat;
  updateCount : nat;
  status : Status.t;
  error : option Error;
  custom : list (string * Value)
}.
End ReactiveMetadata.

Module Reactive.
(** [value] is the result of the accessor [value()]; [has_set] tells
    whether the optional mutator [set] is present, which is then the
    closure that [createReactive] attaches ([set_] below); the two
    [Set<string>] are kept in insertion order, as [Array.from] enumerates
    them. *)
Record t : Type := Build {
  id : string;
  value : Value;
  has_set : bool;
  meta : ReactiveMetadata.t;
  dependencies : list string;
  dependents : list string
}.

Definition with_value (v : Value) (r : t) : t :=
  Build (id r) v (has_set r) (meta r) (dependencies r) (dependents r).
Definition with_meta (m : ReactiveMetadata.t) (r : t) : t :=
  Build (id r) (value r) (has_set r) m (dependencies r) (dependents r).
End Reactive.

Module ReactiveConfig.
Record t : Type := Build {
  id : option string;
  type : string;
  initialValue : Value;
  dependencies : option (list string)
}.
End ReactiveConfig.

Abbreviation Heap := (list Reactive.t).

Inductive HookName : Type :=
| BeforeCreate | AfterCreate | BeforeUpdate | AfterUpdate | BeforeDestroy.

Inductive Phase : Type := PhaseBefore | PhaseAfter | PhaseError.

Module MiddlewareContext.
Record t : Type := Build {
  reactive : Ref;
  phase : Phase;
  timestamp : nat
}.
End MiddlewareContext.

Module ErrorContext.
(** The second argument of a plugin's [handleError]:
    [{ phase, config: { type } }]. *)
Record t : Type := Build {
  phase : string;
  config_type : string
}.
End ErrorContext.

(** A lifecycle hook is called as [hookFn.call(plugin, result, ...args)].
    Hooks and middleware handlers are user code: they are modelled as
    synchronous functions that may read the object store (they are handed
    live objects) and either return or throw. *)
Definition Hook : Type := Heap → Value → list Value → Result Value.

Module Plugin.
(** [initialize] receives the [SystemContext]; its effect is the list of
    objects it hands to [context.registerReactive] (as the persistence
    plugin does). *)
Record t : Type := Build {
  name : string;
  initialize : option (list Reactive.t);
  beforeCreate : option Hook;
  afterCreate : option Hook;
  beforeUpdate : option Hook;
  afterUpdate : option Hook;
  beforeDestroy : option Hook;
  handleError : option (Heap → Error → ErrorContext.t → Result unit)
}.
End Plugin.

Module Middleware.
Record t : Type := Build {
  name : string;
  before : option (Heap → Value → MiddlewareContext.t → Result Value);
  after : option (Heap → Value → MiddlewareContext.t → Result Value);
  error : option (Heap → Error → MiddlewareContext.t → Result unit)
}.
End Middleware.

Module Options.
(** The resolved options.  [historySize] is only ever compared with the
    length of a log ([history.length > historySize]): a number is kept
    rounded down, and [None] stands for what no length exceeds,
    [undefined] or [NaN] (or [Infinity]). *)
Record t : Type := Build {
  enableHistory : bool;
  historySize : option Z;
  asyncTimeout : Z;
  batchUpdates : bool;
  devTools : bool
}.
End Options.

(** What the engine calls, in call order.  The engine has one call site per
    constructor, except [SubscriberCalled]: see [subscribe]. *)
Inductive Event : Type :=
| HookCalled (plugin : string) (hook : HookName) (arg : Value)
| HandleErrorCalled (plugin : string) (e : Error)
| MiddlewareCalled (middleware : string) (phase : Phase) (arg : Value)
| MiddlewareErrorCalled (middleware : string) (e : Error)
| SubscriberCalled (id : string) (callback : Callback) (arg : Value).

Module System.
(** The private fields of [ComponentSystem].  [plugins] and [batchQueue]
    are [Map]s that the code iterates, so they keep insertion order;
    [heap] is the object store, [trace] the calls made so far, [now] the
    clock read by [new Date()] and [Date.now()], [uuids] and [drawn] the
    source of [crypto.randomUUID()]. *)
Record t : Type := Build {
  heap : Heap;
  reactives : gmap string Ref;
  plugins : list (string * Plugin.t);
  middleware : list Middleware.t;
  history : gmap string (list Value);
  batchQueue : list (string * Value);
  subscriptions : gmap string (list Callback);
  options : Options.t;
  trace : list Event;
  now : nat;
  uuids : nat → string;
  drawn : nat
}.

Definition with_heap (h : Heap) (s : t) : t :=
  Build h (reactives s) (plugins s) (middleware s) (history s)
    (batchQueue s) (subscriptions s) (options s) (trace s) (now s)
    (uuids s) (drawn s).
Definition with_reactives (m : gmap string Ref) (s : t) : t :=
  Build (heap s) m (plugins s) (middleware s) (history s)
    (batchQueue s) (subscriptions s) (options s) (trace s) (now s)
    (uuids s) (drawn s).
Definition with_history (m : gmap string (list Value)) (s : t) : t :=
  Build (heap s) (reactives s) (plugins s) (middleware s) m
    (batchQueue s) (subscriptions s) (options s) (trace s) (now s)
    (uuids s) (drawn s).
Definition with_batchQueue (q : list (string * Value)) (s : t) : t :=
  Build (heap s) (reactives s) (plugins s) (middleware s) (history s)
    q (subscriptions s) (options s) (trace s) (now s)
    (uuids s) (drawn s).
Definition with_subscriptions (m : gmap string (list Callback)) (s : t) : t :=
  Build (heap s) (reactives s) (plugins s) (middleware s) (history s)
    (batchQueue s) m (options s) (trace s) (now s)
    (uuids s) (drawn s).
Definition with_trace (tr : list Event) (s : t) : t :=
  Build (heap s) (reactives s) (plugins s) (middleware s) (history s)
    (batchQueue s) (subscriptions s) (options s) tr (now s)
    (uuids s) (drawn s).
Definition with_drawn (n : nat) (s : t) : t :=
  Build (heap s) (reactives s) (plugins s) (middleware s) (history s)
    (batchQueue s) (subscriptions s) (options s) (trace s) (now s)
    (uuids s) n.
End System.

(** ** Insertion-ordered [Map] and [Set] *)

(** [Map.prototype.set]: an existing key keeps its position. *)
Fixpoint map_set {V : Type} (k : string) (v : V) (m : list (string * V))
  : list (string * V) :=
  match m with
  | [] => [(k, v)]
  | (k', v') :: m' =>
      if decide (k = k') then (k, v) :: m' else (k', v') :: map_set k v m'
  end.

(** [Set.prototype.add] and [new Set(array)]. *)
Definition set_add {A : Type} `{EqDecision A} (x : A) (s : list A) : list A :=
  if decide (x ∈ s) then s else s ++ [x].

Definition set_of_array {A : Type} `{EqDecision A} (xs : list A) : list A :=
  foldl (λ s x, set_add x s) [] xs.

(** [Set.prototype.delete]. *)
Definition set_delete {A : Type} `{EqDecision A} (x : A) (s : list A) : list A :=
  filter (λ y, y ≠ x) s.

(** ** Asynchronous computations *)

(** The settled state of a promise; [Pending] is a promise that has not
    settled within the steps the model was given. *)
Inductive Outcome (A : Type) : Type :=
| Resolved (a : A)
| Rejected (e : Error)
| Pending.
Arguments Resolved {A} a.
Arguments Rejected {A} e.
Arguments Pending {A}.

(** An [async] computation over the system: it reads and writes the state
    in synchronous stretches separated by suspension points ([Yield], one
    per [await]).  [Spin] stands for a call that has not returned within
    the recursion depth given to the model. *)
Inductive Task (A : Type) : Type :=
| Ret (a : A)
| Throw (e : Error)
| Spin
| Get (k : System.t → Task A)
| Put (s : System.t) (k : Task A)
| Yield (k : Task A).
Arguments Ret {A} a.
Arguments Throw {A} e.
Arguments Spin {A}.
Arguments Get {A} k.
Arguments Put {A} s k.
Arguments Yield {A} k.

Fixpoint bind {A B : Type} (t : Task A) (f : A → Task B) : Task B :=
  match t with
  | Ret a => f a
  | Throw e => Throw e
  | Spin => Spin
  | Get k => Get (λ s, bind (k s) f)
  | Put s k => Put s (bind k f)
  | Yield k => Yield (bind k f)
  end.

#[export] Instance task_ret : MRet Task := @Ret.
#[export] Instance task_bind : MBind Task := λ A B f t, bind t f.

(** [try { t } catch (error) { h error }]. *)
Fixpoint catch {A : Type} (t : Task A) (h : Error → Task A) : Task A :=
  match t with
  | Ret a => Ret a
  | Throw e => h e
  | Spin => Spin
  | Get k => Get (λ s, catch (k s) h)
  | Put s k => Put s (catch k h)
  | Yield k => Yield (catch k h)
  end.

(** [await t] for a call [t] of an [async] function: the caller resumes in
    a later microtask than the one in which [t] settles. *)
Fixpoint await {A : Type} (t : Task A) : Task A :=
  match t with
  | Ret a => Yield (Ret a)
  | Throw e => Yield (Throw e)
  | Spin => Spin
  | Get k => Get (λ s, await (k s))
  | Put s k => Put s (await k)
  | Yield k => Yield (await k)
  end.

(** [await f(...)] for a synchronous user function [f]: a throw leaves at
    once, a returned value is awaited. *)
Definition await_value {A : Type} (r : Result A) : Task A :=
  match r with
  | Ok a => Yield (Ret a)
  | Raise e => Throw e
  end.

Definition gets {A : Type} (f : System.t → A) : Task A :=
  Get (λ s, Ret (f s)).
Definition modify (f : System.t → System.t) : Task unit :=
  Get (λ s, Put (f s) (Ret tt)).
Definition emit (ev : Event) : Task unit :=
  modify (λ s, System.with_trace (System.trace s ++ [ev]) s).

(** Running one computation alone: with nothing else in the microtask
    queue, every suspension resumes immediately. *)
Fixpoint run {A : Type} (t : Task A) (st : System.t) : System.t * Outcome A :=
  match t with
  | Ret a => (st, Resolved a)
  | Throw e => (st, Rejected e)
  | Spin => (st, Pending)
  | Get k => run (k st) st
  | Put s k => run k s
  | Yield k => run k st
  end.

(** Running a computation up to its next suspension point. *)
Fixpoint resume {A : Type} (t : Task A) (st : System.t) : System.t * Task A :=
  match t with
  | Get k => resume (k st) st
  | Put s k => resume k s
  | Yield k => (st, k)
  | _ => (st, t)
  end.

Definition settled {A : Type} (t : Task A) : bool :=
  match t with
  | Ret _ | Throw _ | Spin => true
  | _ => false
  end.

(** ** The engine: class [ComponentSystem] *)

Definition deref (reactive : Ref) (st : System.t) : option Reactive.t :=
  System.heap st !! reactive.

(** [reactive.value()], [reactive.id], [reactive.dependents] and
    [reactive.meta.type] through a handle. *)
Definition value_of (reactive : Ref) (st : System.t) : Value :=
  from_option Reactive.value VUndefined (deref reactive st).
Definition id_of (reactive : Ref) (st : System.t) : string :=
  from_option Reactive.id "" (deref reactive st).
Definition dependents_of (reactive : Ref) (st : System.t) : list string :=
  from_option Reactive.dependents [] (deref reactive st).
Definition type_of (reactive : Ref) (st : System.t) : string :=
  from_option (λ r, ReactiveMetadata.type (Reactive.meta r)) "" (deref reactive st).

(** In-place mutation of the object behind a handle. *)
Definition update_object (reactive : Ref) (f : Reactive.t → Reactive.t)
  (st : System.t) : System.t :=
  System.with_heap (alter f reactive (System.heap st)) st.

Definition getReactive (id : string) (st : System.t) : option Ref :=
  System.reactives st !! id.

Definition registerReactive (reactive : Ref) (st : System.t) : System.t :=
  match deref reactive st with
  | Some obj =>
      System.with_reactives (<[Reactive.id obj := reactive]> (System.reactives st)) st
  | None => st
  end.

(** A new object enters the store. *)
Definition alloc (obj : Reactive.t) (st : System.t) : Ref * System.t :=
  (List.length (System.heap st), System.with_heap (System.heap st ++ [obj]) st).

(** [crypto.randomUUID()]. *)
Definition randomUUID (st : System.t) : string * System.t :=
  (System.uuids st (System.drawn st), System.with_drawn (S (System.drawn st)) st).

Definition get_hook (hook : HookName) (plugin : Plugin.t) : option Hook :=
  match hook with
  | BeforeCreate => Plugin.beforeCreate plugin
  | AfterCreate => Plugin.afterCreate plugin
  | BeforeUpdate => Plugin.beforeUpdate plugin
  | AfterUpdate => Plugin.afterUpdate plugin
  | BeforeDestroy => Plugin.beforeDestroy plugin
  end.

Fixpoint runPluginHook_loop (hook : HookName) (plugins : list (string * Plugin.t))
  (result : Value) (args : list Value) : Task Value :=
  match plugins with
  | [] => Ret result
  | (_, plugin) :: plugins' =>
      match get_hook hook plugin with
      | Some hookFn =>
          heap ← gets System.heap;
          emit (HookCalled (Plugin.name plugin) hook result);;
          result' ← await_value (hookFn heap result args);
          runPluginHook_loop hook plugins' result' args
      | None => runPluginHook_loop hook plugins' result args
      end
  end.

Definition runPluginHook (hook : HookName) (value : Value) (args : list Value)
  : Task Value :=
  plugins ← gets System.plugins;
  runPluginHook_loop hook plugins value args.

Definition middleware_handler (phase : Phase) (middleware : Middleware.t)
  : option (Heap → Value → MiddlewareContext.t → Result Value) :=
  match phase with
  | PhaseBefore => Middleware.before middleware
  | _ => Middleware.after middleware
  end.

Fixpoint runMiddleware_loop (phase : Phase) (timestamp : nat)
  (middlewares : list Middleware.t) (result : Value) (reactive : Ref)
  : Task Value :=
  match middlewares with
  | [] => Ret result
  | middleware :: middlewares' =>
      match middleware_handler phase middleware with
      | Some handler =>
          heap ← gets System.heap;
          emit (MiddlewareCalled (Middleware.name middleware) phase result);;
          result' ← await_value
            (handler heap result (MiddlewareContext.Build reactive phase timestamp));
          runMiddleware_loop phase timestamp middlewares' result' reactive
      | None => runMiddleware_loop phase timestamp middlewares' result reactive
      end
  end.

Definition runMiddleware (phase : Phase) (value : Value) (reactive : Ref)
  : Task Value :=
  timestamp ← gets System.now;
  middlewares ← gets System.middleware;
  runMiddleware_loop phase timestamp middlewares value reactive.

(** *** Error handling *)

Definition mark_error (error : Error) (r : Reactive.t) : Reactive.t :=
  let m := Reactive.meta r in
  Reactive.with_meta
    (ReactiveMetadata.Build (ReactiveMetadata.type m) (ReactiveMetadata.created m)
       (ReactiveMetadata.lastUpdated m) (ReactiveMetadata.updateCount m)
       Status.error (Some error) (ReactiveMetadata.custom m)) r.

Fixpoint handleError_plugins (plugins : list (string * Plugin.t)) (error : Error)
  (reactive : Ref) (phase : string) : Task unit :=
  match plugins with
  | [] => Ret tt
  | (_, plugin) :: plugins' =>
      match Plugin.handleError plugin with
      | Some handler =>
          st ← gets (λ s, s);
          emit (HandleErrorCalled (Plugin.name plugin) error);;
          await_value (handler (System.heap st) error
                         (ErrorContext.Build phase (type_of reactive st)))
      | None => Yield (Ret tt)
      end;;
      handleError_plugins plugins' error reactive phase
  end.

Fixpoint handleError_middleware (middlewares : list Middleware.t) (error : Error)
  (reactive : Ref) : Task unit :=
  match middlewares with
  | [] => Ret tt
  | middleware :: middlewares' =>
      match Middleware.error middleware with
      | Some handler =>
          st ← gets (λ s, s);
          emit (MiddlewareErrorCalled (Middleware.name middleware) error);;
          await_value (handler (System.heap st) error
                         (MiddlewareContext.Build reactive PhaseError (System.now st)))
      | None => Yield (Ret tt)
      end;;
      handleError_middleware middlewares' error reactive
  end.

Definition handleError (error : Error) (reactive : Ref) (phase : string)
  : Task unit :=
  modify (update_object reactive (mark_error error));;
  plugins ← gets System.plugins;
  handleError_plugins plugins error reactive phase;;
  middlewares ← gets System.middleware;
  handleError_middleware middlewares error reactive;;
  Throw error.

(** *** History *)

Definition updateHistory (reactiveId : string) (value : Value) (st : System.t)
  : System.t :=
  let history := default [] (System.history st !! reactiveId) ++ [value] in
  let history :=
    match Options.historySize (System.options st) with
    | Some historySize =>
        if (Z.of_nat (List.length history) >? historySize)%Z
        then tail history else history
    | None => history
    end in
  System.with_history (<[reactiveId := history]> (System.history st)) st.

(** *** Update and propagation *)

(** The body of the [while] loop of [notifyDependents]; [set_] is the
    mutator of the dependents and [n] bounds the number of iterations. *)
Fixpoint notifyDependents_loop (set_ : Ref → Value → Task unit) (n : nat)
  (visited queue : list string) : Task unit :=
  match queue with
  | [] => Ret tt
  | dependentId :: queue' =>
      match n with
      | O => Spin
      | S n' =>
          if decide (dependentId ∈ visited)
          then notifyDependents_loop set_ n' visited queue'
          else
            dependent ← gets (getReactive dependentId);
            match dependent with
            | Some d =>
                obj ← gets (deref d);
                (if from_option Reactive.has_set false obj
                 then await (set_ d (from_option Reactive.value VUndefined obj))
                 else Ret tt);;
                dependents ← gets (dependents_of d);
                notifyDependents_loop set_ n' (visited ++ [dependentId])
                  (queue' ++ dependents)
            | None =>
                notifyDependents_loop set_ n' (visited ++ [dependentId]) queue'
            end
      end
  end.

Definition notifyDependents (set_ : Ref → Value → Task unit) (n : nat)
  (reactive : Ref) : Task unit :=
  queue ← gets (dependents_of reactive);
  notifyDependents_loop set_ n [] queue.

(** The in-place write of [updateReactiveValue]: the value accessor,
    [meta.lastUpdated] and [meta.updateCount]. *)
Definition write_value (v : Value) (now : nat) (r : Reactive.t) : Reactive.t :=
  let m := Reactive.meta r in
  Reactive.with_meta
    (ReactiveMetadata.Build (ReactiveMetadata.type m) (ReactiveMetadata.created m)
       (Some now) (S (ReactiveMetadata.updateCount m))
       (ReactiveMetadata.status m) (ReactiveMetadata.error m)
       (ReactiveMetadata.custom m))
    (Reactive.with_value v r).

Definition batching (st : System.t) : bool :=
  Options.batchUpdates (System.options st)
  && bool_decide (0 < List.length (System.batchQueue st))%nat.

Definition updateReactiveValue (set_ : Ref → Value → Task unit) (n : nat)
  (reactive : Ref) (newValue : Value) : Task unit :=
  st ← gets (λ s, s);
  if batching st then
    modify (λ s, System.with_batchQueue
                   (map_set (id_of reactive s) newValue (System.batchQueue s)) s)
  else
    let oldValue := value_of reactive st in
    processedValue ← await (runPluginHook BeforeUpdate newValue [oldValue]);
    modify (λ s, update_object reactive (write_value processedValue (System.now s)) s);;
    enableHistory ← gets (λ s, Options.enableHistory (System.options s));
    (if enableHistory : bool
     then modify (λ s, updateHistory (id_of reactive s) oldValue s)
     else Ret tt);;
    await (notifyDependents set_ n reactive);;
    await (runPluginHook AfterUpdate processedValue []);;
    Ret tt.

(** The mutator that [createReactive] attaches to a reactive whose type
    is not ["readonly"]; it is reached through the property [set] of the
    object ([call_set], and the guarded calls of the engine).  It calls
    itself through [notifyDependents]; [fuel] bounds the depth of these
    nested calls and the length of each propagation loop. *)
Fixpoint set_ (fuel : nat) (reactive : Ref) (newValue : Value) : Task unit :=
  match fuel with
  | O => Spin
  | S fuel' =>
      catch
        (processedValue ← await (runMiddleware PhaseBefore newValue reactive);
         await (updateReactiveValue (set_ fuel') fuel' reactive processedValue);;
         current ← gets (value_of reactive);
         await (runMiddleware PhaseAfter current reactive);;
         Ret tt)
        (λ error, await (handleError error reactive "update"))
  end.

(** *** Creation *)

Definition config_value (config : ReactiveConfig.t) : Value :=
  VConfig (ReactiveConfig.id config) (ReactiveConfig.type config)
    (ReactiveConfig.initialValue config) (ReactiveConfig.dependencies config).

(** [config.id || crypto.randomUUID()]: an absent or empty id is falsy. *)
Definition choose_id (id : option string) (st : System.t) : string * System.t :=
  match id with
  | Some s => if decide (s = "") then randomUUID st else (s, st)
  | None => randomUUID st
  end.

(** A [beforeCreate] hook is declared to return a config object; reading
    the fields of anything else is rejected here as a [TypeError]. *)
Definition createReactive (config : Value) : Task Ref :=
  match config with
  | VConfig id type initialValue dependencies =>
      Get (λ st,
        let '(id, st) := choose_id id st in
        let reactive :=
          Reactive.Build id initialValue (bool_decide (type ≠ "readonly"))
            (ReactiveMetadata.Build type (System.now st) None 0 Status.idle None [])
            (set_of_array (default [] dependencies)) [] in
        let '(ref, st) := alloc reactive st in
        Put (registerReactive ref st) (Ret ref))
  | _ => Throw (MkError "TypeError: config is not an object")
  end.

Definition create (config : ReactiveConfig.t) : Task Ref :=
  processedConfig ← await (runPluginHook BeforeCreate (config_value config) []);
  reactive ← await (createReactive processedConfig);
  await (runPluginHook AfterCreate (VReactive reactive) []);;
  Ret reactive.

(** *** Registry and subscriptions *)

(** [removeReactive] starts the [beforeDestroy] pipeline without awaiting
    it: whatever it does, the three deletions follow. *)
Definition removeReactive (id : string) (st : System.t) : System.t :=
  match getReactive id st with
  | Some reactive =>
      let st := (run (runPluginHook BeforeDestroy (VReactive reactive) []) st).1 in
      let st := System.with_reactives (delete id (System.reactives st)) st in
      let st := System.with_history (delete id (System.history st)) st in
      System.with_subscriptions (delete id (System.subscriptions st)) st
  | None => st
  end.

Definition subscribe (id : string) (callback : Callback) (st : System.t)
  : System.t :=
  let set := default [] (System.subscriptions st !! id) in
  System.with_subscriptions
    (<[id := set_add callback set]> (System.subscriptions st)) st.

(** The closure returned by [subscribe]:
    [() => this.subscriptions.get(id)?.delete(callback)]. *)
Definition subscribe_cancel (id : string) (callback : Callback) (st : System.t)
  : System.t :=
  match System.subscriptions st !! id with
  | Some set =>
      System.with_subscriptions
        (<[id := set_delete callback set]> (System.subscriptions st)) st
  | None => st
  end.

Definition unsubscribe (id : string) (st : System.t) : System.t :=
  System.with_subscriptions (delete id (System.subscriptions st)) st.

(** *** [Promise.all] and [batch] *)

Definition first_rejection {A : Type} (rejection : option Error) (t : Task A)
  : option Error :=
  match rejection, t with
  | None, Throw e => Some e
  | _, _ => rejection
  end.

(** One pass over the calls in flight, in the order of the microtask queue:
    each runs up to its next suspension point.  The first pass ([fresh])
    is the synchronous start of every call. *)
Fixpoint sweep {A : Type} (fresh : bool) (ts : list (Task A)) (st : System.t)
  (rejection : option Error) : System.t * list (Task A) * option Error :=
  match ts with
  | [] => (st, [], rejection)
  | t :: ts' =>
      if fresh || negb (settled t) then
        let '(st, t) := resume t st in
        let '(st, ts', rejection) := sweep fresh ts' st (first_rejection rejection t) in
        (st, t :: ts', rejection)
      else
        let '(st, ts', rejection) := sweep fresh ts' st rejection in
        (st, t :: ts', rejection)
  end.

Fixpoint drain {A : Type} (steps : nat) (ts : list (Task A)) (st : System.t)
  (rejection : option Error) : System.t * list (Task A) * option Error :=
  match steps with
  | O => (st, ts, rejection)
  | S steps' =>
      if forallb settled ts then (st, ts, rejection)
      else
        let '(st, ts, rejection) := sweep false ts st rejection in
        drain steps' ts st rejection
  end.

Definition returned {A : Type} (t : Task A) : bool :=
  match t with
  | Ret _ => true
  | _ => false
  end.

(** [Promise.all(ts)]: rejected with the first rejection, resolved when
    every call has returned.  The state is the one reached when every call
    has settled (a rejection does not stop the other calls). *)
Definition all_ {A : Type} (steps : nat) (ts : list (Task A)) (st : System.t)
  : System.t * Outcome unit :=
  let '(st, ts, rejection) := sweep true ts st None in
  let '(st, ts, rejection) := drain steps ts st rejection in
  match rejection with
  | Some e => (st, Rejected e)
  | None => (st, if forallb returned ts then Resolved tt else Pending)
  end.

(** [this.getReactive(id)?.set?.(value)]: nothing happens when the
    reactive or its mutator is missing. *)
Definition set_if_present (fuel : nat) (update : string * Value) : Task unit :=
  reactive ← gets (getReactive update.1);
  match reactive with
  | Some r =>
      obj ← gets (deref r);
      if from_option Reactive.has_set false obj
      then set_ fuel r update.2
      else Ret tt
  | None => Ret tt
  end.

(** [reactive.set!(newValue)], as the source's example calls it: the
    property is read from the object and what it holds is called.  A
    reactive of type ["readonly"] has no [set], and the call of
    [undefined] is a [TypeError] of the runtime, raised before any code of
    the engine runs. *)
Definition call_set (fuel : nat) (reactive : Ref) (newValue : Value) : Task unit :=
  obj ← gets (deref reactive);
  if from_option Reactive.has_set false obj
  then set_ fuel reactive newValue
  else Throw (MkError "TypeError: reactive.set is not a function").

Definition batch (fuel : nat) (operations : list (Task unit)) (st : System.t)
  : System.t * Outcome unit :=
  let '(st, outcome) := all_ fuel operations st in
  match outcome with
  | Resolved _ =>
      let updates := System.batchQueue st in
      let st := System.with_batchQueue [] st in
      all_ fuel (set_if_present fuel <$> updates) st
  | Rejected e => (st, Rejected e)
  | Pending => (st, Pending)
  end.

(** *** Construction *)

Module SystemConfig.
(** [config.options]: a field is [None] when the key is absent.  A key
    that is present overrides the default whatever it holds, so
    [historySize] may be present without holding a number
    ([historySize: undefined] is a value of [historySize?: number]). *)
Record options_t : Type := BuildOptions {
  enableHistory : option bool;
  historySize : option (option Z);
  asyncTimeout : option Z;
  batchUpdates : option bool;
  devTools : option bool
}.
Record t : Type := Build {
  plugins : option (list Plugin.t);
  middleware : option (list Middleware.t);
  options : option options_t
}.
End SystemConfig.

(** [{ enableHistory: false, historySize: 10, ..., ...config.options }]. *)
Definition resolve_options (o : option SystemConfig.options_t) : Options.t :=
  let get {A} (f : SystemConfig.options_t → option A) (d : A) : A :=
    default d (o ≫= f) in
  Options.Build
    (get SystemConfig.enableHistory false)
    (get SystemConfig.historySize (Some 10%Z))
    (get SystemConfig.asyncTimeout 5000%Z)
    (get SystemConfig.batchUpdates false)
    (get SystemConfig.devTools false).

Definition register_new (obj : Reactive.t) (st : System.t) : System.t :=
  let '(ref, st) := alloc obj st in registerReactive ref st.

Definition initializePlugins (plugins : list Plugin.t) (st : System.t) : System.t :=
  foldl
    (λ st plugin,
       let st :=
         System.Build (System.heap st) (System.reactives st)
           (map_set (Plugin.name plugin) plugin (System.plugins st))
           (System.middleware st) (System.history st) (System.batchQueue st)
           (System.subscriptions st) (System.options st) (System.trace st)
           (System.now st) (System.uuids st) (System.drawn st) in
       foldl (λ st obj, register_new obj st) st
         (default [] (Plugin.initialize plugin)))
    st plugins.

(** [new ComponentSystem(config)], at clock reading [now] and with [uuids]
    as the identifiers that [crypto.randomUUID()] will return.  The
    devtools object that the constructor may publish on [window] only
    reads the state and is left out. *)
Definition ComponentSystem (config : SystemConfig.t) (now : nat)
  (uuids : nat → string) : System.t :=
  let st :=
    System.Build [] ∅ [] [] ∅ [] ∅
      (resolve_options (SystemConfig.options config)) [] now uuids 0 in
  let st := initializePlugins (default [] (SystemConfig.plugins config)) st in
  System.Build (System.heap st) (System.reactives st) (System.plugins st)
    (default [] (SystemConfig.middleware config)) (System.history st)
    (System.batchQueue st) (System.subscriptions st) (System.options st)
    (System.trace st) (System.now st) (System.uuids st) (System.drawn st).

(** * Vocabulary of the properties, and example systems *)

(** ** Equations of [run] *)

(** The state after some more calls. *)
Definition traced (evs : list Event) (st : System.t) : System.t :=
  System.with_trace (System.trace st ++ evs) st.

(** ** A unary logic for what a computation leaves invariant *)

(** [t], started in [st], ends in a state related to [st] by [R]. *)
Definition pres (R : System.t → System.t → Prop) {A : Type} (t : Task A)
  (st : System.t) : Prop :=
  R st (run t st).1.

(** ** What an update never changes *)

(** Two snapshots of one object: an update rewrites its value and its
    metadata, never its identity, its mutator or its edges. *)
Definition same_node (a b : Reactive.t) : Prop :=
  Reactive.id a = Reactive.id b
  ∧ Reactive.has_set a = Reactive.has_set b
  ∧ Reactive.dependencies a = Reactive.dependencies b
  ∧ Reactive.dependents a = Reactive.dependents b
  ∧ ReactiveMetadata.type (Reactive.meta a) = ReactiveMetadata.type (Reactive.meta b).

(** The calls the engine makes: hooks, middleware and their error
    handlers. *)
Definition engine_event (ev : Event) : Prop :=
  match ev with
  | SubscriberCalled _ _ _ => False
  | _ => True
  end.

Record evolves (st st' : System.t) : Prop := Evolves {
  ev_heap : Forall2 same_node (System.heap st) (System.heap st');
  ev_reactives : System.reactives st' = System.reactives st;
  ev_plugins : System.plugins st' = System.plugins st;
  ev_middleware : System.middleware st' = System.middleware st;
  ev_subscriptions : System.subscriptions st' = System.subscriptions st;
  ev_options : System.options st' = System.options st;
  ev_now : System.now st' = System.now st;
  ev_trace : ∃ evs, System.trace st' = System.trace st ++ evs
                    ∧ Forall engine_event evs;
  ev_queue : System.batchQueue st = [] → System.batchQueue st' = []
}.

Abbreviation keeps := (pres evolves).

(** ** The sequential reading of [set] *)

(** Passing an outcome on: [o] if the first computation does not return. *)
Definition and_then {A B : Type} (r : System.t * Outcome A)
  (k : System.t → A → System.t * Outcome B) : System.t * Outcome B :=
  match r with
  | (st, Resolved a) => k st a
  | (st, Rejected e) => (st, Rejected e)
  | (st, Pending) => (st, Pending)
  end.

Definition enqueue (reactive : Ref) (newValue : Value) (st : System.t) : System.t :=
  System.with_batchQueue
    (map_set (id_of reactive st) newValue (System.batchQueue st)) st.

(** The synchronous stretch of [updateReactiveValue] between the
    [beforeUpdate] hooks and the propagation: the write and the history. *)
Definition commit (reactive : Ref) (oldValue processedValue : Value)
  (st : System.t) : System.t :=
  let st := update_object reactive (write_value processedValue (System.now st)) st in
  if Options.enableHistory (System.options st)
  then updateHistory (id_of reactive st) oldValue st
  else st.

Definition or_handle (reactive : Ref) (r : System.t * Outcome unit)
  (k : System.t → System.t * Outcome unit) : System.t * Outcome unit :=
  match r with
  | (st, Resolved _) => k st
  | (st, Rejected e) => run (handleError e reactive "update") st
  | (st, Pending) => (st, Pending)
  end.

(** ** Hook and middleware pipelines only add to the trace *)

(** [st'] is [st] after some more calls, all of them in [P]. *)
Definition logs (P : Event → Prop) (st st' : System.t) : Prop :=
  ∃ evs, st' = traced evs st ∧ Forall P evs.

Definition hook_event (hook : HookName) (ev : Event) : Prop :=
  ∃ plugin arg, ev = HookCalled plugin hook arg.
Definition middleware_event (phase : Phase) (ev : Event) : Prop :=
  ∃ middleware arg, ev = MiddlewareCalled middleware phase arg.
Definition error_event (error : Error) (ev : Event) : Prop :=
  (∃ plugin, ev = HandleErrorCalled plugin error)
  ∨ (∃ middleware, ev = MiddlewareErrorCalled middleware error).

(** ** Computations that always settle *)

Definition settles {A : Type} (t : Task A) (st : System.t) : Prop :=
  (run t st).2 ≠ Pending.

(** ** The error path *)

(** An error handler that returns on the given error. *)
Definition plugin_quiet (heap : Heap) (error : Error) (ctx : ErrorContext.t)
  (entry : string * Plugin.t) : Prop :=
  ∀ handler, Plugin.handleError entry.2 = Some handler → handler heap error ctx = Ok tt.

Definition middleware_quiet (heap : Heap) (error : Error) (ctx : MiddlewareContext.t)
  (middleware : Middleware.t) : Prop :=
  ∀ handler, Middleware.error middleware = Some handler → handler heap error ctx = Ok tt.

(** The calls of the two loops of [handleError] when they run to their end:
    one per plugin (per middleware) that has the handler, in order. *)
Definition plugin_error_calls (error : Error) (plugins : list (string * Plugin.t))
  : list Event :=
  omap (λ entry : string * Plugin.t,
          match Plugin.handleError entry.2 with
          | Some _ => Some (HandleErrorCalled (Plugin.name entry.2) error)
          | None => None
          end) plugins.

Definition middleware_error_calls (error : Error) (middlewares : list Middleware.t)
  : list Event :=
  omap (λ middleware,
          match Middleware.error middleware with
          | Some _ => Some (MiddlewareErrorCalled (Middleware.name middleware) error)
          | None => None
          end) middlewares.

Definition handlers_quiet (st : System.t) : Prop :=
  (∀ entry handler, entry ∈ System.plugins st →
     Plugin.handleError entry.2 = Some handler → ∀ heap e ctx, handler heap e ctx = Ok tt)
  ∧ (∀ middleware handler, middleware ∈ System.middleware st →
       Middleware.error middleware = Some handler → ∀ heap e ctx, handler heap e ctx = Ok tt).

(** ** Creation *)

(** The object that [createReactive] builds. *)
Definition new_reactive (id : string) (type : string) (initialValue : Value)
  (dependencies : option (list string)) (now : nat) : Reactive.t :=
  Reactive.Build id initialValue (bool_decide (type ≠ "readonly"))
    (ReactiveMetadata.Build type now None 0 Status.idle None [])
    (set_of_array (default [] dependencies)) [].

(** ** Dependents (C1) *)

(** The wiring that propagation needs: every registered dependency of the
    reactive behind [r] lists it among its dependents. *)
Definition dependents_wired (st : System.t) (r : Ref) : Prop :=
  ∀ R d a obj,
    deref r st = Some R → d ∈ Reactive.dependencies R →
    getReactive d st = Some a → deref a st = Some obj →
    Reactive.id R ∈ Reactive.dependents obj.

(** No registered reactive lists [id] among its dependents. *)
Definition dependents_cleared (st : System.t) (id : string) : Prop :=
  ∀ d a obj,
    getReactive d st = Some a → deref a st = Some obj →
    id ∉ Reactive.dependents obj.

Definition uuids0 (n : nat) : string := "uuid-" +:+ pretty n.

Definition config_of (id type : string) (initialValue : Value)
  (dependencies : option (list string)) : ReactiveConfig.t :=
  ReactiveConfig.Build (Some id) type initialValue dependencies.

Definition bare_system : System.t :=
  ComponentSystem (SystemConfig.Build None None None) 0 uuids0.

(** [A], then [R] created with [dependencies: ["A"]]. *)
Definition system_A : System.t :=
  (run (create (config_of "A" "state" (VNum 0) None)) bare_system).1.
Definition system_A_R : System.t :=
  (run (create (config_of "R" "state" (VNum 0) (Some ["A"]))) system_A).1.

(** A plugin that restores, on [initialize], a reactive [A] whose stored
    edges name [R] as a dependent. *)
Definition restoring_plugin : Plugin.t :=
  Plugin.Build "persistence"
    (Some [Reactive.Build "A" (VNum 0) false
             (ReactiveMetadata.Build "persisted" 0 None 0 Status.idle None [])
             [] ["R"]])
    None None None None None None.

Definition restored_system : System.t :=
  ComponentSystem (SystemConfig.Build (Some [restoring_plugin]) None None) 0 uuids0.
Definition restored_R_removed : System.t :=
  removeReactive "R"
    (run (create (config_of "R" "state" (VNum 0) (Some ["A"]))) restored_system).1.

(** ** Creating under an id that is taken (C10) *)

(** [A] created twice. *)
Definition system_A_A : System.t :=
  (run (create (config_of "A" "state" (VNum 7) None)) system_A).1.

(** ** Subscriptions (C5) *)

(** The subscriber set kept for [id]. *)
Definition subscribers (id : string) (st : System.t) : list Callback :=
  default [] (System.subscriptions st !! id).

(** A callback subscribed to [A], then [A.set(1)]. *)
Definition system_A_subscribed : System.t := subscribe "A" 0%nat system_A.
Definition system_A_subscribed_set : System.t * Outcome unit :=
  run (set_ 5 0%nat (VNum 1)) system_A_subscribed.

(** ** Plugin error handlers (C7) *)

Definition throwing_handler (msg : string)
  : Heap → Error → ErrorContext.t → Result unit :=
  λ _ _ _, Raise (MkError msg).
Definition returning_handler : Heap → Error → ErrorContext.t → Result unit :=
  λ _ _ _, Ok tt.

Definition plugin_with_handler (name : string)
  (handler : Heap → Error → ErrorContext.t → Result unit) : Plugin.t :=
  Plugin.Build name None None None None None None (Some handler).

(** The validation middleware of the source's example system. *)
Definition validation : Middleware.t :=
  Middleware.Build "validation"
    (Some (λ _ value _,
             match value with
             | VNull => Raise (MkError "Value cannot be null")
             | _ => Ok value
             end))
    None None.

(** Two plugins with a [handleError] hook, the first of which throws, and
    a reactive [A]; then [A.set(null)], which the validation rejects. *)
Definition system_two_handlers : System.t :=
  (run (create (config_of "A" "state" (VNum 0) None))
     (ComponentSystem
        (SystemConfig.Build
           (Some [plugin_with_handler "first" (throwing_handler "first failed");
                  plugin_with_handler "second" returning_handler])
           (Some [validation]) None)
        0 uuids0)).1.
Definition system_two_handlers_set : System.t * Outcome unit :=
  run (set_ 5 0%nat VNull) system_two_handlers.

(** ** Failing updates (C8) *)

(** The call leaves [set] before the write of [updateReactiveValue]: in the
    [before] middleware, in a [beforeUpdate] hook, or because the update is
    deferred to the pending map. *)
Definition write_skipped (reactive : Ref) (newValue : Value) (st : System.t) : Prop :=
  match run (runMiddleware PhaseBefore newValue reactive) st with
  | (st1, Resolved processedValue) =>
      batching st1 = true
      ∨ ∃ st2 e,
          run (runPluginHook BeforeUpdate processedValue [value_of reactive st1]) st1
          = (st2, Rejected e)
  | (_, Rejected _) => True
  | (_, Pending) => False
  end.

(** The validation middleware with an [after] stage that throws and an
    [error] handler that throws too. *)
Definition failing_after : Middleware.t :=
  Middleware.Build "audit" None
    (Some (λ _ _ _, Raise (MkError "after failed")))
    (Some (λ _ _ _, Raise (MkError "error handler failed"))).

Definition system_failing_after : System.t :=
  (run (create (config_of "A" "state" (VNum 0) None))
     (ComponentSystem (SystemConfig.Build None (Some [failing_after]) None) 0 uuids0)).1.
Definition system_failing_after_set : System.t * Outcome unit :=
  run (set_ 5 0%nat (VNum 1)) system_failing_after.

(** The source's example system: the validation middleware rejects [null]. *)
Definition system_validation : System.t :=
  (run (create (config_of "A" "state" (VNum 0) None))
     (ComponentSystem (SystemConfig.Build None (Some [validation]) None) 0 uuids0)).1.
Definition system_validation_set : System.t * Outcome unit :=
  run (set_ 5 0%nat VNull) system_validation.

(** ** Read-only reactives (C4) *)

(** [reactive.dependents.add(id)], done by whoever holds the handle: the
    engine itself never adds an edge. *)
Definition add_dependent (reactive : Ref) (id : string) (st : System.t) : System.t :=
  update_object reactive
    (λ r, Reactive.Build (Reactive.id r) (Reactive.value r) (Reactive.has_set r)
            (Reactive.meta r) (Reactive.dependencies r)
            (set_add id (Reactive.dependents r))) st.



(** ** The history log (C9) *)

(** [values] set one after the other on one reactive, every call
    resolving: the values that [value()] returned before each call, and
    the final state. *)
Fixpoint commits (fuel : nat) (reactive : Ref) (values : list Value) (st : System.t)
  : option (list Value * System.t) :=
  match values with
  | [] => Some ([], st)
  | v :: values' =>
      match run (set_ fuel reactive v) st with
      | (st', Resolved _) =>
          match commits fuel reactive values' st' with
          | Some (priors, st'') => Some (value_of reactive st :: priors, st'')
          | None => None
          end
      | _ => None
      end
  end.

(** The log kept for [id]. *)
Definition history_of (id : string) (st : System.t) : list Value :=
  default [] (System.history st !! id).

(** A system with history of size 3 and a reactive [A], as in the spec's
    example: four commits. *)
Definition system_history3 : System.t :=
  (run (create (config_of "A" "state" (VNum 0) None))
     (ComponentSystem
        (SystemConfig.Build None None
           (Some (SystemConfig.BuildOptions (Some true) (Some (Some 3%Z)) None None None)))
        0 uuids0)).1.

Definition four_commits : option (list Value * System.t) :=
  commits 5 0%nat [VNum 1; VNum 2; VNum 3; VNum 4] system_history3.

(** [A] committed once, then a second reactive created under the id
    ["A"], with the value 7. *)
Definition system_A_recreated : System.t :=
  (run (create (config_of "A" "state" (VNum 7) None))
     (run (set_ 5 0%nat (VNum 5)) system_history3).1).1.

(** ** Batching (C2, C3) *)

(** The source's example system (history and batching enabled, validation
    middleware) with one reactive [X]. *)
Definition system_batching : System.t :=
  (run (create (config_of "X" "state" (VNum 0) None))
     (ComponentSystem
        (SystemConfig.Build None (Some [validation])
           (Some (SystemConfig.BuildOptions (Some true) None None (Some true) None)))
        0 uuids0)).1.

(** [async () => await X.set!(v)]. *)
Definition set_operation (v : Value) : Task unit := await (set_ 5 0%nat v).

(** [batch] of two operations setting [X] to 1 and to 2, and of one
    operation doing both in turn. *)
Definition batch_two_operations : System.t * Outcome unit :=
  batch 30 [set_operation (VNum 1); set_operation (VNum 2)] system_batching.
Definition batch_one_operation : System.t * Outcome unit :=
  batch 30 [set_operation (VNum 1);; set_operation (VNum 2)] system_batching.

(** [batch] of an operation that sets [X] to 1 and then throws, and of two
    operations the second of which is rejected by the validation. *)
Definition batch_set_then_throw : System.t * Outcome unit :=
  batch 30 [set_operation (VNum 1);; Throw (MkError "boom")] system_batching.
Definition batch_second_rejected : System.t * Outcome unit :=
  batch 30 [set_operation (VNum 1); set_operation VNull] system_batching.

Definition updateCount_of (reactive : Ref) (st : System.t) : nat :=
  from_option (λ r, ReactiveMetadata.updateCount (Reactive.meta r)) 0%nat
    (deref reactive st).

(** ** Propagation (C6) *)

(** [A], [B], [C] with [B] a dependent of [A] and [C] a dependent of [B];
    then the same with [A] a dependent of [C]: the cycle A→B→C→A. *)
Definition system_chain : System.t :=
  let st := system_A in
  let st := (run (create (config_of "B" "state" (VNum 0) (Some ["A"]))) st).1 in
  let st := (run (create (config_of "C" "state" (VNum 0) (Some ["B"]))) st).1 in
  add_dependent 1%nat "C" (add_dependent 0%nat "B" st).
Definition system_cycle : System.t := add_dependent 2%nat "A" system_chain.

(** A graph without plugins and middleware in which every reactive can be
    set and has a registered first dependent. *)
Definition restless (st : System.t) : Prop :=
  System.plugins st = [] ∧ System.middleware st = [] ∧ System.batchQueue st = []
  ∧ ∀ r obj, deref r st = Some obj →
      Reactive.has_set obj = true
      ∧ ∃ d ds r', Reactive.dependents obj = d :: ds
                   ∧ getReactive d st = Some r' ∧ is_Some (deref r' st).

(** * Vocabulary of the further properties of the engine *)

(** ** The lifecycle pipeline as a fold *)

Definition outcome_of {A : Type} (r : Result A) : Outcome A :=
  match r with
  | Ok a => Resolved a
  | Raise e => Rejected e
  end.

(** What [runPluginHook] comes to on a fixed object store: the plugins
    that have the hook are called in the order of the plugin map, each on
    the result of the one before, until one throws; the calls made and the
    value or the exception that results. *)
Fixpoint thread_hooks (hook : HookName) (plugins : list (string * Plugin.t))
  (heap : Heap) (args : list Value) (value : Value) : list Event * Result Value :=
  match plugins with
  | [] => ([], Ok value)
  | (_, plugin) :: plugins' =>
      match get_hook hook plugin with
      | Some hookFn =>
          match hookFn heap value args with
          | Ok value' =>
              let '(evs, r) := thread_hooks hook plugins' heap args value' in
              (HookCalled (Plugin.name plugin) hook value :: evs, r)
          | Raise e => ([HookCalled (Plugin.name plugin) hook value], Raise e)
          end
      | None => thread_hooks hook plugins' heap args value
      end
  end.

(** A plugin that does not implement [hook]. *)
Definition lacks (hook : HookName) (entry : string * Plugin.t) : Prop :=
  get_hook hook entry.2 = None.

(** ** The middleware pipeline as a fold *)

(** What [runMiddleware] comes to on a fixed object store: the middleware
    that have a handler for the phase are called in array order, each on
    the result of the one before and all with the same context, until one
    throws. *)
Fixpoint thread_middleware (phase : Phase) (middlewares : list Middleware.t)
  (heap : Heap) (context : MiddlewareContext.t) (value : Value)
  : list Event * Result Value :=
  match middlewares with
  | [] => ([], Ok value)
  | middleware :: middlewares' =>
      match middleware_handler phase middleware with
      | Some handler =>
          match handler heap value context with
          | Ok value' =>
              let '(evs, r) := thread_middleware phase middlewares' heap context value' in
              (MiddlewareCalled (Middleware.name middleware) phase value :: evs, r)
          | Raise e => ([MiddlewareCalled (Middleware.name middleware) phase value], Raise e)
          end
      | None => thread_middleware phase middlewares' heap context value
      end
  end.

(** A middleware without a handler for [phase]. *)
Definition skips (phase : Phase) (middleware : Middleware.t) : Prop :=
  middleware_handler phase middleware = None.

(** A middleware that rounds a number down to an even one, one that only
    acts after the update, and the validation of the example system. *)
Definition evening : Middleware.t :=
  Middleware.Build "evening"
    (Some (λ _ value _,
             match value with
             | VNum n => Ok (VNum (2 * (n / 2)))
             | _ => Ok value
             end))
    None None.
Definition auditing : Middleware.t :=
  Middleware.Build "auditing" None (Some (λ _ value _, Ok value)) None.

Definition system_three_middleware : System.t :=
  (run (create (config_of "A" "state" (VNum 0) None))
     (ComponentSystem
        (SystemConfig.Build None (Some [evening; auditing; validation]) None)
        0 uuids0)).1.

(** The [LoggerPlugin] of the source: every hook writes to the console
    and hands back what its declaration says ([beforeCreate] the config,
    the others nothing). *)
Definition LoggerPlugin : Plugin.t :=
  Plugin.Build "logger" (Some [])
    (Some (λ _ config _, Ok config))
    (Some (λ _ _ _, Ok VUndefined))
    None None None
    (Some (λ _ _ _, Ok tt)).

(** Creation hooks that leave the request alone: every [beforeCreate]
    returns the config it was given and every [afterCreate] returns. *)
Definition create_hooks_transparent (st : System.t) : Prop :=
  ∀ entry, entry ∈ System.plugins st →
    (∀ h, Plugin.beforeCreate entry.2 = Some h → ∀ heap v args, h heap v args = Ok v)
    ∧ (∀ h, Plugin.afterCreate entry.2 = Some h → ∀ heap v args, ∃ w, h heap v args = Ok w).

(** A plugin that only watches [afterCreate] and hands on what it was
    given, registered after the logger. *)
Definition observer : Plugin.t :=
  Plugin.Build "observer" None None (Some (λ _ reactive _, Ok reactive))
    None None None None.

Definition system_logger_observer : System.t :=
  ComponentSystem
    (SystemConfig.Build
       (Some [LoggerPlugin; plugin_with_handler "silent" returning_handler; observer])
       None None)
    0 uuids0.

(** A plugin whose [beforeCreate], or whose [afterCreate], throws. *)
Definition plugin_failing_before_create : Plugin.t :=
  Plugin.Build "strict" None (Some (λ _ _ _, Raise (MkError "rejected config")))
    None None None None None.
Definition plugin_failing_after_create : Plugin.t :=
  Plugin.Build "late" None None (Some (λ _ _ _, Raise (MkError "afterCreate failed")))
    None None None None.

Definition system_failing_before_create : System.t :=
  ComponentSystem
    (SystemConfig.Build (Some [plugin_failing_before_create]) None None) 0 uuids0.
Definition system_failing_after_create : System.t :=
  ComponentSystem
    (SystemConfig.Build (Some [plugin_failing_after_create]) None None) 0 uuids0.

Definition system_logger : System.t :=
  ComponentSystem (SystemConfig.Build (Some [LoggerPlugin]) None None) 0 uuids0.

(** A config without an id, and one whose dependencies repeat. *)
Definition config_anonymous : ReactiveConfig.t :=
  ReactiveConfig.Build None "state" (VNum 0) None.
Definition config_repeating : ReactiveConfig.t :=
  ReactiveConfig.Build (Some "sum") "computed" (VNum 0) (Some ["a"; "b"; "a"; "c"; "b"]).

(** ** Registry and subscriptions *)

(** [A] with one recorded update, and a subscriber. *)
Definition system_A_used : System.t :=
  subscribe "A" 7%nat (run (set_ 5 0%nat (VNum 1)) system_history3).1.

(** ** Invariants of an update *)

(** Every history log holds at most [historySize] values, when
    [historySize] is a number. *)
Definition history_bounded (st : System.t) : Prop :=
  ∀ id log historySize,
    Options.historySize (System.options st) = Some historySize →
    System.history st !! id = Some log →
    (List.length log ≤ Z.to_nat historySize)%nat.

(** What the engine may do to one object in an update: it never lowers
    the update count, never touches the creation date, and moves the
    status nowhere but to ["error"]. *)
Definition ages (a b : Reactive.t) : Prop :=
  (ReactiveMetadata.updateCount (Reactive.meta a)
   ≤ ReactiveMetadata.updateCount (Reactive.meta b))%nat
  ∧ ReactiveMetadata.created (Reactive.meta b) = ReactiveMetadata.created (Reactive.meta a)
  ∧ (ReactiveMetadata.status (Reactive.meta b) = ReactiveMetadata.status (Reactive.meta a)
     ∨ ReactiveMetadata.status (Reactive.meta b) = Status.error).

Definition heap_ages (st st' : System.t) : Prop :=
  Forall2 ages (System.heap st) (System.heap st').

(** The history map is left alone when history is disabled. *)
Definition history_kept (st st' : System.t) : Prop :=
  System.options st' = System.options st
  ∧ (Options.enableHistory (System.options st) = false →
     System.history st' = System.history st).

(** Bounded logs stay bounded. *)
Definition bound_kept (st st' : System.t) : Prop :=
  System.options st' = System.options st
  ∧ (history_bounded st → history_bounded st').

(** ** [batch] *)

(** The number of suspension points that a computation passes when it
    runs alone from the given state. *)
Fixpoint yields {A : Type} (t : Task A) (st : System.t) : nat :=
  match t with
  | Get k => yields (k st) st
  | Put s k => yields k s
  | Yield k => S (yields k st)
  | _ => 0
  end.

(** What [Promise.all] reports for the calls [ts] once they have settled. *)
Definition reported {A : Type} (r : System.t * list (Task A) * option Error)
  : System.t * Outcome unit :=
  match r with
  | (st, _, Some e) => (st, Rejected e)
  | (st, ts, None) => (st, if forallb returned ts then Resolved tt else Pending)
  end.


(** ** Construction *)

(** The position of the last object of [objs] that carries [id]. *)
Fixpoint find_last (id : string) (objs : list Reactive.t) : option nat :=
  match objs with
  | [] => None
  | obj :: objs' =>
      match find_last id objs' with
      | Some i => Some (S i)
      | None => if decide (Reactive.id obj = id) then Some 0%nat else None
      end
  end.

(** The reactives that the [initialize] hooks of [plugins] register, in
    the order of the calls. *)
Definition initialized (plugins : list Plugin.t) : list Reactive.t :=
  mjoin ((λ plugin, default [] (Plugin.initialize plugin)) <$> plugins).

(** The last plugin of the list that carries [name]. *)
Definition last_named (name : string) (plugins : list Plugin.t) : option Plugin.t :=
  last (filter (λ plugin, Plugin.name plugin = name) plugins).

(** The reactive that [PersistencePlugin.initialize] registers for one
    entry of the stored state: no mutator, no edges, type ["persisted"]. *)
Definition persisted (now : nat) (entry : string * Value) : Reactive.t :=
  Reactive.Build entry.1 entry.2 false
    (ReactiveMetadata.Build "persisted" now None 0 Status.idle None [])
    [] [].

(** [PersistencePlugin.initialize], given what [localStorage] holds under
    ["reactives"]: nothing, or the entries of the parsed object in the
    order of [Object.entries]. *)
Definition PersistencePlugin_initialize (stored : option (list (string * Value)))
  (now : nat) : option (list Reactive.t) :=
  Some (match stored with
        | Some state => persisted now <$> state
        | None => []
        end).

(** The plugin list of the source's example system, with a stored state;
    of the persistence plugin only [initialize] is modelled. *)
Definition persistence (stored : option (list (string * Value))) (now : nat) : Plugin.t :=
  Plugin.Build "persistence" (PersistencePlugin_initialize stored now)
    None None None None None None.

Definition system_rehydrated : System.t :=
  ComponentSystem
    (SystemConfig.Build
       (Some [LoggerPlugin;
              persistence (Some [("count", VNum 3); ("doubled", VNum 6)]) 0])
       (Some [validation])
       (Some (SystemConfig.BuildOptions (Some true) None None (Some true) None)))
    0 uuids0.

(** Two plugins under one name, each restoring a reactive. *)
Definition system_renamed : System.t :=
  ComponentSystem
    (SystemConfig.Build
       (Some [persistence (Some [("a", VNum 1)]) 0;
              LoggerPlugin;
              persistence (Some [("b", VNum 2)]) 0])
       None None)
    0 uuids0.

(** ** Propagation to direct dependents *)

(** What the propagation loop does for one dependent id: a registered
    dependent that has a mutator is set to its own current value, anything
    else is passed over. *)
Definition recommit (st : System.t) (dependentId : string) : System.t :=
  match getReactive dependentId st with
  | Some d =>
      match deref d st with
      | Some obj =>
          if Reactive.has_set obj
          then commit d (Reactive.value obj) (Reactive.value obj) st
          else st
      | None => st
      end
  | None => st
  end.

(** The dependents of the object behind [reactive] are leaves: those that
    are registered have no dependents of their own. *)
Definition dependents_are_leaves (ids : list string) (st : System.t) : Prop :=
  ∀ d rd od, d ∈ ids → getReactive d st = Some rd → deref rd st = Some od →
             Reactive.dependents od = [].

(** [A] with three dependents: [B], an id that is not registered, and the
    read-only [R]. *)
Definition system_fan : System.t :=
  let st := system_A in
  let st := (run (create (config_of "B" "state" (VNum 4) (Some ["A"]))) st).1 in
  let st := (run (create (config_of "R" "readonly" (VNum 5) (Some ["A"]))) st).1 in
  add_dependent 0%nat "R" (add_dependent 0%nat "ghost" (add_dependent 0%nat "B" st)).

(** The object behind [A] in [system_fan]. *)
Definition fan_root : Reactive.t :=
  Reactive.Build "A" (VNum 0) true
    (ReactiveMetadata.Build "state" 0 None 0 Status.idle None [])
    [] ["B"; "ghost"; "R"].

(** A system whose config gives [historySize: undefined], with history
    enabled, and a reactive [A]. *)
Definition system_unbounded : System.t :=
  (run (create (config_of "A" "state" (VNum 0) None))
     (ComponentSystem
        (SystemConfig.Build None None
           (Some (SystemConfig.BuildOptions (Some true) (Some None) None None None)))
        0 uuids0)).1.

(** * The signal factory of [Source/v1/alternative.ts] *)

(** [createComponentFactory], for the reactives of type ["signal"].  The
    functions that a config supplies ([getter], [setter], [transform],
    [validate], [onError], [onSuccess], the middleware and the subscriber
    callbacks) are functions that return or throw; a computation is run
    alone, so that the [await] in a setter resumes at once. *)
Module Alternative.

(** [(next) => (value) => ...]. *)
Definition Middleware : Type := (Value → Result Value) → Value → Result Value.

Record BaseConfig : Type := BuildConfig {
  initialValue : Value;
  getter : option (Value → Result Value);
  setter : option (Value → Value → Result Value);
  middleware : option (list Middleware);
  validate : option (Value → Result bool);
  transform : option (Value → Result Value);
  onError : option (Error → Result unit);
  onSuccess : option (Value → Result unit)
}.

(** A subscriber callback: the function object (its identity) and what a
    call of it does. *)
Record Subscriber : Type := BuildSubscriber {
  callback : nat;
  call : Value → Result unit
}.

(** The calls made to the functions of the config and to subscribers. *)
Inductive Call : Type :=
| OnSuccess (key : string) (value : Value)
| OnError (key : string) (error : Error)
| Notified (key : string) (callback : nat) (value : Value).

(** The closure state of one component: per key the signal with the
    config its getter and setter close over, the subscriber sets, and the
    calls made so far. *)
Record Component : Type := BuildComponent {
  signals : gmap string (BaseConfig * Value);
  subscribers : gmap string (list Subscriber);
  calls : list Call
}.

Definition called (c : Call) (st : Component) : Component :=
  BuildComponent (signals st) (subscribers st) (calls st ++ [c]).

Definition applyMiddleware (value : Value) (middleware : option (list Middleware))
  : Result Value :=
  match middleware with
  | None | Some [] => Ok value
  | Some middleware =>
      let pipeline := foldl (λ next middleware, middleware next) Ok middleware in
      pipeline value
  end.

(** [validateValue]: no validator accepts, a validator that throws (or
    whose promise rejects) refuses. *)
Definition validateValue (value : Value) (validate : option (Value → Result bool))
  : bool :=
  match validate with
  | None => true
  | Some validate =>
      match validate value with
      | Ok isValid => isValid
      | Raise _ => false
      end
  end.

(** [subscribers.get(key)?.forEach((callback) => callback(value))]: a
    callback that throws ends the iteration. *)
Fixpoint notify_each (key : string) (value : Value) (callbacks : list Subscriber)
  (st : Component) : Component * Result unit :=
  match callbacks with
  | [] => (st, Ok tt)
  | cb :: callbacks' =>
      let st := called (Notified key (callback cb) value) st in
      match call cb value with
      | Ok _ => notify_each key value callbacks' st
      | Raise e => (st, Raise e)
      end
  end.

Definition notifySubscribers (key : string) (value : Value) (st : Component)
  : Component * Result unit :=
  notify_each key value (default [] (subscribers st !! key)) st.

(** [getters[key]()]. *)
Definition get (key : string) (st : Component) : option (Result Value) :=
  match signals st !! key with
  | Some (conf, rawValue) =>
      Some (match getter conf with
            | Some getter =>
                match getter rawValue with
                | Ok v => applyMiddleware v (middleware conf)
                | Raise e => Raise e
                end
            | None => applyMiddleware rawValue (middleware conf)
            end)
  | None => None
  end.

(** [baseConfig.onError?.(error)]. *)
Definition report (conf : BaseConfig) (key : string) (error : Error) (st : Component)
  : Component * Result unit :=
  match onError conf with
  | Some onError => (called (OnError key error) st, onError error)
  | None => (st, Ok tt)
  end.

(** The [try] block of a setter. *)
Definition try_set (conf : BaseConfig) (key : string) (current newValue : Value)
  (st : Component) : Component * Result unit :=
  match (match transform conf with
         | Some transform => transform newValue
         | None => Ok newValue
         end) with
  | Raise e => (st, Raise e)
  | Ok transformedValue =>
      if validateValue transformedValue (validate conf) then
        match (match setter conf with
               | Some setter => setter current transformedValue
               | None => Ok transformedValue
               end) with
        | Raise e => (st, Raise e)
        | Ok value =>
            let st :=
              BuildComponent (<[key := (conf, value)]> (signals st))
                (subscribers st) (calls st) in
            match onSuccess conf with
            | Some onSuccess =>
                let st := called (OnSuccess key transformedValue) st in
                match onSuccess transformedValue with
                | Ok _ => notifySubscribers key transformedValue st
                | Raise e => (st, Raise e)
                end
            | None => notifySubscribers key transformedValue st
            end
        end
      else report conf key (MkError "Validation failed") st
  end.

(** [setters[key](newValue)]; [None] when the component has no setter
    under [key]. *)
Definition set (key : string) (newValue : Value) (st : Component)
  : option (Component * Result unit) :=
  match signals st !! key with
  | Some (conf, current) =>
      Some (match try_set conf key current newValue st with
            | (st, Ok _) => (st, Ok tt)
            | (st, Raise error) => report conf key error st
            end)
  | None => None
  end.

(** [createReactive(conf, key)] for a signal, which is also
    [context.addReactive]. *)
Definition createReactive (conf : BaseConfig) (key : string) (st : Component)
  : Component :=
  BuildComponent (<[key := (conf, initialValue conf)]> (signals st))
    (subscribers st) (calls st).

Definition removeReactive (key : string) (st : Component) : Component :=
  BuildComponent (delete key (signals st)) (delete key (subscribers st)) (calls st).

Definition add_subscriber (cb : Subscriber) (set : list Subscriber) : list Subscriber :=
  if decide (callback cb ∈ callback <$> set) then set else set ++ [cb].
Definition delete_subscriber (cb : Subscriber) (set : list Subscriber)
  : list Subscriber :=
  filter (λ other, callback other ≠ callback cb) set.

Definition subscribe (key : string) (cb : Subscriber) (st : Component) : Component :=
  BuildComponent (signals st)
    (<[key := add_subscriber cb (default [] (subscribers st !! key))]> (subscribers st))
    (calls st).

(** The closure returned by [subscribe]:
    [() => subscribers.get(key)!.delete(callback)], which reads a property
    of [undefined] when the set of the key is gone. *)
Definition subscribe_cancel (key : string) (cb : Subscriber) (st : Component)
  : Result Component :=
  match subscribers st !! key with
  | Some set =>
      Ok (BuildComponent (signals st)
            (<[key := delete_subscriber cb set]> (subscribers st)) (calls st))
  | None => Raise (MkError "TypeError: Cannot read properties of undefined")
  end.

(** The component right after its creation, for a config of signals in
    the order of [Object.entries]. *)
Definition createComponentFactory (config : list (string * BaseConfig)) : Component :=
  foldl (λ st entry, createReactive entry.2 entry.1 st)
    (BuildComponent ∅ ∅ []) config.

End Alternative.

(** ** Vocabulary for the signal factory *)

(** Two shapes of middleware around a function [f]: one that changes the
    value and hands it on, one that hands the value on and changes what
    comes back. *)
Definition transform_first (f : Value → Value) : Alternative.Middleware :=
  λ next value, next (f value).
Definition transform_last (f : Value → Value) : Alternative.Middleware :=
  λ next value,
    match next value with
    | Ok v => Ok (f v)
    | Raise e => Raise e
    end.

(** What a setter makes of its argument before validation, and the value
    it would store. *)
Definition transformed (conf : Alternative.BaseConfig) (newValue : Value)
  : Result Value :=
  match Alternative.transform conf with
  | Some transform => transform newValue
  | None => Ok newValue
  end.
Definition stored (conf : Alternative.BaseConfig) (current transformedValue : Value)
  : Result Value :=
  match Alternative.setter conf with
  | Some setter => setter current transformedValue
  | None => Ok transformedValue
  end.

(** The subscribers of a key. *)
Definition listeners (key : string) (st : Alternative.Component)
  : list Alternative.Subscriber :=
  default [] (Alternative.subscribers st !! key).

(** A counter that only accepts numbers, stores the sum, and has two
    subscribers; the same without [onError]. *)
Definition counter_config (onError : option (Error → Result unit))
  : Alternative.BaseConfig :=
  Alternative.BuildConfig (VNum 0) None
    (Some (λ current newValue,
             match current, newValue with
             | VNum a, VNum b => Ok (VNum (a + b))
             | _, _ => Raise (MkError "not a number")
             end))
    None
    (Some (λ value, match value with VNum _ => Ok true | _ => Ok false end))
    (Some (λ value, match value with VNum n => Ok (VNum (2 * n)) | _ => Ok value end))
    onError
    (Some (λ _, Ok tt)).

Definition watcher (n : nat) : Alternative.Subscriber :=
  Alternative.BuildSubscriber n (λ _, Ok tt).

(** The counter after it was told to add [n]. *)
Definition counter_after (n : Z) (st : Alternative.Component)
  : Alternative.Component :=
  from_option fst st (Alternative.set "count" (VNum n) st).

Definition counter_component (onError : option (Error → Result unit))
  : Alternative.Component :=
  Alternative.subscribe "count" (watcher 2)
    (Alternative.subscribe "count" (watcher 1)
       (Alternative.createComponentFactory [("count", counter_config onError)])).

(** The counter with its two subscribers after a first [set(3)], which
    stores 6. *)
Definition counter_once : Alternative.Component :=
  counter_after 3 (counter_component None).

(** An [onError] that only takes note, and one that throws in turn. *)
Definition noting : Error → Result unit := λ _, Ok tt.
Definition rethrowing : Error → Result unit := λ error, Raise error.

(** A subscriber that throws, between the two watchers. *)
Definition faulty : Alternative.Subscriber :=
  Alternative.BuildSubscriber 9 (λ _, Raise (MkError "subscriber failed")).

Definition counter_faulty : Alternative.Component :=
  Alternative.subscribe "count" (watcher 2)
    (Alternative.subscribe "count" faulty
       (Alternative.subscribe "count" (watcher 1)
          (Alternative.createComponentFactory [("count", counter_config (Some noting))]))).

(** * Properties *)

(** ** Equations of [run] *)

Lemma run_bind {A B : Type} (t : Task A) (f : A → Task B) (st : System.t) :
  run (t ≫= f) st =
  match run t st with
  | (st', Resolved a) => run (f a) st'
  | (st', Rejected e) => (st', Rejected e)
  | (st', Pending) => (st', Pending)
  end.
Proof.
  unfold mbind, task_bind. revert st.
  induction t as [a|e| |k IH|s k IH|k IH]; intros st; simpl; auto.
Qed.

Lemma run_catch {A : Type} (t : Task A) (h : Error → Task A) (st : System.t) :
  run (catch t h) st =
  match run t st with
  | (st', Rejected e) => run (h e) st'
  | settled => settled
  end.
Proof.
  revert st.
  induction t as [a|e| |k IH|s k IH|k IH]; intros st; simpl; auto.
Qed.

Lemma run_await {A : Type} (t : Task A) (st : System.t) :
  run (await t) st = run t st.
Proof.
  revert st.
  induction t as [a|e| |k IH|s k IH|k IH]; intros st; simpl; auto.
Qed.

Lemma run_await_value {A : Type} (r : Result A) (st : System.t) :
  run (await_value r) st =
  (st, match r with Ok a => Resolved a | Raise e => Rejected e end).
Proof. destruct r; reflexivity. Qed.

Lemma run_gets {A : Type} (f : System.t → A) (st : System.t) :
  run (gets f) st = (st, Resolved (f st)).
Proof. reflexivity. Qed.

Lemma run_modify (f : System.t → System.t) (st : System.t) :
  run (modify f) st = (f st, Resolved tt).
Proof. reflexivity. Qed.

Lemma run_emit (ev : Event) (st : System.t) :
  run (emit ev) st = (traced [ev] st, Resolved tt).
Proof. reflexivity. Qed.

(** ** A unary logic for what a computation leaves invariant *)

Section Preservation.
Variable R : System.t → System.t → Prop.
Hypothesis R_refl : ∀ st, R st st.
Hypothesis R_trans : ∀ st1 st2 st3, R st1 st2 → R st2 st3 → R st1 st3.

Lemma pres_ret {A : Type} (a : A) st : pres R (Ret a) st.
Proof. apply R_refl. Qed.

Lemma pres_throw {A : Type} (e : Error) st : pres R (@Throw A e) st.
Proof. apply R_refl. Qed.

Lemma pres_spin {A : Type} st : pres R (@Spin A) st.
Proof. apply R_refl. Qed.

Lemma pres_yield {A : Type} (t : Task A) st : pres R t st → pres R (Yield t) st.
Proof. exact id. Qed.

Lemma pres_gets {A : Type} (f : System.t → A) st : pres R (gets f) st.
Proof. apply R_refl. Qed.

Lemma pres_modify (f : System.t → System.t) st : R st (f st) → pres R (modify f) st.
Proof. exact id. Qed.

Lemma pres_await {A : Type} (t : Task A) st : pres R t st → pres R (await t) st.
Proof. unfold pres. by rewrite run_await. Qed.

Lemma pres_await_value {A : Type} (r : Result A) st : pres R (await_value r) st.
Proof. unfold pres. rewrite run_await_value. apply R_refl. Qed.

Lemma pres_bind {A B : Type} (t : Task A) (f : A → Task B) st :
  pres R t st →
  (∀ a st', run t st = (st', Resolved a) → R st st' → pres R (f a) st') →
  pres R (t ≫= f) st.
Proof.
  unfold pres. intros Ht Hf. rewrite run_bind.
  destruct (run t st) as [st' [a|e|]] eqn:E; simpl in *; auto.
  eapply R_trans; [exact Ht|]. by apply Hf.
Qed.

Lemma pres_catch {A : Type} (t : Task A) (h : Error → Task A) st :
  pres R t st →
  (∀ e st', run t st = (st', Rejected e) → R st st' → pres R (h e) st') →
  pres R (catch t h) st.
Proof.
  unfold pres. intros Ht Hh. rewrite run_catch.
  destruct (run t st) as [st' [a|e|]] eqn:E; simpl in *; auto.
  eapply R_trans; [exact Ht|]. by apply Hh.
Qed.
End Preservation.

(** ** What an update never changes *)

Lemma same_node_refl a : same_node a a.
Proof. by repeat split. Qed.

Lemma same_node_trans a b c : same_node a b → same_node b c → same_node a c.
Proof.
  intros (?&?&?&?&?) (?&?&?&?&?). repeat split; by etrans.
Qed.

Lemma same_node_alter (f : Reactive.t → Reactive.t) (i : nat) (l : Heap) :
  (∀ obj, same_node obj (f obj)) → Forall2 same_node l (alter f i l).
Proof.
  intros Hf. revert i. induction l as [|obj l IH]; intros [|i]; simpl.
  - constructor.
  - constructor.
  - constructor; [apply Hf|]. apply Forall2_same_length_lookup_2; [done|].
    intros j x y Hx Hy. rewrite Hx in Hy. injection Hy as <-. apply same_node_refl.
  - constructor; [apply same_node_refl | apply IH].
Qed.

Lemma evolves_refl st : evolves st st.
Proof.
  split; try done.
  - apply Forall2_same_length_lookup_2; [done|].
    intros j x y Hx Hy. rewrite Hx in Hy. injection Hy as <-. apply same_node_refl.
  - exists []. by rewrite app_nil_r.
Qed.

Lemma evolves_trans st1 st2 st3 : evolves st1 st2 → evolves st2 st3 → evolves st1 st3.
Proof.
  intros [H1 ? ? ? ? ? ? (evs1 & Ht1 & Hf1) Hq1] [H2 ? ? ? ? ? ? (evs2 & Ht2 & Hf2) Hq2].
  split; try congruence.
  - eapply Forall2_trans; [|exact H1|exact H2]. apply same_node_trans.
  - exists (evs1 ++ evs2). rewrite Ht2, Ht1, app_assoc. split; [done|].
    by apply Forall_app.
  - auto.
Qed.

Lemma evolves_emit ev st :
  engine_event ev → evolves st (System.with_trace (System.trace st ++ [ev]) st).
Proof.
  intros Hev. destruct (evolves_refl st). split; try done.
  exists [ev]. split; [done|]. by constructor.
Qed.

Lemma evolves_update_object r f st :
  (∀ obj, same_node obj (f obj)) → evolves st (update_object r f st).
Proof.
  intros Hf. destruct (evolves_refl st). split; try done.
  by apply same_node_alter.
Qed.

Lemma evolves_updateHistory id v st : evolves st (updateHistory id v st).
Proof. destruct (evolves_refl st). split; done. Qed.

Lemma evolves_enqueue id v st :
  batching st = true →
  evolves st (System.with_batchQueue (map_set id v (System.batchQueue st)) st).
Proof.
  intros Hb. destruct (evolves_refl st). split; try done.
  simpl. intros Hq. unfold batching in Hb. rewrite Hq in Hb.
  apply andb_true_iff in Hb as [_ Hb]. apply bool_decide_eq_true in Hb. simpl in Hb. lia.
Qed.

Lemma same_node_mark_error error obj : same_node obj (mark_error error obj).
Proof. by repeat split. Qed.

Lemma same_node_write_value v now obj : same_node obj (write_value v now obj).
Proof. by repeat split. Qed.

Local Ltac keep_step :=
  lazymatch goal with
  | |- pres _ (mbind _ _) _ =>
      apply pres_bind; [apply evolves_trans| |intros ? ? ? ?]
  | |- pres _ (Ret _) _ => apply pres_ret; apply evolves_refl
  | |- pres _ (Throw _) _ => apply pres_throw; apply evolves_refl
  | |- pres _ Spin _ => apply pres_spin; apply evolves_refl
  | |- pres _ (gets _) _ => apply pres_gets; apply evolves_refl
  | |- pres _ (await_value _) _ => apply pres_await_value; apply evolves_refl
  | |- pres _ (await _) _ => apply pres_await
  | |- pres _ (Yield _) _ => apply pres_yield
  end.

Lemma keeps_emit ev st : engine_event ev → keeps (emit ev) st.
Proof. intros. by apply pres_modify, evolves_emit. Qed.

Lemma keeps_runPluginHook_loop hook plugins result args st :
  keeps (runPluginHook_loop hook plugins result args) st.
Proof.
  revert result st. induction plugins as [|[k plugin] plugins IH]; intros result st;
    cbn [runPluginHook_loop].
  - keep_step.
  - destruct (get_hook hook plugin) as [hookFn|]; [|apply IH].
    keep_step; [keep_step|]. keep_step; [by apply keeps_emit|].
    keep_step; [keep_step|]. apply IH.
Qed.

Lemma keeps_runPluginHook hook value args st :
  keeps (runPluginHook hook value args) st.
Proof.
  unfold runPluginHook. keep_step; [keep_step|]. apply keeps_runPluginHook_loop.
Qed.

Lemma keeps_runMiddleware_loop phase timestamp middlewares result reactive st :
  keeps (runMiddleware_loop phase timestamp middlewares result reactive) st.
Proof.
  revert result st. induction middlewares as [|middleware middlewares IH];
    intros result st; cbn [runMiddleware_loop].
  - keep_step.
  - destruct (middleware_handler phase middleware) as [handler|]; [|apply IH].
    keep_step; [keep_step|]. keep_step; [by apply keeps_emit|].
    keep_step; [keep_step|]. apply IH.
Qed.

Lemma keeps_runMiddleware phase value reactive st :
  keeps (runMiddleware phase value reactive) st.
Proof.
  unfold runMiddleware. keep_step; [keep_step|]. keep_step; [keep_step|].
  apply keeps_runMiddleware_loop.
Qed.

Lemma keeps_handleError_plugins plugins error reactive phase st :
  keeps (handleError_plugins plugins error reactive phase) st.
Proof.
  revert st. induction plugins as [|[k plugin] plugins IH]; intros st;
    cbn [handleError_plugins].
  - keep_step.
  - keep_step; [|apply IH].
    destruct (Plugin.handleError plugin) as [handler|].
    + keep_step; [keep_step|]. keep_step; [by apply keeps_emit|]. keep_step.
    + keep_step. keep_step.
Qed.

Lemma keeps_handleError_middleware middlewares error reactive st :
  keeps (handleError_middleware middlewares error reactive) st.
Proof.
  revert st. induction middlewares as [|middleware middlewares IH]; intros st;
    cbn [handleError_middleware].
  - keep_step.
  - keep_step; [|apply IH].
    destruct (Middleware.error middleware) as [handler|].
    + keep_step; [keep_step|]. keep_step; [by apply keeps_emit|]. keep_step.
    + keep_step. keep_step.
Qed.

Lemma keeps_handleError error reactive phase st :
  keeps (handleError error reactive phase) st.
Proof.
  unfold handleError.
  keep_step; [apply pres_modify, evolves_update_object, same_node_mark_error|].
  keep_step; [keep_step|]. keep_step; [apply keeps_handleError_plugins|].
  keep_step; [keep_step|]. keep_step; [apply keeps_handleError_middleware|].
  keep_step.
Qed.

Lemma keeps_notifyDependents_loop set_rec n visited queue st :
  (∀ r v st', keeps (set_rec r v) st') →
  keeps (notifyDependents_loop set_rec n visited queue) st.
Proof.
  intros Hset. revert visited queue st.
  induction n as [|n IH]; intros visited [|dependentId queue] st;
    cbn [notifyDependents_loop]; try keep_step.
  destruct (decide (dependentId ∈ visited)); [apply IH|].
  keep_step; [keep_step|].
  destruct a as [d|]; [|apply IH].
  keep_step; [keep_step|]. keep_step.
  - destruct (from_option Reactive.has_set false a); [|keep_step].
    keep_step. apply Hset.
  - keep_step; [keep_step|]. apply IH.
Qed.

Lemma keeps_notifyDependents set_rec n reactive st :
  (∀ r v st', keeps (set_rec r v) st') →
  keeps (notifyDependents set_rec n reactive) st.
Proof.
  intros Hset. unfold notifyDependents. keep_step; [keep_step|].
  by apply keeps_notifyDependents_loop.
Qed.

Lemma keeps_updateReactiveValue set_rec n reactive newValue st :
  (∀ r v st', keeps (set_rec r v) st') →
  keeps (updateReactiveValue set_rec n reactive newValue) st.
Proof.
  intros Hset. unfold updateReactiveValue. keep_step; [keep_step|].
  injection H as <- <-.
  destruct (batching st) eqn:Hb; [by apply pres_modify, evolves_enqueue|].
  keep_step; [keep_step; apply keeps_runPluginHook|].
  keep_step; [apply pres_modify, evolves_update_object, same_node_write_value|].
  keep_step; [keep_step|].
  keep_step.
  { destruct a1; [apply pres_modify, evolves_updateHistory|keep_step]. }
  keep_step; [keep_step; by apply keeps_notifyDependents|].
  keep_step; [keep_step; apply keeps_runPluginHook|]. keep_step.
Qed.

(** An update changes values, metadata, histories and the trace of calls;
    it leaves the registry, the edges, the subscriber table and an empty
    pending map as they are. *)
Lemma keeps_set_ fuel reactive newValue st : keeps (set_ fuel reactive newValue) st.
Proof.
  revert reactive newValue st.
  induction fuel as [|fuel IH]; intros reactive newValue st; cbn [set_].
  - keep_step.
  - apply pres_catch; [apply evolves_trans| |intros e st' _ _].
    + keep_step; [keep_step; apply keeps_runMiddleware|].
      keep_step; [keep_step; by apply keeps_updateReactiveValue|].
      keep_step; [keep_step|].
      keep_step; [keep_step; apply keeps_runMiddleware|]. keep_step.
    + keep_step. apply keeps_handleError.
Qed.

Lemma set_evolves fuel reactive newValue st st' outcome :
  run (set_ fuel reactive newValue) st = (st', outcome) → evolves st st'.
Proof.
  intros H. pose proof (keeps_set_ fuel reactive newValue st) as K.
  unfold pres in K. by rewrite H in K.
Qed.

(** ** The sequential reading of [set] *)

Lemma run_bind_and_then {A B : Type} (t : Task A) (f : A → Task B) st :
  run (t ≫= f) st = and_then (run t st) (λ st' a, run (f a) st').
Proof. rewrite run_bind. by destruct (run t st) as [st' [a|e|]]. Qed.

Lemma run_updateReactiveValue set_rec n reactive newValue st :
  run (updateReactiveValue set_rec n reactive newValue) st =
  if batching st then (enqueue reactive newValue st, Resolved tt)
  else
    and_then (run (runPluginHook BeforeUpdate newValue [value_of reactive st]) st)
      (λ st1 processedValue,
         and_then (run (notifyDependents set_rec n reactive)
                     (commit reactive (value_of reactive st) processedValue st1))
           (λ st2 _,
              and_then (run (runPluginHook AfterUpdate processedValue []) st2)
                (λ st3 _, (st3, Resolved tt)))).
Proof.
  unfold updateReactiveValue. rewrite run_bind_and_then, run_gets. cbn [and_then].
  destruct (batching st); [reflexivity|].
  rewrite run_bind_and_then, run_await.
  destruct (run (runPluginHook _ _ _) st) as [st1 [pv|e|]]; cbn [and_then]; try done.
  rewrite run_bind_and_then, run_modify. cbn [and_then].
  rewrite run_bind_and_then, run_gets. cbn [and_then].
  rewrite run_bind_and_then. unfold commit.
  destruct (Options.enableHistory _); rewrite ?run_modify; cbn [run and_then];
    rewrite run_bind_and_then, run_await;
    (destruct (run (notifyDependents _ _ _) _) as [st2 [[]|e|]]; cbn [and_then]; try done);
    rewrite run_bind_and_then, run_await;
    by destruct (run (runPluginHook _ _ _) st2) as [st3 [?|e|]].
Qed.

Lemma run_set_ fuel reactive newValue st :
  run (set_ (S fuel) reactive newValue) st =
  match run (runMiddleware PhaseBefore newValue reactive) st with
  | (st1, Resolved processedValue) =>
      or_handle reactive
        (run (updateReactiveValue (set_ fuel) fuel reactive processedValue) st1)
        (λ st2,
           match run (runMiddleware PhaseAfter (value_of reactive st2) reactive) st2 with
           | (st3, Resolved _) => (st3, Resolved tt)
           | (st3, Rejected e) => run (handleError e reactive "update") st3
           | (st3, Pending) => (st3, Pending)
           end)
  | (st1, Rejected e) => run (handleError e reactive "update") st1
  | (st1, Pending) => (st1, Pending)
  end.
Proof.
  cbn [set_]. rewrite run_catch, run_bind, run_await.
  destruct (run (runMiddleware PhaseBefore _ _) st) as [st1 [pv|e|]];
    rewrite ?run_await; try done.
  rewrite run_bind, run_await. unfold or_handle.
  destruct (run (updateReactiveValue _ _ _ _) st1) as [st2 [[]|e|]];
    rewrite ?run_await; try done.
  rewrite run_bind, run_gets, run_bind, run_await.
  destruct (run (runMiddleware PhaseAfter _ _) st2) as [st3 [?|e|]];
    rewrite ?run_await; done.
Qed.

(** ** Hook and middleware pipelines only add to the trace *)

(** Reading a field of an updated state. *)
Ltac fields :=
  cbn [System.heap System.reactives System.plugins System.middleware
       System.history System.batchQueue System.subscriptions System.options
       System.trace System.now System.uuids System.drawn
       System.with_heap System.with_reactives System.with_history
       System.with_batchQueue System.with_subscriptions System.with_trace
       System.with_drawn traced update_object] in *.

Lemma traced_nil st : traced [] st = st.
Proof. destruct st. unfold traced. simpl. by rewrite app_nil_r. Qed.

Lemma traced_traced evs1 evs2 st :
  traced evs2 (traced evs1 st) = traced (evs1 ++ evs2) st.
Proof. unfold traced. simpl. by rewrite app_assoc. Qed.

Section Logs.
Variable P : Event → Prop.

Lemma logs_refl st : logs P st st.
Proof. exists []. by rewrite traced_nil. Qed.

Lemma logs_trans st1 st2 st3 : logs P st1 st2 → logs P st2 st3 → logs P st1 st3.
Proof.
  intros (evs1 & -> & H1) (evs2 & -> & H2). exists (evs1 ++ evs2).
  rewrite traced_traced. split; [done|]. by apply Forall_app.
Qed.

Lemma logs_emit ev st : P ev → pres (logs P) (emit ev) st.
Proof. intros. apply pres_modify. exists [ev]. split; [done|]. by constructor. Qed.
End Logs.

Local Ltac log_step :=
  lazymatch goal with
  | |- pres _ (mbind _ _) _ =>
      apply pres_bind; [apply logs_trans| |intros ? ? ? ?]
  | |- pres _ (Ret _) _ => apply pres_ret; apply logs_refl
  | |- pres _ (Throw _) _ => apply pres_throw; apply logs_refl
  | |- pres _ (gets _) _ => apply pres_gets; apply logs_refl
  | |- pres _ (await_value _) _ => apply pres_await_value; apply logs_refl
  | |- pres _ (emit _) _ => apply logs_emit
  | |- pres _ (await _) _ => apply pres_await
  | |- pres _ (Yield _) _ => apply pres_yield
  end.

Lemma runPluginHook_logs hook value args st :
  pres (logs (hook_event hook)) (runPluginHook hook value args) st.
Proof.
  unfold runPluginHook. log_step; [log_step|]. clear. revert value st'.
  induction a as [|[k plugin] plugins IH]; intros result st; cbn [runPluginHook_loop].
  - log_step.
  - destruct (get_hook hook plugin) as [hookFn|]; [|apply IH].
    log_step; [log_step|]. log_step; [log_step; by eexists _, _|].
    log_step; [log_step|]. apply IH.
Qed.

Lemma runMiddleware_logs phase value reactive st :
  pres (logs (middleware_event phase)) (runMiddleware phase value reactive) st.
Proof.
  unfold runMiddleware. log_step; [log_step|]. log_step; [log_step|].
  clear. revert value st'0.
  induction a0 as [|middleware middlewares IH]; intros result st;
    cbn [runMiddleware_loop].
  - log_step.
  - destruct (middleware_handler phase middleware) as [handler|]; [|apply IH].
    log_step; [log_step|]. log_step; [log_step; by eexists _, _|].
    log_step; [log_step|]. apply IH.
Qed.

Lemma handleError_plugins_logs plugins error reactive phase st :
  pres (logs (error_event error)) (handleError_plugins plugins error reactive phase) st.
Proof.
  revert st. induction plugins as [|[k plugin] plugins IH]; intros st;
    cbn [handleError_plugins].
  - log_step.
  - log_step; [|apply IH].
    destruct (Plugin.handleError plugin) as [handler|].
    + log_step; [log_step|]. log_step; [|log_step].
      log_step. left. by eexists.
    + log_step. log_step.
Qed.

Lemma handleError_middleware_logs middlewares error reactive st :
  pres (logs (error_event error)) (handleError_middleware middlewares error reactive) st.
Proof.
  revert st. induction middlewares as [|middleware middlewares IH]; intros st;
    cbn [handleError_middleware].
  - log_step.
  - log_step; [|apply IH].
    destruct (Middleware.error middleware) as [handler|].
    + log_step; [log_step|]. log_step; [|log_step].
      log_step. right. by eexists.
    + log_step. log_step.
Qed.

(** ** Computations that always settle *)

Lemma settles_bind {A B : Type} (t : Task A) (f : A → Task B) st :
  settles t st →
  (∀ a st', run t st = (st', Resolved a) → settles (f a) st') →
  settles (t ≫= f) st.
Proof.
  unfold settles. intros Ht Hf. rewrite run_bind.
  destruct (run t st) as [st' [a|e|]] eqn:E; simpl in *; auto.
Qed.

Lemma settles_await_value {A : Type} (r : Result A) st : settles (await_value r) st.
Proof. unfold settles. rewrite run_await_value. by destruct r. Qed.

Lemma settles_runPluginHook hook value args st :
  settles (runPluginHook hook value args) st.
Proof.
  unfold runPluginHook. apply settles_bind; [done|]. intros plugins st' _. clear st.
  revert value st'.
  induction plugins as [|[k plugin] plugins IH]; intros result st;
    cbn [runPluginHook_loop]; [done|].
  destruct (get_hook hook plugin) as [hookFn|]; [|apply IH].
  apply settles_bind; [done|]. intros ? ? _.
  apply settles_bind; [done|]. intros ? ? _.
  apply settles_bind; [apply settles_await_value|]. intros ? ? _. apply IH.
Qed.

Lemma settles_runMiddleware phase value reactive st :
  settles (runMiddleware phase value reactive) st.
Proof.
  unfold runMiddleware. apply settles_bind; [done|]. intros timestamp st' _.
  apply settles_bind; [done|]. intros middlewares st'' _. clear.
  revert value st''.
  induction middlewares as [|middleware middlewares IH]; intros result st;
    cbn [runMiddleware_loop]; [done|].
  destruct (middleware_handler phase middleware) as [handler|]; [|apply IH].
  apply settles_bind; [done|]. intros ? ? _.
  apply settles_bind; [done|]. intros ? ? _.
  apply settles_bind; [apply settles_await_value|]. intros ? ? _. apply IH.
Qed.

(** ** The error path *)

Lemma plugin_error_calls_cons error k plugin plugins :
  plugin_error_calls error ((k, plugin) :: plugins) =
  match Plugin.handleError plugin with
  | Some _ => [HandleErrorCalled (Plugin.name plugin) error]
  | None => []
  end ++ plugin_error_calls error plugins.
Proof.
  unfold plugin_error_calls. simpl. by destruct (Plugin.handleError plugin).
Qed.

Lemma middleware_error_calls_cons error middleware middlewares :
  middleware_error_calls error (middleware :: middlewares) =
  match Middleware.error middleware with
  | Some _ => [MiddlewareErrorCalled (Middleware.name middleware) error]
  | None => []
  end ++ middleware_error_calls error middlewares.
Proof.
  unfold middleware_error_calls. simpl. by destruct (Middleware.error middleware).
Qed.

Lemma run_handleError_plugins_app pre rest error reactive phase st :
  Forall (plugin_quiet (System.heap st) error
            (ErrorContext.Build phase (type_of reactive st))) pre →
  run (handleError_plugins (pre ++ rest) error reactive phase) st =
  run (handleError_plugins rest error reactive phase)
    (traced (plugin_error_calls error pre) st).
Proof.
  revert st. induction pre as [|[k plugin] pre IH]; intros st Hq.
  - by rewrite traced_nil.
  - apply Forall_cons in Hq as [Hp Hq]. cbn [app handleError_plugins].
    rewrite run_bind, plugin_error_calls_cons. unfold plugin_quiet in Hp.
    cbn [snd] in *. destruct (Plugin.handleError plugin) as [handler|].
    + rewrite run_bind, run_gets, run_bind, run_emit, run_await_value.
      rewrite (Hp handler eq_refl). rewrite IH; [|exact Hq].
      by rewrite traced_traced.
    + cbn [run]. by rewrite IH.
Qed.

Lemma run_handleError_plugins_quiet plugins error reactive phase st :
  Forall (plugin_quiet (System.heap st) error
            (ErrorContext.Build phase (type_of reactive st))) plugins →
  run (handleError_plugins plugins error reactive phase) st =
  (traced (plugin_error_calls error plugins) st, Resolved tt).
Proof.
  intros Hq. rewrite <-(app_nil_r plugins) at 1.
  by rewrite run_handleError_plugins_app.
Qed.

Lemma run_handleError_middleware_quiet middlewares error reactive st :
  Forall (middleware_quiet (System.heap st) error
            (MiddlewareContext.Build reactive PhaseError (System.now st))) middlewares →
  run (handleError_middleware middlewares error reactive) st =
  (traced (middleware_error_calls error middlewares) st, Resolved tt).
Proof.
  revert st. induction middlewares as [|middleware middlewares IH]; intros st Hq.
  - by rewrite traced_nil.
  - apply Forall_cons in Hq as [Hm Hq]. cbn [handleError_middleware].
    rewrite run_bind, middleware_error_calls_cons.
    unfold middleware_quiet in Hm.
    destruct (Middleware.error middleware) as [handler|].
    + rewrite run_bind, run_gets, run_bind, run_emit, run_await_value.
      rewrite (Hm handler eq_refl). rewrite IH; [|exact Hq].
      by rewrite traced_traced.
    + cbn [run]. by rewrite IH.
Qed.

Lemma settles_handleError_plugins plugins error reactive phase st :
  settles (handleError_plugins plugins error reactive phase) st.
Proof.
  revert st. induction plugins as [|[k plugin] plugins IH]; intros st;
    cbn [handleError_plugins]; [done|].
  apply settles_bind; [|intros; apply IH].
  destruct (Plugin.handleError plugin) as [handler|]; [|done].
  apply settles_bind; [done|]. intros ? ? _.
  apply settles_bind; [done|]. intros ? ? _. apply settles_await_value.
Qed.

Lemma settles_handleError_middleware middlewares error reactive st :
  settles (handleError_middleware middlewares error reactive) st.
Proof.
  revert st. induction middlewares as [|middleware middlewares IH]; intros st;
    cbn [handleError_middleware]; [done|].
  apply settles_bind; [|intros; apply IH].
  destruct (Middleware.error middleware) as [handler|]; [|done].
  apply settles_bind; [done|]. intros ? ? _.
  apply settles_bind; [done|]. intros ? ? _. apply settles_await_value.
Qed.

(** [handleError] marks the reactive, calls handlers and always throws:
    the error it was given when every handler returns. *)
Lemma run_handleError error reactive phase st :
  ∃ evs e',
    run (handleError error reactive phase) st =
    (traced evs (update_object reactive (mark_error error) st), Rejected e')
    ∧ Forall (error_event error) evs.
Proof.
  unfold handleError. rewrite run_bind, run_modify, run_bind, run_gets, run_bind.
  set (st0 := update_object reactive (mark_error error) st).
  pose proof (handleError_plugins_logs (System.plugins st0) error reactive phase st0)
    as (evs1 & E1 & F1).
  pose proof (settles_handleError_plugins (System.plugins st0) error reactive phase st0)
    as S1.
  unfold settles in S1.
  destruct (run (handleError_plugins _ _ _ _) st0) as [st1 [[]|e1|]];
    simpl in E1, S1; subst st1; [|by eexists _, _|done].
  rewrite run_bind, run_gets, run_bind.
  set (st1 := traced evs1 st0).
  pose proof (handleError_middleware_logs (System.middleware st1) error reactive st1)
    as (evs2 & E2 & F2).
  pose proof (settles_handleError_middleware (System.middleware st1) error reactive st1)
    as S2.
  unfold settles in S2.
  destruct (run (handleError_middleware _ _ _) st1) as [st2 [[]|e2|]];
    simpl in E2, S2; subst st2; [| |done].
  - exists (evs1 ++ evs2), error. unfold st1. rewrite traced_traced.
    split; [done|]. by apply Forall_app.
  - exists (evs1 ++ evs2), e2. unfold st1. rewrite traced_traced.
    split; [done|]. by apply Forall_app.
Qed.

Lemma run_handleError_quiet error reactive phase st :
  handlers_quiet st →
  run (handleError error reactive phase) st =
  (traced (plugin_error_calls error (System.plugins st)
           ++ middleware_error_calls error (System.middleware st))
     (update_object reactive (mark_error error) st), Rejected error).
Proof.
  intros [Hp Hm]. unfold handleError.
  rewrite run_bind, run_modify, run_bind, run_gets, run_bind.
  rewrite run_handleError_plugins_quiet.
  2:{ apply Forall_forall. intros entry Hin handler Hh. by eapply Hp. }
  rewrite run_bind, run_gets, run_bind, run_handleError_middleware_quiet.
  2:{ apply Forall_forall. intros m Hin handler Hh. by eapply Hm. }
  cbn [run]. by rewrite traced_traced.
Qed.

(** ** Creation *)

Lemma run_create config st :
  run (create config) st =
  and_then (run (runPluginHook BeforeCreate (config_value config) []) st)
    (λ st1 processedConfig,
       and_then (run (createReactive processedConfig) st1)
         (λ st2 reactive,
            and_then (run (runPluginHook AfterCreate (VReactive reactive) []) st2)
              (λ st3 _, (st3, Resolved reactive)))).
Proof.
  unfold create. rewrite run_bind_and_then, run_await.
  destruct (run (runPluginHook BeforeCreate _ _) st) as [st1 [pc|e|]]; cbn [and_then]; try done.
  rewrite run_bind_and_then, run_await.
  destruct (run (createReactive pc) st1) as [st2 [r|e|]]; cbn [and_then]; try done.
  rewrite run_bind_and_then, run_await.
  by destruct (run (runPluginHook AfterCreate _ _) st2) as [st3 [?|e|]].
Qed.

Lemma run_createReactive id type initialValue dependencies st :
  run (createReactive (VConfig id type initialValue dependencies)) st =
  let st1 := (choose_id id st).2 in
  let R := new_reactive (choose_id id st).1 type initialValue dependencies (System.now st) in
  (System.with_reactives
     (<[Reactive.id R := List.length (System.heap st)]> (System.reactives st))
     (System.with_heap (System.heap st ++ [R]) st1),
   Resolved (List.length (System.heap st))).
Proof.
  cbn [createReactive run]. unfold choose_id, randomUUID.
  destruct id as [s|]; [destruct (decide (s = ""))|];
    cbn [alloc run fst snd]; unfold registerReactive, deref;
    cbn [System.heap System.with_heap System.with_drawn];
    by rewrite list_lookup_middle.
Qed.

Lemma choose_id_frame id st :
  System.heap (choose_id id st).2 = System.heap st
  ∧ System.reactives (choose_id id st).2 = System.reactives st
  ∧ System.history (choose_id id st).2 = System.history st
  ∧ System.subscriptions (choose_id id st).2 = System.subscriptions st
  ∧ System.trace (choose_id id st).2 = System.trace st
  ∧ System.options (choose_id id st).2 = System.options st
  ∧ System.batchQueue (choose_id id st).2 = System.batchQueue st.
Proof.
  unfold choose_id, randomUUID.
  destruct id as [s|]; [destruct (decide (s = ""))|]; done.
Qed.

(** Everything [create] does when it resolves: one object appended to the
    store, one registry entry written, [beforeCreate] and [afterCreate]
    hooks called. *)
Lemma create_resolved config st st' r :
  run (create config) st = (st', Resolved r) →
  ∃ cid type initialValue dependencies st1 evs,
    run (runPluginHook BeforeCreate (config_value config) []) st =
      (st1, Resolved (VConfig cid type initialValue dependencies))
    ∧ r = List.length (System.heap st)
    ∧ System.heap st' =
        System.heap st ++
          [new_reactive (choose_id cid st1).1 type initialValue dependencies (System.now st)]
    ∧ System.reactives st' = <[(choose_id cid st1).1 := r]> (System.reactives st)
    ∧ System.history st' = System.history st
    ∧ System.subscriptions st' = System.subscriptions st
    ∧ System.options st' = System.options st
    ∧ System.batchQueue st' = System.batchQueue st
    ∧ System.trace st' = System.trace st ++ evs
    ∧ Forall (λ ev, hook_event BeforeCreate ev ∨ hook_event AfterCreate ev) evs.
Proof.
  rewrite run_create.
  pose proof (runPluginHook_logs BeforeCreate (config_value config) [] st)
    as (evs1 & E1 & F1).
  destruct (run (runPluginHook BeforeCreate _ _) st) as [st1 [pc|e|]] eqn:Hb;
    cbn [and_then]; try done.
  simpl in E1. subst st1.
  destruct pc as [| | | | |cid type initialValue dependencies|]; try done.
  rewrite run_createReactive. cbn zeta. cbn [and_then].
  match goal with |- context [run (runPluginHook AfterCreate ?v ?a) ?s] =>
    pose proof (runPluginHook_logs AfterCreate v a s) as (evs2 & E2 & F2);
    destruct (run (runPluginHook AfterCreate v a) s) as [st3 [?|e|]] eqn:Ha
  end; cbn [and_then]; try done.
  simpl in E2. intros [= <- <-].
  destruct (choose_id_frame cid (traced evs1 st)) as (Hh & Hr & Hy & Hs & Ht & Ho & Hq).
  exists cid, type, initialValue, dependencies, (traced evs1 st), (evs1 ++ evs2).
  rewrite E2. fields. rewrite ?Hh, ?Hr, ?Hy, ?Hs, ?Ht, ?Ho, ?Hq.
  repeat split; try done.
  - by rewrite app_assoc.
  - apply Forall_app. split; eapply Forall_impl; eauto.
Qed.

(** ** Dependents (C1) *)

Lemma removeReactive_heap id st : System.heap (removeReactive id st) = System.heap st.
Proof.
  unfold removeReactive. destruct (getReactive id st) as [r|]; [|done].
  pose proof (runPluginHook_logs BeforeDestroy (VReactive r) [] st) as (evs & E & _).
  fields. by rewrite E.
Qed.

(** C1, as the code has it: [create] records the dependencies on the new
    reactive only.  The new reactive starts with an empty dependents set,
    every object already in the store is left exactly as it was (so no
    dependency gains the new id as a dependent), and [removeReactive]
    changes no object either: edges are neither added at creation nor
    removed at destruction. *)
Theorem create_leaves_dependents_alone config st st' r :
  run (create config) st = (st', Resolved r) →
  (∃ R cid type initialValue dependencies st1,
      deref r st' = Some R
      ∧ run (runPluginHook BeforeCreate (config_value config) []) st =
          (st1, Resolved (VConfig cid type initialValue dependencies))
      ∧ Reactive.dependencies R = set_of_array (default [] dependencies)
      ∧ Reactive.dependents R = [])
  ∧ (∀ r' obj, deref r' st = Some obj → deref r' st' = Some obj)
  ∧ (∀ id, System.heap (removeReactive id st') = System.heap st'
           ∧ getReactive id (removeReactive id st') = None).
Proof.
  intros Hrun.
  destruct (create_resolved _ _ _ _ Hrun)
    as (cid & type & v & deps & st1 & evs & Hb & -> & Hh & _).
  repeat split.
  - eexists _, cid, type, v, deps, st1. unfold deref. rewrite Hh.
    rewrite list_lookup_middle by done. by repeat split.
  - intros r' obj Hobj. unfold deref in *. rewrite Hh.
    by apply lookup_app_l_Some.
  - apply removeReactive_heap.
  - unfold removeReactive, getReactive.
    destruct (System.reactives st' !! id) as [x|] eqn:E; [|done].
    fields. apply lookup_delete_eq.
Qed.

Lemma create_leaves_dependents_alone_witness :
  (∃ R cid type initialValue dependencies st1,
      deref 1 system_A_R = Some R
      ∧ run (runPluginHook BeforeCreate
               (config_value (config_of "R" "state" (VNum 0) (Some ["A"]))) [])
            system_A =
          (st1, Resolved (VConfig cid type initialValue dependencies))
      ∧ Reactive.dependencies R = set_of_array (default [] dependencies)
      ∧ Reactive.dependents R = [])
  ∧ (∀ r' obj, deref r' system_A = Some obj → deref r' system_A_R = Some obj)
  ∧ (∀ id, System.heap (removeReactive id system_A_R) = System.heap system_A_R
           ∧ getReactive id (removeReactive id system_A_R) = None).
Proof.
  apply (create_leaves_dependents_alone
           (config_of "R" "state" (VNum 0) (Some ["A"])) system_A system_A_R 1).
  vm_compute. reflexivity.
Defined.

(** C1 fails as stated: [R] is created with [A] as a dependency and [A]
    is registered, yet [A.dependents] stays empty; and a dependents set that
    names [R] still names it after [removeReactive("R")]. *)
Lemma dependents_not_wired :
  ¬ dependents_wired system_A_R 1 ∧ ¬ dependents_cleared restored_R_removed "R".
Proof.
  split.
  - intros H.
    specialize (H (new_reactive "R" "state" (VNum 0) (Some ["A"]) 0) "A" 0%nat
                  (new_reactive "A" "state" (VNum 0) None 0)).
    assert (Hin : "R" ∈ @nil string); [|by inversion Hin].
    apply H; [by vm_compute|apply list_elem_of_here|by vm_compute|by vm_compute].
  - intros H.
    apply (H "A" 0%nat
             (Reactive.Build "A" (VNum 0) false
                (ReactiveMetadata.Build "persisted" 0 None 0 Status.idle None [])
                [] ["R"])); [by vm_compute|by vm_compute|apply list_elem_of_here].
Qed.

(** ** Creating under an id that is taken (C10) *)

Lemma run_runPluginHook_loop_absent hook plugins value args st :
  Forall (λ entry : string * Plugin.t, get_hook hook entry.2 = None) plugins →
  run (runPluginHook_loop hook plugins value args) st = (st, Resolved value).
Proof.
  induction 1 as [|[k p] ps Hk _ IH]; cbn [runPluginHook_loop]; [done|].
  cbn [snd] in Hk. by rewrite Hk.
Qed.

(** C10: when the id that [create] ends up with is already registered,
    the registry entry is overwritten with the new reactive, which is the
    object built from the config; the replaced object is left as it was,
    the history log and the subscriber set kept under that id are
    untouched and no [beforeDestroy] hook is called.  The duplicate raises
    nothing: the call ends as the [afterCreate] pipeline ends that is run
    on the new reactive, so it resolves with the new handle unless one of
    these hooks throws, and always does when no plugin has the hook. *)
Theorem create_replaces_silently config st st1 cid type v deps old O st' outcome :
  run (runPluginHook BeforeCreate (config_value config) []) st =
    (st1, Resolved (VConfig cid type v deps)) →
  getReactive (choose_id cid st1).1 st = Some old →
  deref old st = Some O →
  run (create config) st = (st', outcome) →
  getReactive (choose_id cid st1).1 st' = Some (List.length (System.heap st))
  ∧ List.length (System.heap st) ≠ old
  ∧ deref (List.length (System.heap st)) st'
    = Some (new_reactive (choose_id cid st1).1 type v deps (System.now st))
  ∧ deref old st' = Some O
  ∧ System.history st' = System.history st
  ∧ System.subscriptions st' = System.subscriptions st
  ∧ (∃ evs, System.trace st' = System.trace st ++ evs
            ∧ Forall (λ ev, ¬ hook_event BeforeDestroy ev) evs)
  ∧ outcome
    = match (run (runPluginHook AfterCreate (VReactive (List.length (System.heap st))) [])
               (run (createReactive (VConfig cid type v deps)) st1).1).2 with
      | Resolved _ => Resolved (List.length (System.heap st))
      | Rejected e => Rejected e
      | Pending => Pending
      end
  ∧ (Forall (λ entry, Plugin.afterCreate entry.2 = None) (System.plugins st) →
     outcome = Resolved (List.length (System.heap st))).
Proof.
  intros Hb Hold HO Hc. rewrite run_create, Hb in Hc. cbn [and_then] in Hc.
  pose proof (runPluginHook_logs BeforeCreate (config_value config) [] st)
    as (evs1 & E1 & F1).
  rewrite Hb in E1. simpl in E1. subst st1.
  rewrite run_createReactive in Hc |- *. cbn zeta in Hc |- *.
  cbn [and_then fst] in Hc |- *.
  destruct (choose_id_frame cid (traced evs1 st)) as (Hh & Hr & Hy & Hs & Ht & Ho & Hq).
  assert (Hp : System.plugins (choose_id cid (traced evs1 st)).2 = System.plugins st).
  { unfold choose_id, randomUUID.
    by destruct cid as [c|]; [destruct (decide (c = ""))|]. }
  set (id := (choose_id cid (traced evs1 st)).1) in *.
  set (st0 := (choose_id cid (traced evs1 st)).2) in *.
  fields.
  set (r := List.length (System.heap st)) in *.
  set (st2 := System.with_reactives _ _) in *.
  pose proof (runPluginHook_logs AfterCreate (VReactive r) [] st2) as (evs2 & E2 & F2).
  pose proof (settles_runPluginHook AfterCreate (VReactive r) [] st2) as S2.
  assert (Hnone : Forall (λ entry : string * Plugin.t, Plugin.afterCreate entry.2 = None)
                    (System.plugins st) →
                  (run (runPluginHook AfterCreate (VReactive r) []) st2).2
                  = Resolved (VReactive r)).
  { intros Hall. unfold runPluginHook. rewrite run_bind, run_gets.
    assert (System.plugins st2 = System.plugins st) as -> by (subst st2; by fields).
    by rewrite run_runPluginHook_loop_absent. }
  unfold settles in S2.
  destruct (run (runPluginHook AfterCreate (VReactive r) []) st2) as [st3 o3] eqn:Ha.
  cbn [fst snd] in E2, S2, Hnone |- *. subst st3.
  assert (st' = traced evs2 st2
          ∧ outcome = match o3 with
                      | Resolved _ => Resolved r
                      | Rejected e => Rejected e
                      | Pending => Pending
                      end) as [-> ->].
  { by destruct o3; cbn [and_then] in Hc; injection Hc as <- <-. }
  apply lookup_lt_Some in HO as Hlt.
  unfold getReactive, deref in *. subst st2. fields. rewrite ?Hh, ?Hr, ?Hy, ?Hs, ?Ht.
  fields.
  split; [apply lookup_insert_eq|].
  split; [subst r; lia|].
  split; [by apply list_lookup_middle|].
  split; [by apply lookup_app_l_Some|].
  do 2 (split; [done|]).
  split.
  { exists (evs1 ++ evs2). split; [by rewrite app_assoc|].
    apply Forall_app; split; eapply Forall_impl; eauto;
      intros ev (p & a' & ->) (p' & a'' & [=]). }
  split; [done|]. intros Hall. by rewrite (Hnone Hall).
Qed.

Lemma create_replaces_silently_witness :
  getReactive "A" system_A_A = Some 1%nat
  ∧ 1%nat ≠ 0%nat
  ∧ deref 1 system_A_A = Some (new_reactive "A" "state" (VNum 7) None 0)
  ∧ deref 0 system_A_A = Some (new_reactive "A" "state" (VNum 0) None 0)
  ∧ System.history system_A_A = System.history system_A
  ∧ System.subscriptions system_A_A = System.subscriptions system_A
  ∧ (∃ evs, System.trace system_A_A = System.trace system_A ++ evs
            ∧ Forall (λ ev, ¬ hook_event BeforeDestroy ev) evs)
  ∧ Resolved 1%nat
    = match (run (runPluginHook AfterCreate (VReactive 1%nat) [])
               (run (createReactive (VConfig (Some "A") "state" (VNum 7) None))
                  system_A).1).2 with
      | Resolved _ => Resolved 1%nat
      | Rejected e => Rejected e
      | Pending => Pending
      end
  ∧ (Forall (λ entry, Plugin.afterCreate entry.2 = None) (System.plugins system_A) →
     Resolved 1%nat = Resolved 1%nat).
Proof.
  apply (create_replaces_silently (config_of "A" "state" (VNum 7) None) system_A
           system_A (Some "A") "state" (VNum 7) None 0
           (new_reactive "A" "state" (VNum 0) None 0) system_A_A (Resolved 1%nat)).
  - vm_compute. reflexivity.
  - vm_compute. reflexivity.
  - vm_compute. reflexivity.
  - vm_compute. reflexivity.
Defined.

(** ** Subscriptions (C5) *)

Lemma set_add_elem {A : Type} `{EqDecision A} (x : A) (s : list A) : x ∈ set_add x s.
Proof.
  unfold set_add. destruct (decide (x ∈ s)); [done|].
  apply elem_of_app. right. apply list_elem_of_here.
Qed.

Lemma set_delete_elem {A : Type} `{EqDecision A} (x : A) (s : list A) :
  x ∉ set_delete x s.
Proof. unfold set_delete. intros Hin. by apply list_elem_of_filter in Hin as [? _]. Qed.

(** C5, as the code has it: [subscribe] stores the callback in the
    subscriber set of the id and the capability it returns takes it out
    again; an update, whatever its outcome, leaves the subscriber table as
    it is and calls no subscriber: the calls it makes are hook and
    middleware calls only. *)
Theorem subscribers_stored_never_called id callback st fuel reactive newValue :
  (callback ∈ subscribers id (subscribe id callback st))
  ∧ (callback ∉ subscribers id (subscribe_cancel id callback (subscribe id callback st)))
  ∧ System.subscriptions (run (set_ fuel reactive newValue) st).1
    = System.subscriptions st
  ∧ (∃ evs,
        System.trace (run (set_ fuel reactive newValue) st).1 = System.trace st ++ evs
        ∧ ∀ id' callback' arg, SubscriberCalled id' callback' arg ∉ evs).
Proof.
  repeat split.
  - unfold subscribers, subscribe. fields. rewrite lookup_insert_eq. apply set_add_elem.
  - unfold subscribers, subscribe_cancel, subscribe. fields.
    rewrite lookup_insert_eq. fields. rewrite lookup_insert_eq. apply set_delete_elem.
  - destruct (run (set_ fuel reactive newValue) st) as [st' o] eqn:E.
    apply set_evolves in E. apply E.
  - destruct (run (set_ fuel reactive newValue) st) as [st' o] eqn:E.
    apply set_evolves in E. destruct (ev_trace _ _ E) as (evs & Ht & Hf).
    exists evs. split; [done|]. intros id' cb' arg Hin.
    rewrite Forall_forall in Hf. exact (Hf _ Hin).
Qed.

(** C5 fails as stated: the callback is subscribed to [A], [A.set(1)]
    commits the value 1, and the callback has not been called with it. *)
Lemma subscriber_not_notified :
  (0%nat ∈ subscribers "A" system_A_subscribed)
  ∧ system_A_subscribed_set.2 = Resolved tt
  ∧ value_of 0 system_A_subscribed_set.1 = VNum 1
  ∧ (SubscriberCalled "A" 0%nat (VNum 1) ∉ System.trace system_A_subscribed_set.1).
Proof.
  repeat split; try (vm_compute; reflexivity).
  - vm_compute. apply list_elem_of_here.
  - vm_compute. intros H. inversion H.
Qed.

(** ** Plugin error handlers (C7) *)

(** C7, as the code has it: [handleError] calls the plugins' [handleError]
    hooks in the order of the plugin map, for side effect only, and stops
    at the first one that throws.  A plugin [p] whose predecessors'
    handlers all return is called right after them; if its own handler
    throws, no further handler is called and the commit fails with what
    [p]'s handler threw. *)
Theorem handleError_until_first_throw st error reactive phase pre k p post handler :
  System.plugins st = pre ++ (k, p) :: post →
  Forall (plugin_quiet (System.heap (update_object reactive (mark_error error) st)) error
            (ErrorContext.Build phase
               (type_of reactive (update_object reactive (mark_error error) st)))) pre →
  Plugin.handleError p = Some handler →
  ∃ evs outcome,
    run (handleError error reactive phase) st =
      (traced (plugin_error_calls error pre
               ++ HandleErrorCalled (Plugin.name p) error :: evs)
         (update_object reactive (mark_error error) st), outcome)
    ∧ (∀ e', handler (System.heap (update_object reactive (mark_error error) st)) error
               (ErrorContext.Build phase
                  (type_of reactive (update_object reactive (mark_error error) st)))
             = Raise e' →
             evs = [] ∧ outcome = Rejected e').
Proof.
  intros Hps Hpre Hh. unfold handleError.
  rewrite run_bind, run_modify, run_bind, run_gets.
  set (st0 := update_object reactive (mark_error error) st) in *.
  replace (System.plugins st0) with (pre ++ (k, p) :: post) by done.
  rewrite run_bind, run_handleError_plugins_app by exact Hpre.
  cbn [handleError_plugins]. rewrite Hh.
  rewrite run_bind, run_bind, run_gets, run_bind, run_emit, run_await_value.
  rewrite traced_traced. fields.
  set (sta := traced (plugin_error_calls error pre
                      ++ [HandleErrorCalled (Plugin.name p) error]) st0).
  assert (Hsta : ∀ evs, traced evs sta =
                        traced (plugin_error_calls error pre
                                ++ HandleErrorCalled (Plugin.name p) error :: evs) st0).
  { intros evs. unfold sta. by rewrite traced_traced, <-app_assoc. }
  change (type_of reactive (traced (plugin_error_calls error pre) st0))
    with (type_of reactive st0).
  destruct (handler (System.heap st0) error _) as [[]|e'] eqn:Hcall.
  - pose proof (handleError_plugins_logs post error reactive phase sta) as (evs1 & E1 & _).
    destruct (run (handleError_plugins post _ _ _) sta) as [st1 [[]|e1|]];
      simpl in E1; subst st1.
    + rewrite run_bind, run_gets, run_bind.
      pose proof (handleError_middleware_logs (System.middleware (traced evs1 sta))
                    error reactive (traced evs1 sta)) as (evs2 & E2 & _).
      destruct (run (handleError_middleware _ _ _) (traced evs1 sta))
        as [st2 [[]|e2|]]; simpl in E2; subst st2;
        rewrite traced_traced, Hsta; eexists _, _; (split; [reflexivity|done]).
    + rewrite Hsta. eexists _, _. split; [reflexivity|done].
    + rewrite Hsta. eexists _, _. split; [reflexivity|done].
  - exists [], (Rejected e'). rewrite <-Hsta, traced_nil. split; [done|].
    by intros e'' [= <-].
Qed.

Lemma handleError_until_first_throw_witness :
  ∃ evs outcome,
    run (handleError (MkError "Value cannot be null") 0%nat "update") system_two_handlers =
      (traced (plugin_error_calls (MkError "Value cannot be null") []
               ++ HandleErrorCalled "first" (MkError "Value cannot be null") :: evs)
         (update_object 0%nat (mark_error (MkError "Value cannot be null"))
            system_two_handlers), outcome)
    ∧ (∀ e', throwing_handler "first failed"
               (System.heap (update_object 0%nat
                               (mark_error (MkError "Value cannot be null"))
                               system_two_handlers))
               (MkError "Value cannot be null")
               (ErrorContext.Build "update"
                  (type_of 0%nat
                     (update_object 0%nat (mark_error (MkError "Value cannot be null"))
                        system_two_handlers)))
             = Raise e' →
             evs = [] ∧ outcome = Rejected e').
Proof.
  apply (handleError_until_first_throw system_two_handlers
           (MkError "Value cannot be null") 0%nat "update" [] "first"
           (plugin_with_handler "first" (throwing_handler "first failed"))
           [("second", plugin_with_handler "second" returning_handler)]
           (throwing_handler "first failed")).
  - vm_compute. reflexivity.
  - constructor.
  - reflexivity.
Defined.

(** C7 fails as stated: the first plugin's [handleError] throws while the
    failed [A.set(null)] is handled, and the second plugin's [handleError]
    is never called. *)
Lemma later_handler_not_called :
  system_two_handlers_set.2 = Rejected (MkError "first failed")
  ∧ (("second", plugin_with_handler "second" returning_handler)
       ∈ System.plugins system_two_handlers)
  ∧ (HandleErrorCalled "first" (MkError "Value cannot be null")
       ∈ System.trace system_two_handlers_set.1)
  ∧ (∀ e, HandleErrorCalled "second" e ∉ System.trace system_two_handlers_set.1).
Proof.
  assert (System.trace system_two_handlers_set.1 =
          [MiddlewareCalled "validation" PhaseBefore VNull;
           HandleErrorCalled "first" (MkError "Value cannot be null")]) as ->
    by (vm_compute; reflexivity).
  split; [|split; [|split]].
  - vm_compute. reflexivity.
  - vm_compute. apply list_elem_of_further, list_elem_of_here.
  - apply list_elem_of_further, list_elem_of_here.
  - intros e H.
    repeat (apply elem_of_cons in H as [H|H]; [discriminate|]).
    by apply elem_of_nil in H.
Qed.

(** ** Failing updates (C8) *)

Lemma elem_of_middleware_error_calls error middlewares m :
  m ∈ middlewares → is_Some (Middleware.error m) →
  MiddlewareErrorCalled (Middleware.name m) error ∈ middleware_error_calls error middlewares.
Proof.
  intros Hin [h Hh]. unfold middleware_error_calls.
  apply list_elem_of_omap. exists m. split; [done|]. by rewrite Hh.
Qed.

Lemma deref_traced reactive evs st : deref reactive (traced evs st) = deref reactive st.
Proof. reflexivity. Qed.

Lemma deref_update_object reactive f st :
  deref reactive (update_object reactive f st) = f <$> deref reactive st.
Proof. unfold deref. fields. apply list_lookup_alter_eq. Qed.

Lemma evolves_deref st st' reactive obj :
  evolves st st' → deref reactive st = Some obj →
  ∃ obj', deref reactive st' = Some obj' ∧ same_node obj obj'.
Proof. intros E H. eapply Forall2_lookup_l; [apply E|exact H]. Qed.

Lemma handleError_outcome st sti cause reactive obj st' e :
  evolves st sti → deref reactive st = Some obj →
  run (handleError cause reactive "update") sti = (st', Rejected e) →
  ∃ obji,
    deref reactive sti = Some obji
    ∧ deref reactive st' = Some (mark_error cause obji)
    ∧ (handlers_quiet st →
       e = cause
       ∧ ∃ evs, System.trace st' = System.trace st ++ evs
           ∧ ∀ m, m ∈ System.middleware st → is_Some (Middleware.error m) →
                  MiddlewareErrorCalled (Middleware.name m) cause ∈ evs).
Proof.
  intros E Hobj Hrun.
  destruct (evolves_deref _ _ _ _ E Hobj) as (obji & Hobji & _).
  exists obji. split; [done|]. split.
  - destruct (run_handleError cause reactive "update" sti) as (evs & e' & Hr & _).
    rewrite Hr in Hrun. injection Hrun as <- <-.
    by rewrite deref_traced, deref_update_object, Hobji.
  - intros [Hp Hm].
    rewrite run_handleError_quiet in Hrun.
    2:{ split; [rewrite (ev_plugins _ _ E)|rewrite (ev_middleware _ _ E)]; done. }
    injection Hrun as <- <-. split; [done|].
    destruct (ev_trace _ _ E) as (evs0 & Ht & _).
    eexists. fields. rewrite Ht, <-app_assoc. split; [reflexivity|].
    intros m Hin Hsome. rewrite !elem_of_app. right. right.
    rewrite (ev_middleware _ _ E). by apply elem_of_middleware_error_calls.
Qed.

Lemma pres_run {A : Type} (R : System.t → System.t → Prop) (t : Task A) st st' o :
  pres R t st → run t st = (st', o) → R st st'.
Proof. unfold pres. intros H E. by rewrite E in H. Qed.

Lemma runPluginHook_deref hook value args st st' o reactive :
  run (runPluginHook hook value args) st = (st', o) → deref reactive st' = deref reactive st.
Proof.
  intros E. destruct (pres_run _ _ _ _ _ (runPluginHook_logs hook value args st) E)
    as (evs & -> & _). reflexivity.
Qed.

Lemma runMiddleware_deref phase value r st st' o reactive :
  run (runMiddleware phase value r) st = (st', o) → deref reactive st' = deref reactive st.
Proof.
  intros E. destruct (pres_run _ _ _ _ _ (runMiddleware_logs phase value r st) E)
    as (evs & -> & _). reflexivity.
Qed.

(** C8, as the code has it: a [set] call that fails leaves the reactive
    with [meta.status = "error"] and [meta.error] the failure that was
    caught.  When no error handler throws, that failure is what the caller
    of [set] gets and every middleware [error] handler has been called
    with it.  The value is unchanged when the call leaves before the
    write (a [before] middleware or a [beforeUpdate] hook rejected, or the
    update was deferred); nothing is undone after the write. *)
Theorem set_failure fuel reactive newValue st st' e obj :
  deref reactive st = Some obj →
  run (set_ fuel reactive newValue) st = (st', Rejected e) →
  ∃ cause obj',
    deref reactive st' = Some obj'
    ∧ ReactiveMetadata.status (Reactive.meta obj') = Status.error
    ∧ ReactiveMetadata.error (Reactive.meta obj') = Some cause
    ∧ (handlers_quiet st →
       e = cause
       ∧ ∃ evs, System.trace st' = System.trace st ++ evs
           ∧ ∀ m, m ∈ System.middleware st → is_Some (Middleware.error m) →
                  MiddlewareErrorCalled (Middleware.name m) cause ∈ evs)
    ∧ (write_skipped reactive newValue st → Reactive.value obj' = Reactive.value obj).
Proof.
  intros Hobj Hrun. destruct fuel as [|fuel]; [done|].
  rewrite run_set_ in Hrun. unfold write_skipped.
  pose proof (keeps_runMiddleware PhaseBefore newValue reactive st) as K1.
  destruct (run (runMiddleware PhaseBefore _ _) st) as [st1 [pv|e1|]] eqn:E1; [| |done].
  2:{ (* the before middleware rejected *)
    apply (pres_run _ _ _ _ _) with (1 := K1) in E1 as K1'.
    destruct (handleError_outcome _ _ _ _ _ _ _ K1' Hobj Hrun) as (obji & Hi & Hf & Hq).
    rewrite (runMiddleware_deref _ _ _ _ _ _ _ E1), Hobj in Hi. injection Hi as <-.
    exists e1, (mark_error e1 obj). do 3 (split; [done|]). split; [exact Hq|done]. }
  apply (pres_run _ _ _ _ _) with (2 := E1) in K1.
  pose proof (keeps_updateReactiveValue (set_ fuel) fuel reactive pv st1 (keeps_set_ fuel))
    as K2.
  unfold or_handle in Hrun.
  destruct (run (updateReactiveValue _ _ _ _) st1) as [st2 [[]|e2|]] eqn:E2; [| |done].
  2:{ (* the update rejected *)
    apply (pres_run _ _ _ _ _) with (2 := E2) in K2.
    pose proof (evolves_trans _ _ _ K1 K2) as K12.
    destruct (handleError_outcome _ _ _ _ _ _ _ K12 Hobj Hrun) as (obji & Hi & Hf & Hq).
    exists e2, (mark_error e2 obji). do 3 (split; [done|]). split; [exact Hq|].
    intros Hskip. cbn [mark_error Reactive.with_meta Reactive.value]. rewrite run_updateReactiveValue in E2.
    destruct (batching st1); [done|]. destruct Hskip as [?|(st2' & e' & Hhook)]; [done|].
    rewrite Hhook in E2. cbn [and_then] in E2. injection E2 as <- <-.
    rewrite (runPluginHook_deref _ _ _ _ _ _ _ Hhook) in Hi.
    rewrite (runMiddleware_deref _ _ _ _ _ _ _ E1), Hobj in Hi. by injection Hi as <-. }
  apply (pres_run _ _ _ _ _) with (2 := E2) in K2 as K2'.
  pose proof (keeps_runMiddleware PhaseAfter (value_of reactive st2) reactive st2) as K3.
  destruct (run (runMiddleware PhaseAfter _ _) st2) as [st3 [?|e3|]] eqn:E3; [done| |done].
  (* the after middleware rejected *)
  apply (pres_run _ _ _ _ _) with (2 := E3) in K3 as K3'.
  pose proof (evolves_trans _ _ _ (evolves_trans _ _ _ K1 K2') K3') as K123.
  destruct (handleError_outcome _ _ _ _ _ _ _ K123 Hobj Hrun) as (obji & Hi & Hf & Hq).
  exists e3, (mark_error e3 obji). do 3 (split; [done|]). split; [exact Hq|].
  intros Hskip. cbn [mark_error Reactive.with_meta Reactive.value]. rewrite run_updateReactiveValue in E2.
  rewrite (runMiddleware_deref _ _ _ _ _ _ _ E3) in Hi.
  destruct (batching st1).
  - injection E2 as <-.
    change (deref reactive (enqueue reactive pv st1)) with (deref reactive st1) in Hi.
    rewrite (runMiddleware_deref _ _ _ _ _ _ _ E1), Hobj in Hi. by injection Hi as <-.
  - destruct Hskip as [?|(st2' & e' & Hhook)]; [done|].
    rewrite Hhook in E2. done.
Qed.

Lemma set_failure_witness :
  ∃ cause obj',
    deref 0%nat system_validation_set.1 = Some obj'
    ∧ ReactiveMetadata.status (Reactive.meta obj') = Status.error
    ∧ ReactiveMetadata.error (Reactive.meta obj') = Some cause
    ∧ (handlers_quiet system_validation →
       MkError "Value cannot be null" = cause
       ∧ ∃ evs, System.trace system_validation_set.1 = System.trace system_validation ++ evs
           ∧ ∀ m, m ∈ System.middleware system_validation →
                  is_Some (Middleware.error m) →
                  MiddlewareErrorCalled (Middleware.name m) cause ∈ evs)
    ∧ (write_skipped 0%nat VNull system_validation →
       Reactive.value obj' = Reactive.value (new_reactive "A" "state" (VNum 0) None 0)).
Proof.
  apply (set_failure 5 0%nat VNull system_validation system_validation_set.1
           (MkError "Value cannot be null") (new_reactive "A" "state" (VNum 0) None 0)).
  - vm_compute. reflexivity.
  - vm_compute. reflexivity.
Defined.

(** In that example no handler throws and the call leaves before the
    write, so the theorem gives all of its conclusions there. *)
Lemma set_failure_premises :
  handlers_quiet system_validation ∧ write_skipped 0%nat VNull system_validation.
Proof.
  split; [split|].
  - intros entry handler Hin. vm_compute in Hin. by apply elem_of_nil in Hin.
  - intros m handler Hin Hh. vm_compute in Hin.
    apply list_elem_of_singleton in Hin. subst m. discriminate.
  - by vm_compute.
Qed.

(** C8 fails as stated: [A.set(1)] fails in the [after] middleware, when
    the value 1 is already written, so [value()] has changed; and the
    middleware's [error] handler throws, so the caller gets that exception
    instead of the failure recorded in [meta.error]. *)
Lemma failed_set_keeps_new_value :
  value_of 0%nat system_failing_after = VNum 0
  ∧ value_of 0%nat system_failing_after_set.1 = VNum 1
  ∧ (ReactiveMetadata.error <$> (Reactive.meta <$> deref 0%nat system_failing_after_set.1))
    = Some (Some (MkError "after failed"))
  ∧ system_failing_after_set.2 = Rejected (MkError "error handler failed").
Proof. repeat split; vm_compute; reflexivity. Qed.

(** ** Read-only reactives (C4) *)

Lemma run_set_if_present_readonly fuel id value st r obj :
  getReactive id st = Some r → deref r st = Some obj → Reactive.has_set obj = false →
  run (set_if_present fuel (id, value)) st = (st, Resolved tt).
Proof.
  intros Hr Hobj Hset. unfold set_if_present. cbn [fst snd].
  rewrite run_bind, run_gets, Hr, run_bind, run_gets, Hobj. cbn [from_option].
  by rewrite Hset.
Qed.




(** ** The history log (C9) *)

Lemma history_push (l : list Value) (x : Value) (N : Z) :
  (0 < N)%Z →
  let h := drop (List.length l - Z.to_nat N) l ++ [x] in
  (if (Z.of_nat (List.length h) >? N)%Z then tail h else h)
  = drop (List.length (l ++ [x]) - Z.to_nat N) (l ++ [x]).
Proof.
  intros HN h. subst h. rewrite !length_app, length_drop. cbn [List.length].
  destruct (decide (List.length l < Z.to_nat N)) as [Hlt|Hge].
  - replace (List.length l - Z.to_nat N) with 0%nat by lia.
    replace (List.length l + 1 - Z.to_nat N) with 0%nat by lia.
    rewrite !drop_0. destruct (Z.gtb_spec (Z.of_nat (List.length l - 0 + 1)) N); [lia|done].
  - destruct (Z.gtb_spec
                (Z.of_nat (List.length l - (List.length l - Z.to_nat N) + 1)) N); [|lia].
    replace (List.length l + 1 - Z.to_nat N)
      with (List.length l - Z.to_nat N + 1)%nat by lia.
    rewrite (drop_app_le l [x]) by lia.
    rewrite <-(drop_drop l 1 (List.length l - Z.to_nat N)).
    destruct (drop (List.length l - Z.to_nat N) l) as [|y k] eqn:Hd; [|done].
    apply (f_equal List.length) in Hd. rewrite length_drop in Hd. simpl in Hd. lia.
Qed.

Lemma run_set_resolved fuel reactive newValue st st' :
  run (set_ fuel reactive newValue) st = (st', Resolved tt) →
  ∃ fuel' st1 processedValue st2 x,
    fuel = S fuel'
    ∧ run (runMiddleware PhaseBefore newValue reactive) st = (st1, Resolved processedValue)
    ∧ run (updateReactiveValue (set_ fuel') fuel' reactive processedValue) st1
      = (st2, Resolved tt)
    ∧ run (runMiddleware PhaseAfter (value_of reactive st2) reactive) st2
      = (st', Resolved x).
Proof.
  destruct fuel as [|fuel]; [done|]. intros H. rewrite run_set_ in H.
  assert (Hnever : ∀ e s, run (handleError e reactive "update") s ≠ (st', Resolved tt)).
  { intros e s. destruct (run_handleError e reactive "update" s) as (evs & e' & -> & _).
    done. }
  destruct (run (runMiddleware PhaseBefore _ _) st) as [st1 [pv|e1|]] eqn:E1;
    [|by apply Hnever in H|done].
  unfold or_handle in H.
  destruct (run (updateReactiveValue _ _ _ _) st1) as [st2 [[]|e2|]] eqn:E2;
    [|by apply Hnever in H|done].
  destruct (run (runMiddleware PhaseAfter _ _) st2) as [st3 [x|e3|]] eqn:E3;
    [|by apply Hnever in H|done].
  injection H as <-. by eexists fuel, st1, pv, st2, x.
Qed.

Lemma deref_commit reactive oldValue processedValue st obj :
  deref reactive st = Some obj →
  deref reactive (commit reactive oldValue processedValue st)
  = Some (write_value processedValue (System.now st) obj).
Proof.
  intros Hobj. unfold commit. fields.
  destruct (Options.enableHistory (System.options st)).
  - change (deref reactive (updateHistory ?i ?v ?s)) with (deref reactive s).
    by rewrite deref_update_object, Hobj.
  - by rewrite deref_update_object, Hobj.
Qed.

Lemma history_commit reactive oldValue processedValue st obj :
  deref reactive st = Some obj →
  Options.enableHistory (System.options st) = true →
  System.history (commit reactive oldValue processedValue st)
  = System.history (updateHistory (Reactive.id obj) oldValue st).
Proof.
  intros Hobj Hen. unfold commit. fields. rewrite Hen.
  unfold id_of. rewrite deref_update_object, Hobj. reflexivity.
Qed.

Lemma notifyDependents_loop_nil set_rec n visited :
  notifyDependents_loop set_rec n visited [] = Ret tt.
Proof. by destruct n. Qed.

(** One resolved [set] on a reactive without dependents, outside a batch
    deferral: the value it had is pushed on its history. *)
Lemma set_commit_history fuel reactive newValue st st' obj :
  deref reactive st = Some obj → Reactive.dependents obj = [] →
  batching st = false → Options.enableHistory (System.options st) = true →
  run (set_ fuel reactive newValue) st = (st', Resolved tt) →
  System.history st'
  = System.history (updateHistory (Reactive.id obj) (Reactive.value obj) st).
Proof.
  intros Hobj Hdeps Hb Hen Hrun.
  apply run_set_resolved in Hrun as (fuel' & st1 & pv & st2 & x & -> & E1 & E2 & E3).
  destruct (pres_run _ _ _ _ _ (runMiddleware_logs _ _ _ _) E1) as (evs1 & -> & _).
  destruct (pres_run _ _ _ _ _ (runMiddleware_logs _ _ _ _) E3) as (evs3 & -> & _).
  rewrite run_updateReactiveValue in E2.
  change (batching (traced evs1 st)) with (batching st) in E2. rewrite Hb in E2.
  destruct (run (runPluginHook BeforeUpdate _ _) (traced evs1 st))
    as [st1' [pv'|e|]] eqn:Eh; [|done|done].
  destruct (pres_run _ _ _ _ _ (runPluginHook_logs _ _ _ _) Eh) as (evs2 & -> & _).
  cbn [and_then] in E2. rewrite traced_traced in E2.
  set (stc := commit reactive (value_of reactive (traced evs1 st)) pv'
                (traced (evs1 ++ evs2) st)) in *.
  assert (Hc : deref reactive stc
               = Some (write_value pv' (System.now st) obj)).
  { unfold stc. by erewrite deref_commit. }
  unfold notifyDependents in E2. rewrite run_bind, run_gets in E2.
  unfold dependents_of in E2. rewrite Hc in E2.
  cbn [from_option write_value Reactive.with_meta Reactive.with_value
       Reactive.dependents] in E2.
  rewrite Hdeps, notifyDependents_loop_nil in E2. cbn [run and_then] in E2.
  destruct (run (runPluginHook AfterUpdate _ _) stc) as [st3 [?|e|]] eqn:Ea; [|done|done].
  destruct (pres_run _ _ _ _ _ (runPluginHook_logs _ _ _ _) Ea) as (evs4 & -> & _).
  cbn [and_then] in E2. injection E2 as <-.
  fields. unfold stc.
  rewrite (history_commit _ _ _ _ obj); [|done|done].
  unfold value_of. by rewrite deref_traced, Hobj.
Qed.

Lemma batching_empty st : System.batchQueue st = [] → batching st = false.
Proof. unfold batching. intros ->. apply andb_false_r. Qed.

Lemma history_of_updateHistory id value st :
  history_of id (updateHistory id value st)
  = let h := history_of id st ++ [value] in
    match Options.historySize (System.options st) with
    | Some historySize =>
        if (Z.of_nat (List.length h) >? historySize)%Z then tail h else h
    | None => h
    end.
Proof. unfold history_of, updateHistory. fields. by rewrite lookup_insert_eq. Qed.

Lemma commits_history values fuel reactive st priors st2 obj Q N :
  deref reactive st = Some obj → Reactive.dependents obj = [] →
  System.batchQueue st = [] →
  Options.enableHistory (System.options st) = true →
  Options.historySize (System.options st) = Some N → (0 < N)%Z →
  history_of (Reactive.id obj) st = drop (List.length Q - Z.to_nat N) Q →
  commits fuel reactive values st = Some (priors, st2) →
  List.length priors = List.length values
  ∧ history_of (Reactive.id obj) st2
    = drop (List.length (Q ++ priors) - Z.to_nat N) (Q ++ priors).
Proof.
  revert st priors obj Q.
  induction values as [|v values IH]; intros st priors obj Q Hobj Hdeps Hq Hen HN Hpos HQ;
    cbn [commits].
  - intros [= <- <-]. by rewrite app_nil_r.
  - destruct (run (set_ fuel reactive v) st) as [st' [[]| |]] eqn:Hset; [|done|done].
    destruct (commits fuel reactive values st') as [[priors' st'']|] eqn:Hrest; [|done].
    intros [= <- <-].
    pose proof (set_evolves _ _ _ _ _ _ Hset) as E.
    destruct (evolves_deref _ _ _ _ E Hobj) as (obj' & Hobj' & Hid & _ & _ & Hdep' & _).
    pose proof (set_commit_history _ _ _ _ _ _ Hobj Hdeps (batching_empty _ Hq) Hen Hset)
      as Hh.
    assert (HQ' : history_of (Reactive.id obj') st'
                  = drop (List.length (Q ++ [Reactive.value obj]) - Z.to_nat N)
                      (Q ++ [Reactive.value obj])).
    { unfold history_of at 1. rewrite Hh, <-Hid.
      change (default [] (System.history ?s !! ?i)) with (history_of i s).
      rewrite history_of_updateHistory, HQ, HN. cbn zeta. by apply history_push. }
    destruct (IH st' priors' obj' (Q ++ [Reactive.value obj])) as [Hlen Hfin];
      try done.
    + by rewrite <-Hdep'.
    + by apply (ev_queue _ _ E).
    + by rewrite (ev_options _ _ E).
    + by rewrite (ev_options _ _ E).
    + split; [cbn; by rewrite Hlen|].
      unfold value_of. rewrite Hobj. cbn [from_option].
      rewrite Hid, Hfin, <-app_assoc. reflexivity.
Qed.

(** C9, as the code has it.  The history is kept per id, not per
    reactive.  In a system with history enabled and [historySize = N > 0],
    take a reactive just created, let [L] be the log that its id has at
    that moment (empty for an id never used, the entries left by an
    earlier reactive of the same id otherwise; at most [N] of them), and
    take any sequence of [set] calls on the reactive that are run one
    after the other and all resolve (no batch deferral pending).  The log
    of the id then holds the last [N] values of [L] followed by the values
    that were in place before each commit.  For an empty [L] these are the
    values in place before the last [min(k, N)] of the [k] commits, oldest
    first. *)
Theorem history_keeps_last_of_log config st st1 r values fuel priors st2 N L :
  Options.enableHistory (System.options st) = true →
  Options.historySize (System.options st) = Some N → (0 < N)%Z →
  System.batchQueue st = [] →
  run (create config) st = (st1, Resolved r) →
  history_of (id_of r st1) st = L → (List.length L ≤ Z.to_nat N)%nat →
  commits fuel r values st1 = Some (priors, st2) →
  List.length priors = List.length values
  ∧ history_of (id_of r st1) st2
    = drop (List.length (L ++ priors) - Z.to_nat N) (L ++ priors)
  ∧ (L = [] →
     history_of (id_of r st1) st2 = drop (List.length priors - Z.to_nat N) priors
     ∧ List.length (history_of (id_of r st1) st2)
       = Nat.min (List.length values) (Z.to_nat N)).
Proof.
  intros Hen HN Hpos Hq Hcreate HL Hbound Hcommits.
  destruct (create_resolved _ _ _ _ Hcreate)
    as (cid & type & v & deps & st' & evs & _ & -> & Hh & _ & Hy & _ & Ho & Hb & _).
  set (R := new_reactive (choose_id cid st').1 type v deps (System.now st)) in *.
  assert (Hobj : deref (List.length (System.heap st)) st1 = Some R).
  { unfold deref. rewrite Hh. by apply list_lookup_middle. }
  assert (Hid : id_of (List.length (System.heap st)) st1 = Reactive.id R).
  { unfold id_of. by rewrite Hobj. }
  rewrite Hid in *.
  destruct (commits_history values fuel (List.length (System.heap st)) st1 priors st2
              R L N) as [Hlen Hfin];
    try done; try congruence.
  - unfold history_of in *. rewrite Hy, HL.
    replace (List.length L - Z.to_nat N)%nat with 0%nat by lia. by rewrite drop_0.
  - split; [done|]. split; [done|]. intros ->. cbn [app] in Hfin.
    split; [done|]. rewrite Hfin, length_drop, Hlen. lia.
Qed.

Lemma history_keeps_last_of_log_witness :
  List.length [VNum 0; VNum 1; VNum 2; VNum 3]
  = List.length [VNum 1; VNum 2; VNum 3; VNum 4]
  ∧ history_of (id_of 0%nat system_history3) (from_option snd system_history3 four_commits)
    = drop (List.length ([] ++ [VNum 0; VNum 1; VNum 2; VNum 3]) - Z.to_nat 3)
        ([] ++ [VNum 0; VNum 1; VNum 2; VNum 3])
  ∧ (([] : list Value) = [] →
     history_of (id_of 0%nat system_history3)
       (from_option snd system_history3 four_commits)
     = drop (List.length [VNum 0; VNum 1; VNum 2; VNum 3] - Z.to_nat 3)
         [VNum 0; VNum 1; VNum 2; VNum 3]
     ∧ List.length (history_of (id_of 0%nat system_history3)
                      (from_option snd system_history3 four_commits))
       = Nat.min (List.length [VNum 1; VNum 2; VNum 3; VNum 4]) (Z.to_nat 3)).
Proof.
  apply (history_keeps_last_of_log (config_of "A" "state" (VNum 0) None)
           (ComponentSystem
              (SystemConfig.Build None None
                 (Some (SystemConfig.BuildOptions (Some true) (Some (Some 3%Z))
                          None None None)))
              0 uuids0)
           system_history3 0%nat [VNum 1; VNum 2; VNum 3; VNum 4] 5
           [VNum 0; VNum 1; VNum 2; VNum 3]
           (from_option snd system_history3 four_commits) 3 []).
  - reflexivity.
  - reflexivity.
  - lia.
  - reflexivity.
  - vm_compute. reflexivity.
  - vm_compute. reflexivity.
  - vm_compute. lia.
  - vm_compute. reflexivity.
Defined.

(** C9 fails as stated: after one commit to [A], a second reactive is
    created under the id ["A"] with the value 7 and committed once.  The
    log of its id then holds two values, and the first of them, 0, was
    never a value of this reactive. *)
Lemma history_log_inherited :
  getReactive "A" system_A_recreated = Some 1%nat
  ∧ updateCount_of 1%nat system_A_recreated = 0%nat
  ∧ (run (set_ 5 1%nat (VNum 1)) system_A_recreated).2 = Resolved tt
  ∧ updateCount_of 1%nat (run (set_ 5 1%nat (VNum 1)) system_A_recreated).1 = 1%nat
  ∧ history_of "A" (run (set_ 5 1%nat (VNum 1)) system_A_recreated).1
    = [VNum 0; VNum 7].
Proof. repeat split; vm_compute; reflexivity. Qed.

(** With enough fuel for its own body, a [set] on a reactive without
    dependents always settles. *)
Lemma set_settles fuel reactive newValue st obj :
  deref reactive st = Some obj → Reactive.dependents obj = [] →
  settles (set_ (S fuel) reactive newValue) st.
Proof.
  intros Hobj Hdeps. unfold settles. rewrite run_set_.
  assert (Hh : ∀ e s, (run (handleError e reactive "update") s).2 ≠ Pending).
  { intros e s. by destruct (run_handleError e reactive "update" s) as (? & ? & -> & _). }
  pose proof (settles_runMiddleware PhaseBefore newValue reactive st) as S1.
  unfold settles in S1.
  destruct (run (runMiddleware PhaseBefore _ _) st) as [st1 [pv|e1|]] eqn:E1;
    [|apply Hh|done].
  destruct (pres_run _ _ _ _ _ (runMiddleware_logs _ _ _ _) E1) as (evs1 & -> & _).
  assert (S2 : match run (updateReactiveValue (set_ fuel) fuel reactive pv) (traced evs1 st)
               with (_, Pending) => False | _ => True end).
  { rewrite run_updateReactiveValue. destruct (batching _); [done|].
    pose proof (settles_runPluginHook BeforeUpdate pv
                  [value_of reactive (traced evs1 st)] (traced evs1 st)) as Sb.
    unfold settles in Sb.
    destruct (run (runPluginHook BeforeUpdate _ _) _) as [st1' [pv'|e|]] eqn:Eb;
      [|done|done].
    destruct (pres_run _ _ _ _ _ (runPluginHook_logs _ _ _ _) Eb) as (evs2 & -> & _).
    cbn [and_then]. unfold notifyDependents. rewrite run_bind, run_gets.
    unfold dependents_of. erewrite deref_commit; [|by rewrite !deref_traced].
    cbn [from_option write_value Reactive.with_meta Reactive.with_value
         Reactive.dependents].
    rewrite Hdeps, notifyDependents_loop_nil. cbn [run and_then].
    match goal with |- context [run (runPluginHook AfterUpdate ?v ?a) ?s] =>
      pose proof (settles_runPluginHook AfterUpdate v a s) as Sa; unfold settles in Sa;
      by destruct (run (runPluginHook AfterUpdate v a) s) as [? [?|?|]] end. }
  unfold or_handle.
  destruct (run (updateReactiveValue _ _ _ _) _) as [st2 [[]|e2|]]; [|apply Hh|done].
  pose proof (settles_runMiddleware PhaseAfter (value_of reactive st2) reactive st2) as S3.
  unfold settles in S3.
  destruct (run (runMiddleware PhaseAfter _ _) st2) as [st3 [?|e3|]]; [done|apply Hh|done].
Qed.

(** ** Batching (C2, C3) *)

(** The pending map is only written when it is not empty, so it stays
    empty: no update is ever deferred. *)
Lemma batch_window_never_opens fuel reactive newValue st :
  System.batchQueue st = [] →
  System.batchQueue (run (set_ fuel reactive newValue) st).1 = [].
Proof.
  intros Hq. destruct (run (set_ fuel reactive newValue) st) as [st' o] eqn:E.
  apply set_evolves in E. by apply (ev_queue _ _ E).
Qed.

(** What the deferral branch would do, were the pending map ever
    non-empty: the [before] middleware has run, the processed value is
    recorded under the id, and the [after] middleware runs on the value in
    place; no hook, no write, no history, no propagation. *)
Lemma run_set_deferred fuel reactive newValue st st1 processedValue :
  batching st = true →
  run (runMiddleware PhaseBefore newValue reactive) st = (st1, Resolved processedValue) →
  run (set_ (S fuel) reactive newValue) st =
  match run (runMiddleware PhaseAfter (value_of reactive st1) reactive)
          (enqueue reactive processedValue st1) with
  | (st3, Resolved _) => (st3, Resolved tt)
  | (st3, Rejected e) => run (handleError e reactive "update") st3
  | (st3, Pending) => (st3, Pending)
  end.
Proof.
  intros Hb E1. rewrite run_set_, E1. unfold or_handle.
  destruct (pres_run _ _ _ _ _ (runMiddleware_logs _ _ _ _) E1) as (evs1 & -> & _).
  rewrite run_updateReactiveValue.
  change (batching (traced evs1 st)) with (batching st). by rewrite Hb.
Qed.

(** C2 on the code: with [batchUpdates] and history enabled, a batch whose
    operations set [X] to 1 and then to 2 commits twice and appends two
    history entries; the pending map is never used.  Two operations are
    started together by [Promise.all] and interleave at their awaits:
    both have read the old value 0 before either writes, so the log is
    [0, 0].  One operation that awaits both [set] calls in turn gives
    [0, 1]. *)
Theorem batch_commits_every_set :
  batch_two_operations.2 = Resolved tt
  ∧ value_of 0%nat batch_two_operations.1 = VNum 2
  ∧ updateCount_of 0%nat batch_two_operations.1 = 2%nat
  ∧ history_of "X" batch_two_operations.1 = [VNum 0; VNum 0]
  ∧ batch_one_operation.2 = Resolved tt
  ∧ updateCount_of 0%nat batch_one_operation.1 = 2%nat
  ∧ history_of "X" batch_one_operation.1 = [VNum 0; VNum 1].
Proof. repeat split; vm_compute; reflexivity. Qed.

(** C3 on the code: an operation sets [X] to 1 and then fails; the batch
    rejects with that failure, but [X] has already been committed to 1.
    The same happens when a second operation is the one that fails. *)
Theorem batch_abort_keeps_commits :
  value_of 0%nat system_batching = VNum 0
  ∧ batch_set_then_throw.2 = Rejected (MkError "boom")
  ∧ value_of 0%nat batch_set_then_throw.1 = VNum 1
  ∧ batch_second_rejected.2 = Rejected (MkError "Value cannot be null")
  ∧ value_of 0%nat batch_second_rejected.1 = VNum 1.
Proof. repeat split; vm_compute; reflexivity. Qed.

(** ** Propagation (C6) *)

Lemma restless_evolves st st' : evolves st st' → restless st → restless st'.
Proof.
  intros E (Hp & Hm & Hq & Hall). split; [by rewrite (ev_plugins _ _ E)|].
  split; [by rewrite (ev_middleware _ _ E)|]. split; [by apply (ev_queue _ _ E)|].
  intros r obj' Hobj'.
  destruct (Forall2_lookup_r _ _ _ _ _ (ev_heap _ _ E) Hobj')
    as (obj & Hobj & _ & Hset & _ & Hdeps & _).
  destruct (Hall r obj Hobj) as (Hs & d & ds & r' & Hd & Hg & [obj2 Hobj2]).
  split; [congruence|]. exists d, ds, r'. split; [congruence|].
  split; [unfold getReactive; by rewrite (ev_reactives _ _ E)|].
  destruct (evolves_deref _ _ _ _ E Hobj2) as (? & -> & _). done.
Qed.

Lemma evolves_commit reactive oldValue processedValue st :
  evolves st (commit reactive oldValue processedValue st).
Proof.
  unfold commit.
  pose proof (evolves_update_object reactive
                (write_value processedValue (System.now st)) st
                (same_node_write_value _ _)) as E.
  destruct (Options.enableHistory _); [|done].
  eapply evolves_trans; [exact E|]. apply evolves_updateHistory.
Qed.

Lemma run_runMiddleware_none phase value reactive st :
  System.middleware st = [] →
  run (runMiddleware phase value reactive) st = (st, Resolved value).
Proof.
  intros Hm. unfold runMiddleware. by rewrite run_bind, run_gets, run_bind, run_gets, Hm.
Qed.

Lemma run_runPluginHook_none hook value args st :
  System.plugins st = [] →
  run (runPluginHook hook value args) st = (st, Resolved value).
Proof. intros Hp. unfold runPluginHook. by rewrite run_bind, run_gets, Hp. Qed.

(** In such a graph no [set] ever returns: every commit recommits a
    dependent, whose commit recommits a dependent, and so on. *)
Lemma restless_never_settles fuel reactive newValue st :
  restless st → is_Some (deref reactive st) →
  (run (set_ fuel reactive newValue) st).2 = Pending.
Proof.
  revert reactive newValue st.
  induction fuel as [|fuel IH]; intros reactive newValue st Hr [obj Hobj]; [done|].
  destruct Hr as (Hp & Hm & Hq & Hall).
  rewrite run_set_, run_runMiddleware_none by done. unfold or_handle.
  rewrite run_updateReactiveValue, batching_empty, run_runPluginHook_none by done.
  cbn [and_then].
  set (stc := commit reactive (value_of reactive st) newValue st).
  assert (Ec : evolves st stc) by apply evolves_commit.
  assert (Hrc : restless stc) by (by apply (restless_evolves st)).
  destruct (evolves_deref _ _ _ _ Ec Hobj) as (objc & Hobjc & _).
  destruct Hrc as (Hpc & Hmc & Hqc & Hallc).
  destruct (Hallc _ _ Hobjc) as (_ & d & ds & r' & Hd & Hg & [obj' Hobj']).
  unfold notifyDependents. rewrite run_bind, run_gets. unfold dependents_of.
  rewrite Hobjc. cbn [from_option]. rewrite Hd.
  destruct fuel as [|fuel']; [reflexivity|]. cbn [notifyDependents_loop].
  destruct (decide (d ∈ [])) as [Hin|_]; [by inversion Hin|].
  rewrite run_bind, run_gets, Hg, run_bind, run_gets, Hobj'. cbn [from_option].
  rewrite (proj1 (Hallc _ _ Hobj')), run_bind, run_await.
  specialize (IH r' (Reactive.value obj') stc).
  destruct (run (set_ (S fuel') r' (Reactive.value obj')) stc) as [st2 o] eqn:E.
  cbn [snd] in IH. rewrite IH; [done| |by eexists]. done.
Qed.

Lemma restless_cycle : restless system_cycle.
Proof.
  do 3 (split; [reflexivity|]).
  intros [|[|[|r]]] obj Hobj; vm_compute in Hobj; [| | |done]; injection Hobj as <-;
    (split; [reflexivity|]).
  - exists "B", [], 1%nat. split; [reflexivity|]. split; [by vm_compute|].
    eexists. vm_compute. reflexivity.
  - exists "C", [], 2%nat. split; [reflexivity|]. split; [by vm_compute|].
    eexists. vm_compute. reflexivity.
  - exists "A", [], 0%nat. split; [reflexivity|]. split; [by vm_compute|].
    eexists. vm_compute. reflexivity.
Qed.

(** C6 on the code: on the chain A→B→C, committing [A] recommits [C]
    twice (once inside the recommit of [B], once from [A]'s own loop);
    on the cycle A→B→C→A, committing [A] never returns, whatever recursion
    depth is allowed, and within depth 10 [A] itself has been committed
    four times and [B] and [C] three times each. *)
Theorem propagation_recommits :
  (run (set_ 10 0%nat (VNum 1)) system_chain).2 = Resolved tt
  ∧ updateCount_of 2%nat (run (set_ 10 0%nat (VNum 1)) system_chain).1 = 2%nat
  ∧ (∀ fuel, (run (set_ fuel 0%nat (VNum 1)) system_cycle).2 = Pending)
  ∧ updateCount_of 0%nat (run (set_ 10 0%nat (VNum 1)) system_cycle).1 = 4%nat
  ∧ updateCount_of 1%nat (run (set_ 10 0%nat (VNum 1)) system_cycle).1 = 3%nat
  ∧ updateCount_of 2%nat (run (set_ 10 0%nat (VNum 1)) system_cycle).1 = 3%nat.
Proof.
  split; [by vm_compute|]. split; [by vm_compute|]. split.
  - intros fuel. apply restless_never_settles; [apply restless_cycle|].
    eexists. vm_compute. reflexivity.
  - repeat split; by vm_compute.
Qed.


(** ** The order of the plugin map *)

Lemma map_set_fresh {V : Type} (k : string) (v : V) (m : list (string * V)) :
  k ∉ m.*1 → map_set k v m = m ++ [(k, v)].
Proof.
  induction m as [|[k' v'] m IH]; intros Hk; cbn [map_set app]; [done|].
  cbn [fmap list_fmap fst] in Hk. apply not_elem_of_cons in Hk as [Hne Hk].
  destruct (decide (k = k')); [done|]. by rewrite IH.
Qed.

Lemma register_new_plugins obj st :
  System.plugins (register_new obj st) = System.plugins st.
Proof.
  unfold register_new, alloc, registerReactive. by destruct (deref _ _).
Qed.

Lemma register_all_plugins objs st :
  System.plugins (foldl (λ st obj, register_new obj st) st objs) = System.plugins st.
Proof.
  revert st. induction objs as [|obj objs IH]; intros st; cbn [foldl]; [done|].
  by rewrite IH, register_new_plugins.
Qed.

Lemma initializePlugins_plugins plugins st :
  System.plugins (initializePlugins plugins st)
  = foldl (λ m plugin, map_set (Plugin.name plugin) plugin m) (System.plugins st) plugins.
Proof.
  unfold initializePlugins. revert st.
  induction plugins as [|plugin plugins IH]; intros st; cbn [foldl]; [done|].
  by rewrite IH, register_all_plugins.
Qed.

Lemma map_set_all_fresh (plugins : list Plugin.t) (m : list (string * Plugin.t)) :
  NoDup (Plugin.name <$> plugins) →
  (∀ plugin, plugin ∈ plugins → Plugin.name plugin ∉ m.*1) →
  foldl (λ m plugin, map_set (Plugin.name plugin) plugin m) m plugins
  = m ++ ((λ plugin, (Plugin.name plugin, plugin)) <$> plugins).
Proof.
  revert m. induction plugins as [|plugin plugins IH]; intros m Hnd Hfresh;
    cbn [foldl fmap list_fmap].
  - by rewrite app_nil_r.
  - cbn [fmap list_fmap] in Hnd. apply NoDup_cons in Hnd as [Hnotin Hnd].
    rewrite map_set_fresh by (apply Hfresh, list_elem_of_here).
    rewrite IH; [by rewrite <-app_assoc|done|].
    intros q Hq. rewrite fmap_app, elem_of_app. intros [Hin|Hin].
    + by apply (Hfresh q); [apply list_elem_of_further|].
    + cbn in Hin. apply list_elem_of_singleton in Hin.
      apply Hnotin. rewrite <-Hin. by apply list_elem_of_fmap_2.
Qed.

(** X21: With distinct plugin names, the plugin map iterates in registration
    order. *)
Lemma ComponentSystem_plugins_order config now uuids plugins :
  SystemConfig.plugins config = Some plugins →
  NoDup (Plugin.name <$> plugins) →
  System.plugins (ComponentSystem config now uuids)
  = (λ plugin, (Plugin.name plugin, plugin)) <$> plugins.
Proof.
  intros Hps Hnd. unfold ComponentSystem. fields.
  rewrite initializePlugins_plugins, Hps. cbn [default System.plugins].
  rewrite map_set_all_fresh; [done|done|].
  intros plugin _ Hin. by apply elem_of_nil in Hin.
Qed.

(** * Further properties of the engine *)

(** ** The lifecycle pipeline *)

Lemma run_runPluginHook_loop_thread hook plugins value args st :
  run (runPluginHook_loop hook plugins value args) st =
  (traced (thread_hooks hook plugins (System.heap st) args value).1 st,
   outcome_of (thread_hooks hook plugins (System.heap st) args value).2).
Proof.
  revert value st.
  induction plugins as [|[k plugin] plugins IH]; intros value st;
    cbn [runPluginHook_loop thread_hooks].
  - by rewrite traced_nil.
  - destruct (get_hook hook plugin) as [hookFn|]; [|apply IH].
    rewrite run_bind, run_gets, run_bind, run_emit, run_bind, run_await_value.
    fields. destruct (hookFn (System.heap st) value args) as [value'|e]; [|done].
    rewrite IH. fields.
    destruct (thread_hooks hook plugins (System.heap st) args value') as [evs r].
    cbn [fst snd]. by rewrite traced_traced.
Qed.

Lemma run_runPluginHook_thread hook value args st :
  run (runPluginHook hook value args) st =
  (traced (thread_hooks hook (System.plugins st) (System.heap st) args value).1 st,
   outcome_of (thread_hooks hook (System.plugins st) (System.heap st) args value).2).
Proof.
  unfold runPluginHook. rewrite run_bind, run_gets. apply run_runPluginHook_loop_thread.
Qed.

Lemma thread_hooks_lacking hook pre rest heap args value :
  Forall (lacks hook) pre →
  thread_hooks hook (pre ++ rest) heap args value = thread_hooks hook rest heap args value.
Proof.
  induction 1 as [|[k p] pre Hp _ IH]; [done|].
  cbn [app thread_hooks]. unfold lacks in Hp. cbn [snd] in Hp. by rewrite Hp.
Qed.

(** X1: Hook ordering: when [p1] comes before [p2] in the plugin map, both
    implement the hook and no plugin before or between them does, [p1] is
    called on the value the pipeline was given and [p2] on what [p1]
    returned; if [p2] throws, nothing more is called and the pipeline
    rejects with its exception. *)
Theorem hook_receives_predecessor_result hook value args st
    pre k1 p1 mid k2 p2 post h1 h2 v1 :
  System.plugins st = pre ++ (k1, p1) :: mid ++ (k2, p2) :: post →
  Forall (lacks hook) pre → Forall (lacks hook) mid →
  get_hook hook p1 = Some h1 → get_hook hook p2 = Some h2 →
  h1 (System.heap st) value args = Ok v1 →
  ∃ evs outcome,
    run (runPluginHook hook value args) st =
      (traced (HookCalled (Plugin.name p1) hook value
               :: HookCalled (Plugin.name p2) hook v1 :: evs) st, outcome)
    ∧ (∀ e, h2 (System.heap st) v1 args = Raise e → evs = [] ∧ outcome = Rejected e)
    ∧ (∀ v2, h2 (System.heap st) v1 args = Ok v2 → Forall (lacks hook) post →
             evs = [] ∧ outcome = Resolved v2).
Proof.
  intros Hps Hpre Hmid H1 H2 Hv1.
  rewrite run_runPluginHook_thread, Hps, thread_hooks_lacking by done.
  cbn [thread_hooks]. rewrite H1, Hv1.
  rewrite thread_hooks_lacking by done. cbn [thread_hooks]. rewrite H2.
  destruct (h2 (System.heap st) v1 args) as [v2|e] eqn:Hv2.
  - destruct (thread_hooks hook post (System.heap st) args v2) as [evs r] eqn:Hpost.
    exists evs, (outcome_of r). split; [done|]. split; [done|].
    intros ? [= <-] Hlack.
    rewrite <-(app_nil_r post), thread_hooks_lacking in Hpost by done.
    by injection Hpost as <- <-.
  - exists [], (Rejected e). split; [done|]. split; [|done]. by intros ? [= <-].
Qed.

Lemma hook_receives_predecessor_result_witness :
  ∃ evs outcome,
    run (runPluginHook AfterCreate (VReactive 0%nat) []) system_logger_observer =
      (traced (HookCalled "logger" AfterCreate (VReactive 0%nat)
               :: HookCalled "observer" AfterCreate VUndefined :: evs)
         system_logger_observer, outcome)
    ∧ (∀ e, Ok VUndefined = Raise e → evs = [] ∧ outcome = Rejected e)
    ∧ (∀ v2, Ok VUndefined = Ok v2 → Forall (lacks AfterCreate) [] →
             evs = [] ∧ outcome = Resolved v2).
Proof.
  apply (hook_receives_predecessor_result AfterCreate (VReactive 0%nat) []
           system_logger_observer []
           "logger" LoggerPlugin
           [("silent", plugin_with_handler "silent" returning_handler)]
           "observer" observer []
           (λ _ _ _, Ok VUndefined) (λ _ reactive _, Ok reactive)).
  - vm_compute. reflexivity.
  - constructor.
  - repeat constructor.
  - reflexivity.
  - reflexivity.
  - reflexivity.
Defined.

(** ** The middleware pipeline *)

Lemma run_runMiddleware_loop_thread phase timestamp middlewares value reactive st :
  run (runMiddleware_loop phase timestamp middlewares value reactive) st =
  (traced (thread_middleware phase middlewares (System.heap st)
             (MiddlewareContext.Build reactive phase timestamp) value).1 st,
   outcome_of (thread_middleware phase middlewares (System.heap st)
                 (MiddlewareContext.Build reactive phase timestamp) value).2).
Proof.
  revert value st.
  induction middlewares as [|m ms IH]; intros value st;
    cbn [runMiddleware_loop thread_middleware].
  - by rewrite traced_nil.
  - destruct (middleware_handler phase m) as [handler|]; [|apply IH].
    rewrite run_bind, run_gets, run_bind, run_emit, run_bind, run_await_value.
    fields. destruct (handler (System.heap st) value _) as [value'|e]; [|done].
    rewrite IH. fields.
    destruct (thread_middleware phase ms (System.heap st) _ value') as [evs r].
    cbn [fst snd]. by rewrite traced_traced.
Qed.

Lemma run_runMiddleware_thread phase value reactive st :
  run (runMiddleware phase value reactive) st =
  (traced (thread_middleware phase (System.middleware st) (System.heap st)
             (MiddlewareContext.Build reactive phase (System.now st)) value).1 st,
   outcome_of (thread_middleware phase (System.middleware st) (System.heap st)
                 (MiddlewareContext.Build reactive phase (System.now st)) value).2).
Proof.
  unfold runMiddleware. rewrite run_bind, run_gets, run_bind, run_gets.
  apply run_runMiddleware_loop_thread.
Qed.

Lemma thread_middleware_skipping phase pre rest heap context value :
  Forall (skips phase) pre →
  thread_middleware phase (pre ++ rest) heap context value
  = thread_middleware phase rest heap context value.
Proof.
  induction 1 as [|m pre Hm _ IH]; [done|].
  cbn [app thread_middleware]. unfold skips in Hm. by rewrite Hm.
Qed.

(** X2: Middleware ordering: in one pass of a phase, the middleware that have
    a handler for the phase are called in array order with one and the
    same context (reactive, phase, time stamp); each receives what its
    predecessor returned.  If one throws, the later ones are not called
    and the pass rejects with its exception. *)
Theorem middleware_receives_predecessor_result phase value reactive st
    pre m1 mid m2 post h1 h2 v1 :
  System.middleware st = pre ++ m1 :: mid ++ m2 :: post →
  Forall (skips phase) pre → Forall (skips phase) mid →
  middleware_handler phase m1 = Some h1 → middleware_handler phase m2 = Some h2 →
  h1 (System.heap st) value (MiddlewareContext.Build reactive phase (System.now st))
  = Ok v1 →
  ∃ evs outcome,
    run (runMiddleware phase value reactive) st =
      (traced (MiddlewareCalled (Middleware.name m1) phase value
               :: MiddlewareCalled (Middleware.name m2) phase v1 :: evs) st, outcome)
    ∧ (∀ e, h2 (System.heap st) v1
              (MiddlewareContext.Build reactive phase (System.now st)) = Raise e →
            evs = [] ∧ outcome = Rejected e)
    ∧ (∀ v2, h2 (System.heap st) v1
               (MiddlewareContext.Build reactive phase (System.now st)) = Ok v2 →
             Forall (skips phase) post → evs = [] ∧ outcome = Resolved v2).
Proof.
  intros Hms Hpre Hmid H1 H2 Hv1.
  rewrite run_runMiddleware_thread, Hms, thread_middleware_skipping by done.
  cbn [thread_middleware]. rewrite H1, Hv1.
  rewrite thread_middleware_skipping by done. cbn [thread_middleware]. rewrite H2.
  destruct (h2 (System.heap st) v1 _) as [v2|e] eqn:Hv2.
  - destruct (thread_middleware phase post (System.heap st) _ v2) as [evs r] eqn:Hpost.
    exists evs, (outcome_of r). split; [done|]. split; [done|].
    intros ? [= <-] Hskip.
    rewrite <-(app_nil_r post), thread_middleware_skipping in Hpost by done.
    by injection Hpost as <- <-.
  - exists [], (Rejected e). split; [done|]. split; [|done]. by intros ? [= <-].
Qed.

Lemma middleware_receives_predecessor_result_witness :
  ∃ evs outcome,
    run (runMiddleware PhaseBefore (VNum 7) 0%nat) system_three_middleware =
      (traced (MiddlewareCalled "evening" PhaseBefore (VNum 7)
               :: MiddlewareCalled "validation" PhaseBefore (VNum 6) :: evs)
         system_three_middleware, outcome)
    ∧ (∀ e, Ok (VNum 6) = Raise e → evs = [] ∧ outcome = Rejected e)
    ∧ (∀ v2, Ok (VNum 6) = Ok v2 → Forall (skips PhaseBefore) [] →
             evs = [] ∧ outcome = Resolved v2).
Proof.
  apply (middleware_receives_predecessor_result PhaseBefore (VNum 7) 0%nat
           system_three_middleware [] evening [auditing] validation []
           (λ _ value _,
              match value with
              | VNum n => Ok (VNum (2 * (n / 2)))
              | _ => Ok value
              end)
           (λ _ value _,
              match value with
              | VNull => Raise (MkError "Value cannot be null")
              | _ => Ok value
              end)
           (VNum 6)).
  - vm_compute. reflexivity.
  - constructor.
  - repeat constructor.
  - reflexivity.
  - reflexivity.
  - reflexivity.
Defined.

(** ** Creation *)

(** X3: A [beforeCreate] hook that throws vetoes the creation: [create]
    rejects with what the hook threw, after the call of that hook and
    nothing else; no object is built, nothing is registered and no
    identifier is drawn. *)
Theorem create_vetoed_by_beforeCreate config st pre k p post h e :
  System.plugins st = pre ++ (k, p) :: post →
  Forall (lacks BeforeCreate) pre →
  Plugin.beforeCreate p = Some h →
  h (System.heap st) (config_value config) [] = Raise e →
  run (create config) st =
    (traced [HookCalled (Plugin.name p) BeforeCreate (config_value config)] st,
     Rejected e).
Proof.
  intros Hps Hpre Hh He.
  rewrite run_create, run_runPluginHook_thread, Hps, thread_hooks_lacking by done.
  cbn [thread_hooks get_hook]. by rewrite Hh, He.
Qed.

Lemma create_vetoed_by_beforeCreate_witness :
  run (create (config_of "A" "state" (VNum 0) None)) system_failing_before_create =
    (traced [HookCalled "strict" BeforeCreate
               (config_value (config_of "A" "state" (VNum 0) None))]
       system_failing_before_create,
     Rejected (MkError "rejected config")).
Proof.
  apply (create_vetoed_by_beforeCreate (config_of "A" "state" (VNum 0) None)
           system_failing_before_create [] "strict" plugin_failing_before_create []
           (λ _ _ _, Raise (MkError "rejected config")) (MkError "rejected config")).
  - vm_compute. reflexivity.
  - constructor.
  - reflexivity.
  - reflexivity.
Defined.

Lemma run_runPluginHook_traced hook value args st :
  ∃ evs, (run (runPluginHook hook value args) st).1 = traced evs st
         ∧ Forall (hook_event hook) evs.
Proof.
  pose proof (runPluginHook_logs hook value args st) as (evs & H & F).
  by exists evs.
Qed.

(** X4: A rejection by an [afterCreate] hook comes too late: when the
    [beforeCreate] hooks have returned a config and [create] rejects all the
    same, it is the [afterCreate] pipeline that rejected, and the reactive
    has been built and registered under its id, although the caller never
    receives its handle. *)
Theorem create_rejected_after_registration config st st1 cid type v deps st' e :
  run (runPluginHook BeforeCreate (config_value config) []) st =
    (st1, Resolved (VConfig cid type v deps)) →
  run (create config) st = (st', Rejected e) →
  getReactive (choose_id cid st1).1 st' = Some (List.length (System.heap st))
  ∧ deref (List.length (System.heap st)) st' =
      Some (new_reactive (choose_id cid st1).1 type v deps (System.now st))
  ∧ (run (runPluginHook AfterCreate (VReactive (List.length (System.heap st))) [])
       (run (createReactive (VConfig cid type v deps)) st1).1).2 = Rejected e
  ∧ (∃ plugin arg, HookCalled plugin AfterCreate arg ∈ System.trace st').
Proof.
  intros Hb Hc. rewrite run_create, Hb in Hc. cbn [and_then] in Hc.
  destruct (run_runPluginHook_traced BeforeCreate (config_value config) [] st)
    as (evs1 & E1 & _).
  rewrite Hb in E1. cbn [fst] in E1. subst st1.
  rewrite run_createReactive in Hc. cbn zeta in Hc. cbn [and_then] in Hc.
  rewrite run_createReactive. cbn zeta. cbn [fst].
  destruct (choose_id_frame cid (traced evs1 st)) as (Hh & Hr & _).
  set (id := (choose_id cid (traced evs1 st)).1) in *.
  set (st0 := (choose_id cid (traced evs1 st)).2) in *.
  cbn [traced System.heap System.with_trace System.now] in Hc, Hh, Hr |- *.
  set (r := List.length (System.heap st)) in *.
  set (obj := new_reactive id type v deps (System.now st)) in *.
  set (st2 := System.with_reactives _ _) in *.
  rewrite run_runPluginHook_thread in Hc |- *.
  destruct (thread_hooks AfterCreate (System.plugins st2) (System.heap st2) []
              (VReactive r)) as [evs [w|e']] eqn:Ht;
    cbn [fst snd outcome_of and_then] in Hc |- *; [done|].
  injection Hc as <- <-.
  split; [|split; [|split; [done|]]].
  - subst st2. fields. unfold getReactive. fields. subst obj. cbn [new_reactive Reactive.id].
    by rewrite lookup_insert_eq.
  - subst st2. unfold deref. fields. subst r. by rewrite list_lookup_middle.
  - assert (∃ plugin arg, HookCalled plugin AfterCreate arg ∈ evs) as (pl & arg & Hin).
    { clear -Ht. revert Ht. generalize (VReactive r) as value. generalize (System.heap st2).
      intros heap. revert evs.
      induction (System.plugins st2) as [|[k p] ps IH]; intros evs value; cbn [thread_hooks].
      - done.
      - destruct (get_hook AfterCreate p) as [h|]; [|apply IH].
        destruct (h heap value []) as [value'|e''].
        + destruct (thread_hooks AfterCreate ps heap [] value') as [evs' r'] eqn:Ht'.
          intros [= <- ->]. destruct (IH _ _ Ht') as (pl & arg & Hin).
          exists pl, arg. by right.
        + intros [= <- <-]. eexists _, _. by left. }
    exists pl, arg. fields. apply elem_of_app. by right.
Qed.

Lemma create_rejected_after_registration_witness :
  getReactive
    (choose_id (Some "A") (traced [] system_failing_after_create)).1
    (run (create (config_of "A" "state" (VNum 0) None)) system_failing_after_create).1
  = Some (List.length (System.heap system_failing_after_create))
  ∧ deref (List.length (System.heap system_failing_after_create))
      (run (create (config_of "A" "state" (VNum 0) None)) system_failing_after_create).1
    = Some (new_reactive
              (choose_id (Some "A") (traced [] system_failing_after_create)).1
              "state" (VNum 0) None (System.now system_failing_after_create))
  ∧ (run (runPluginHook AfterCreate
            (VReactive (List.length (System.heap system_failing_after_create))) [])
       (run (createReactive (VConfig (Some "A") "state" (VNum 0) None))
          (traced [] system_failing_after_create)).1).2
    = Rejected (MkError "afterCreate failed")
  ∧ (∃ plugin arg,
        HookCalled plugin AfterCreate arg
        ∈ System.trace
            (run (create (config_of "A" "state" (VNum 0) None))
               system_failing_after_create).1).
Proof.
  apply (create_rejected_after_registration (config_of "A" "state" (VNum 0) None)
           system_failing_after_create (traced [] system_failing_after_create)
           (Some "A") "state" (VNum 0) None
           (run (create (config_of "A" "state" (VNum 0) None))
              system_failing_after_create).1
           (MkError "afterCreate failed")).
  - vm_compute. reflexivity.
  - vm_compute. reflexivity.
Defined.

Lemma choose_id_traced id evs st :
  choose_id id (traced evs st) = ((choose_id id st).1, traced evs (choose_id id st).2).
Proof.
  unfold choose_id, randomUUID.
  destruct id as [s|]; [destruct (decide (s = ""))|]; done.
Qed.

Lemma run_createReactive_traced config evs st :
  run (createReactive config) (traced evs st) =
  (traced evs (run (createReactive config) st).1, (run (createReactive config) st).2).
Proof.
  destruct config as [| | | | |cid type v deps|]; try done.
  rewrite !run_createReactive. cbn zeta. rewrite choose_id_traced. cbn [fst snd].
  destruct (choose_id cid st) as [id st0]. cbn [fst snd]. done.
Qed.

Lemma thread_hooks_beforeCreate_transparent plugins heap args value :
  (∀ entry, entry ∈ plugins →
     ∀ h, Plugin.beforeCreate entry.2 = Some h → ∀ heap v args, h heap v args = Ok v) →
  (thread_hooks BeforeCreate plugins heap args value).2 = Ok value.
Proof.
  induction plugins as [|[k p] ps IH]; intros Hall; cbn [thread_hooks get_hook]; [done|].
  assert ((thread_hooks BeforeCreate ps heap args value).2 = Ok value) as IH'.
  { apply IH. intros entry Hin. apply Hall. by right. }
  destruct (Plugin.beforeCreate p) as [h|] eqn:Hh; [|done].
  rewrite (Hall (k, p) ltac:(by left) h Hh).
  by destruct (thread_hooks BeforeCreate ps heap args value).
Qed.

Lemma thread_hooks_afterCreate_returning plugins heap args value :
  (∀ entry, entry ∈ plugins →
     ∀ h, Plugin.afterCreate entry.2 = Some h → ∀ heap v args, ∃ w, h heap v args = Ok w) →
  ∃ w, (thread_hooks AfterCreate plugins heap args value).2 = Ok w.
Proof.
  revert value.
  induction plugins as [|[k p] ps IH]; intros value Hall; cbn [thread_hooks get_hook];
    [by eexists|].
  assert (∀ value, ∃ w, (thread_hooks AfterCreate ps heap args value).2 = Ok w) as IH'.
  { intros value'. apply IH. intros entry Hin. apply Hall. by right. }
  destruct (Plugin.afterCreate p) as [h|] eqn:Hh; [|done].
  destruct (Hall (k, p) ltac:(by left) h Hh heap value args) as [w ->].
  destruct (IH' w) as [w' Hw'].
  destruct (thread_hooks AfterCreate ps heap args w). by exists w'.
Qed.

(** X5: With creation hooks that leave the request alone (each [beforeCreate]
    returns the config it was given, each [afterCreate] returns), as those
    of the [LoggerPlugin], [create] always resolves, with the handle of a
    new object built from the caller's config and registered under its id;
    apart from the calls of the creation hooks nothing else changes. *)
Theorem create_with_transparent_hooks config st :
  create_hooks_transparent st →
  ∃ evs,
    run (create config) st =
      (traced evs
         (System.with_reactives
            (<[(choose_id (ReactiveConfig.id config) st).1 := List.length (System.heap st)]>
               (System.reactives st))
            (System.with_heap
               (System.heap st ++
                  [new_reactive (choose_id (ReactiveConfig.id config) st).1
                     (ReactiveConfig.type config) (ReactiveConfig.initialValue config)
                     (ReactiveConfig.dependencies config) (System.now st)])
               (choose_id (ReactiveConfig.id config) st).2)),
       Resolved (List.length (System.heap st)))
    ∧ Forall (λ ev, hook_event BeforeCreate ev ∨ hook_event AfterCreate ev) evs.
Proof.
  intros Ht.
  rewrite run_create.
  pose proof (runPluginHook_logs BeforeCreate (config_value config) [] st)
    as (evs1 & E1 & F1).
  pose proof (run_runPluginHook_thread BeforeCreate (config_value config) [] st) as R1.
  rewrite thread_hooks_beforeCreate_transparent in R1
    by (intros entry Hin; apply (Ht entry Hin)).
  destruct (run (runPluginHook BeforeCreate (config_value config) []) st) as [st1 o1].
  cbn [fst] in E1. injection R1 as _ ->. subst st1. cbn [outcome_of and_then].
  rewrite run_createReactive_traced.
  unfold config_value at 1 2. rewrite run_createReactive. cbn zeta. cbn [fst snd and_then].
  set (st2 := traced evs1 _).
  pose proof (runPluginHook_logs AfterCreate
                (VReactive (List.length (System.heap st))) [] st2) as (evs2 & E2 & F2).
  pose proof (run_runPluginHook_thread AfterCreate
                (VReactive (List.length (System.heap st))) [] st2) as R2.
  destruct (thread_hooks_afterCreate_returning (System.plugins st2) (System.heap st2) []
              (VReactive (List.length (System.heap st)))) as [w Hw].
  { intros entry Hin. apply (Ht entry).
    subst st2. fields. destruct (choose_id_frame (ReactiveConfig.id config) st).
    revert Hin. unfold choose_id, randomUUID.
    by destruct (ReactiveConfig.id config) as [s|]; [destruct (decide (s = ""))|]. }
  rewrite Hw in R2.
  destruct (run (runPluginHook AfterCreate _ _) st2) as [st3 o3].
  cbn [fst] in E2. injection R2 as _ ->. subst st3. cbn [outcome_of and_then].
  exists (evs1 ++ evs2). split.
  - subst st2. by rewrite traced_traced.
  - apply Forall_app. split; eapply Forall_impl; eauto.
Qed.

Lemma create_with_transparent_hooks_witness :
  ∃ evs,
    run (create (config_of "count" "state" (VNum 0) None)) system_logger =
      (traced evs
         (System.with_reactives
            (<[(choose_id (Some "count") system_logger).1 :=
                 List.length (System.heap system_logger)]>
               (System.reactives system_logger))
            (System.with_heap
               (System.heap system_logger ++
                  [new_reactive (choose_id (Some "count") system_logger).1
                     "state" (VNum 0) None (System.now system_logger)])
               (choose_id (Some "count") system_logger).2)),
       Resolved (List.length (System.heap system_logger)))
    ∧ Forall (λ ev, hook_event BeforeCreate ev ∨ hook_event AfterCreate ev) evs.
Proof.
  apply (create_with_transparent_hooks (config_of "count" "state" (VNum 0) None)
           system_logger).
  intros entry Hin. vm_compute in Hin.
  apply list_elem_of_singleton in Hin as ->. split.
  - intros h [= <-]. reflexivity.
  - intros h [= <-]. intros. eexists. reflexivity.
Defined.

(** X6: A config without an id, or with the empty string as id, gets the next
    identifier of [crypto.randomUUID()]: the reactive carries it, is
    registered under it, and exactly one identifier is drawn. *)
Theorem create_without_id_draws_uuid config st st1 cid type v deps st' r :
  run (runPluginHook BeforeCreate (config_value config) []) st =
    (st1, Resolved (VConfig cid type v deps)) →
  cid = None ∨ cid = Some "" →
  run (create config) st = (st', Resolved r) →
  id_of r st' = System.uuids st (System.drawn st)
  ∧ getReactive (System.uuids st (System.drawn st)) st' = Some r
  ∧ System.drawn st' = S (System.drawn st).
Proof.
  intros Hb Hcid Hc. rewrite run_create, Hb in Hc. cbn [and_then] in Hc.
  destruct (run_runPluginHook_traced BeforeCreate (config_value config) [] st)
    as (evs1 & E1 & _).
  rewrite Hb in E1. cbn [fst] in E1. subst st1.
  rewrite run_createReactive_traced, run_createReactive in Hc.
  cbn zeta in Hc. cbn [fst snd and_then] in Hc.
  assert (choose_id cid st = randomUUID st) as Hid.
  { by destruct Hcid as [-> | ->]. }
  rewrite Hid in Hc. unfold randomUUID in Hc. cbn [fst snd] in Hc.
  set (st2 := traced evs1 _) in Hc.
  destruct (run_runPluginHook_traced AfterCreate
              (VReactive (List.length (System.heap st))) [] st2) as (evs2 & E2 & _).
  destruct (run (runPluginHook AfterCreate _ _) st2) as [st3 [w|e|]];
    cbn [and_then] in Hc; try done.
  injection Hc as <- <-. cbn [fst] in E2. subst st3 st2.
  split; [|split].
  - unfold id_of, deref. fields. by rewrite list_lookup_middle.
  - unfold getReactive. fields. cbn [new_reactive Reactive.id]. by rewrite lookup_insert_eq.
  - done.
Qed.

Lemma create_without_id_draws_uuid_witness :
  id_of 0%nat (run (create config_anonymous) bare_system).1
  = System.uuids bare_system (System.drawn bare_system)
  ∧ getReactive (System.uuids bare_system (System.drawn bare_system))
      (run (create config_anonymous) bare_system).1 = Some 0%nat
  ∧ System.drawn (run (create config_anonymous) bare_system).1
    = S (System.drawn bare_system).
Proof.
  apply (create_without_id_draws_uuid config_anonymous bare_system bare_system
           None "state" (VNum 0) None).
  - vm_compute. reflexivity.
  - left. reflexivity.
  - vm_compute. reflexivity.
Defined.

(** ** [new Set(array)] *)

Lemma elem_of_set_add {A : Type} `{EqDecision A} (x y : A) (s : list A) :
  y ∈ set_add x s ↔ y = x ∨ y ∈ s.
Proof.
  unfold set_add. destruct (decide (x ∈ s)).
  - split; [by right|]. by intros [->|?].
  - rewrite elem_of_app, list_elem_of_singleton. tauto.
Qed.

Lemma NoDup_set_add {A : Type} `{EqDecision A} (x : A) (s : list A) :
  NoDup s → NoDup (set_add x s).
Proof.
  intros Hs. unfold set_add. destruct (decide (x ∈ s)); [done|].
  apply NoDup_app. split; [done|]. split; [|apply NoDup_singleton].
  intros y Hy ->%list_elem_of_singleton. done.
Qed.

Lemma set_add_all {A : Type} `{EqDecision A} (xs s : list A) :
  NoDup s →
  NoDup (foldl (λ s x, set_add x s) s xs)
  ∧ (∀ y, y ∈ foldl (λ s x, set_add x s) s xs ↔ y ∈ s ∨ y ∈ xs)
  ∧ (NoDup xs → (∀ x, x ∈ xs → x ∉ s) → foldl (λ s x, set_add x s) s xs = s ++ xs).
Proof.
  revert s. induction xs as [|x xs IH]; intros s Hs; cbn [foldl].
  - split; [done|]. split; [|by rewrite app_nil_r].
    intros y. rewrite elem_of_nil. tauto.
  - destruct (IH (set_add x s) (NoDup_set_add x s Hs)) as (IH1 & IH2 & IH3).
    split; [done|]. split.
    + intros y. rewrite IH2, elem_of_set_add, elem_of_cons. tauto.
    + intros [Hx Hxs]%NoDup_cons Hfresh. rewrite IH3; [|done|].
      * unfold set_add. rewrite decide_False by (apply Hfresh; by left).
        by rewrite <-app_assoc.
      * intros y Hy [->|Hys]%elem_of_set_add; [done|].
        apply (Hfresh y); [by right|done].
Qed.

(** X7: The dependencies of a created reactive are the config's dependencies
    as a set: each named id once, in the order of its first occurrence; a
    list without repetitions is kept as it is. *)
Theorem create_dependencies_deduplicated config st st1 cid type v deps st' r :
  run (runPluginHook BeforeCreate (config_value config) []) st =
    (st1, Resolved (VConfig cid type v deps)) →
  run (create config) st = (st', Resolved r) →
  ∃ R, deref r st' = Some R
       ∧ NoDup (Reactive.dependencies R)
       ∧ (∀ d, d ∈ Reactive.dependencies R ↔ d ∈ default [] deps)
       ∧ (NoDup (default [] deps) → Reactive.dependencies R = default [] deps).
Proof.
  intros Hb Hc.
  destruct (create_resolved _ _ _ _ Hc)
    as (cid' & type' & v' & deps' & st1' & evs & Hb' & -> & Hheap & _).
  rewrite Hb in Hb'. injection Hb' as <- <- <- <- <-.
  eexists. split.
  { unfold deref. rewrite Hheap. apply list_lookup_middle. done. }
  cbn [new_reactive Reactive.dependencies]. unfold set_of_array.
  destruct (set_add_all (default [] deps) [] (NoDup_nil_2)) as (H1 & H2 & H3).
  split; [done|]. split.
  - intros d. rewrite H2, elem_of_nil. tauto.
  - intros Hnd. rewrite H3; [done|done|]. intros x _. apply not_elem_of_nil.
Qed.

Lemma create_dependencies_deduplicated_witness :
  ∃ R, deref 0%nat (run (create config_repeating) bare_system).1 = Some R
       ∧ NoDup (Reactive.dependencies R)
       ∧ (∀ d, d ∈ Reactive.dependencies R
               ↔ d ∈ default [] (Some ["a"; "b"; "a"; "c"; "b"]))
       ∧ (NoDup (default [] (Some ["a"; "b"; "a"; "c"; "b"])) →
          Reactive.dependencies R = default [] (Some ["a"; "b"; "a"; "c"; "b"])).
Proof.
  apply (create_dependencies_deduplicated config_repeating bare_system bare_system
           (Some "sum") "computed" (VNum 0) (Some ["a"; "b"; "a"; "c"; "b"])).
  - vm_compute. reflexivity.
  - vm_compute. reflexivity.
Defined.

(** ** Registry and subscriptions *)

Lemma removeReactive_lookups id st reactive :
  getReactive id st = Some reactive →
  System.reactives (removeReactive id st) !! id = None
  ∧ System.history (removeReactive id st) !! id = None
  ∧ System.subscriptions (removeReactive id st) !! id = None.
Proof.
  intros Hr. unfold removeReactive. rewrite Hr. fields. by rewrite !lookup_delete_eq.
Qed.

(** X8: Removing a registered reactive forgets its id in the registry, in the
    history map and in the subscriber table, whatever the [beforeDestroy]
    hooks do (they cannot veto it); the entries of every other id stay,
    the object itself is untouched, and the only calls made are
    [beforeDestroy] hooks. *)
Theorem removeReactive_forgets_id id st reactive :
  getReactive id st = Some reactive →
  getReactive id (removeReactive id st) = None
  ∧ System.history (removeReactive id st) !! id = None
  ∧ System.subscriptions (removeReactive id st) !! id = None
  ∧ (∀ id', id' ≠ id →
       getReactive id' (removeReactive id st) = getReactive id' st
       ∧ System.history (removeReactive id st) !! id' = System.history st !! id'
       ∧ System.subscriptions (removeReactive id st) !! id'
         = System.subscriptions st !! id')
  ∧ System.heap (removeReactive id st) = System.heap st
  ∧ (∃ evs, System.trace (removeReactive id st) = System.trace st ++ evs
            ∧ Forall (hook_event BeforeDestroy) evs).
Proof.
  intros Hr. unfold removeReactive. rewrite Hr.
  destruct (run_runPluginHook_traced BeforeDestroy (VReactive reactive) [] st)
    as (evs & -> & F).
  unfold getReactive. fields.
  rewrite !lookup_delete_eq. do 3 (split; [done|]).
  split; [|split; [done|by exists evs]].
  intros id' Hne. by rewrite !lookup_delete_ne.
Qed.

Lemma removeReactive_forgets_id_witness :
  getReactive "A" (removeReactive "A" system_A_used) = None
  ∧ System.history (removeReactive "A" system_A_used) !! "A" = None
  ∧ System.subscriptions (removeReactive "A" system_A_used) !! "A" = None
  ∧ (∀ id', id' ≠ "A" →
       getReactive id' (removeReactive "A" system_A_used) = getReactive id' system_A_used
       ∧ System.history (removeReactive "A" system_A_used) !! id'
         = System.history system_A_used !! id'
       ∧ System.subscriptions (removeReactive "A" system_A_used) !! id'
         = System.subscriptions system_A_used !! id')
  ∧ System.heap (removeReactive "A" system_A_used) = System.heap system_A_used
  ∧ (∃ evs, System.trace (removeReactive "A" system_A_used)
            = System.trace system_A_used ++ evs
            ∧ Forall (hook_event BeforeDestroy) evs).
Proof.
  apply (removeReactive_forgets_id "A" system_A_used 0%nat).
  vm_compute. reflexivity.
Defined.

(** X9: Removing an id twice is removing it once: the second call finds no
    entry, calls no hook and changes nothing. *)
Theorem removeReactive_idempotent id st :
  removeReactive id (removeReactive id st) = removeReactive id st.
Proof.
  assert (getReactive id (removeReactive id st) = None) as Hnone.
  { destruct (getReactive id st) as [r|] eqn:Hr.
    - by destruct (removeReactive_lookups id st r Hr).
    - unfold removeReactive. by rewrite Hr. }
  unfold removeReactive at 1. by rewrite Hnone.
Qed.



Lemma set_delete_fresh {A : Type} `{EqDecision A} (x : A) (s : list A) :
  x ∉ s → set_delete x s = s.
Proof.
  intros Hx. unfold set_delete. induction s as [|y s IH]; [done|].
  apply not_elem_of_cons in Hx as [Hne Hx].
  rewrite filter_cons_True by done. by rewrite IH.
Qed.

Lemma set_delete_add {A : Type} `{EqDecision A} (x : A) (s : list A) :
  x ∉ s → set_delete x (set_add x s) = s.
Proof.
  intros Hx. unfold set_add. rewrite decide_False by done.
  unfold set_delete. rewrite filter_app, filter_cons_False, filter_nil, app_nil_r.
  - by apply set_delete_fresh.
  - by intros H.
Qed.

(** X11: Subscribing a callback that is not yet subscribed and then calling
    the capability that [subscribe] returned restores the subscriber set
    of the id, order included; an id that had no entry is left with an
    empty set.  Nothing else in the system changes. *)
Theorem subscribe_cancel_round_trip id callback st :
  callback ∉ subscribers id st →
  subscribe_cancel id callback (subscribe id callback st)
  = System.with_subscriptions (<[id := subscribers id st]> (System.subscriptions st)) st.
Proof.
  intros Hc. unfold subscribe_cancel, subscribe. fields.
  rewrite lookup_insert_eq. fields. rewrite insert_insert_eq.
  unfold subscribers in *. by rewrite set_delete_add.
Qed.

Lemma subscribe_cancel_round_trip_witness :
  subscribe_cancel "A" 8%nat (subscribe "A" 8%nat system_A_used)
  = System.with_subscriptions
      (<["A" := subscribers "A" system_A_used]> (System.subscriptions system_A_used))
      system_A_used.
Proof.
  apply (subscribe_cancel_round_trip "A" 8%nat system_A_used).
  apply (bool_decide_unpack _). vm_compute. exact I.
Defined.

(** X12: Subscriptions are sets kept per id: subscribing a callback twice is
    subscribing it once; [unsubscribe] drops every subscriber of the id
    and only of that id, and a capability handed out before it does
    nothing afterwards. *)
Theorem subscription_sets id callback st :
  subscribe id callback (subscribe id callback st) = subscribe id callback st
  ∧ subscribers id (unsubscribe id st) = []
  ∧ subscribe_cancel id callback (unsubscribe id st) = unsubscribe id st
  ∧ (∀ id', id' ≠ id →
       subscribers id' (unsubscribe id st) = subscribers id' st
       ∧ subscribers id' (subscribe id callback st) = subscribers id' st
       ∧ subscribers id' (subscribe_cancel id callback st) = subscribers id' st).
Proof.
  split; [|split; [|split]].
  - unfold subscribe. fields. rewrite lookup_insert_eq, insert_insert_eq.
    change (default [] (Some ?x)) with x.
    replace (set_add callback
               (set_add callback (default [] (System.subscriptions st !! id))))
      with (set_add callback (default [] (System.subscriptions st !! id))); [done|].
    unfold set_add at 2. rewrite decide_True; [done|]. apply set_add_elem.
  - unfold subscribers, unsubscribe. fields. by rewrite lookup_delete_eq.
  - unfold subscribe_cancel, unsubscribe. fields. by rewrite lookup_delete_eq.
  - intros id' Hne. unfold subscribers, unsubscribe, subscribe, subscribe_cancel.
    destruct (System.subscriptions st !! id) eqn:E; fields;
      by rewrite ?lookup_delete_ne, ?lookup_insert_ne.
Qed.

(** ** One update *)

Lemma batching_traced evs st : batching (traced evs st) = batching st.
Proof. done. Qed.

(** A resolved [set] on a reactive without dependents, outside a batch
    deferral, step by step. *)
Lemma run_set_leaf fuel reactive newValue st st' obj :
  deref reactive st = Some obj → Reactive.dependents obj = [] →
  batching st = false →
  run (set_ fuel reactive newValue) st = (st', Resolved tt) →
  ∃ evs1 evs2 evs3 v1 v2,
    run (runMiddleware PhaseBefore newValue reactive) st = (traced evs1 st, Resolved v1)
    ∧ run (runPluginHook BeforeUpdate v1 [Reactive.value obj]) (traced evs1 st)
      = (traced (evs1 ++ evs2) st, Resolved v2)
    ∧ st' = traced evs3
              (commit reactive (Reactive.value obj) v2 (traced (evs1 ++ evs2) st)).
Proof.
  intros Hobj Hdeps Hb Hrun.
  apply run_set_resolved in Hrun as (fuel' & st1 & pv & st2 & x & -> & E1 & E2 & E3).
  destruct (pres_run _ _ _ _ _ (runMiddleware_logs _ _ _ _) E1) as (evs1 & -> & _).
  destruct (pres_run _ _ _ _ _ (runMiddleware_logs _ _ _ _) E3) as (evs3 & -> & _).
  rewrite run_updateReactiveValue, batching_traced, Hb in E2.
  assert (value_of reactive (traced evs1 st) = Reactive.value obj) as Hv.
  { unfold value_of. by rewrite deref_traced, Hobj. }
  rewrite Hv in E2.
  destruct (run (runPluginHook BeforeUpdate _ _) (traced evs1 st))
    as [st1' [pv'|e|]] eqn:Eh; [|done|done].
  destruct (pres_run _ _ _ _ _ (runPluginHook_logs _ _ _ _) Eh) as (evs2 & -> & _).
  cbn [and_then] in E2. rewrite traced_traced in E2, Eh.
  set (stc := commit reactive (Reactive.value obj) pv' (traced (evs1 ++ evs2) st)) in *.
  assert (Hc : deref reactive stc = Some (write_value pv' (System.now st) obj)).
  { unfold stc. by erewrite deref_commit. }
  unfold notifyDependents in E2. rewrite run_bind, run_gets in E2.
  unfold dependents_of in E2. rewrite Hc in E2.
  cbn [from_option write_value Reactive.with_meta Reactive.with_value
       Reactive.dependents] in E2.
  rewrite Hdeps, notifyDependents_loop_nil in E2. cbn [run and_then] in E2.
  destruct (run (runPluginHook AfterUpdate _ _) stc) as [st3 [?|e|]] eqn:Ea; [|done|done].
  destruct (pres_run _ _ _ _ _ (runPluginHook_logs _ _ _ _) Ea) as (evs4 & -> & _).
  cbn [and_then] in E2. injection E2 as <-.
  exists evs1, evs2, (evs4 ++ evs3), pv, pv'.
  split; [done|]. split; [done|]. by rewrite traced_traced.
Qed.

Lemma deref_commit_other reactive r' oldValue processedValue st :
  r' ≠ reactive →
  deref r' (commit reactive oldValue processedValue st) = deref r' st.
Proof.
  intros Hne. unfold commit. fields.
  assert (deref r' (update_object reactive
                      (write_value processedValue (System.now st)) st) = deref r' st) as H.
  { unfold deref. fields. by apply list_lookup_alter_ne. }
  by destruct (Options.enableHistory (System.options st)).
Qed.

(** X13: What a successful update writes (hooks and middleware compute their
    results from their arguments): the reactive's value becomes the value
    that the [before] middleware and then the [beforeUpdate] hooks made of
    the argument, its update count goes up by one and its last update is
    now; its status and its error are left as they were, so a successful
    update does not clear an earlier error. *)
Theorem set_on_leaf_writes fuel reactive newValue st st' obj :
  deref reactive st = Some obj → Reactive.dependents obj = [] →
  batching st = false →
  run (set_ fuel reactive newValue) st = (st', Resolved tt) →
  ∃ st1 v1 st2 v2 obj',
    run (runMiddleware PhaseBefore newValue reactive) st = (st1, Resolved v1)
    ∧ run (runPluginHook BeforeUpdate v1 [Reactive.value obj]) st1 = (st2, Resolved v2)
    ∧ deref reactive st' = Some obj'
    ∧ Reactive.value obj' = v2
    ∧ ReactiveMetadata.updateCount (Reactive.meta obj')
      = S (ReactiveMetadata.updateCount (Reactive.meta obj))
    ∧ ReactiveMetadata.lastUpdated (Reactive.meta obj') = Some (System.now st)
    ∧ ReactiveMetadata.status (Reactive.meta obj')
      = ReactiveMetadata.status (Reactive.meta obj)
    ∧ ReactiveMetadata.error (Reactive.meta obj')
      = ReactiveMetadata.error (Reactive.meta obj).
Proof.
  intros Hobj Hdeps Hb Hrun.
  destruct (run_set_leaf _ _ _ _ _ _ Hobj Hdeps Hb Hrun)
    as (evs1 & evs2 & evs3 & v1 & v2 & E1 & E2 & ->).
  eexists _, v1, _, v2, _. split; [exact E1|]. split; [exact E2|]. split.
  - rewrite deref_traced. erewrite deref_commit by (by rewrite deref_traced). done.
  - done.
Qed.

Lemma set_on_leaf_writes_witness :
  ∃ st1 v1 st2 v2 obj',
    run (runMiddleware PhaseBefore (VNum 1) 0%nat) system_validation_set.1
      = (st1, Resolved v1)
    ∧ run (runPluginHook BeforeUpdate v1
             [Reactive.value
                (mark_error (MkError "Value cannot be null")
                   (new_reactive "A" "state" (VNum 0) None 0))]) st1
      = (st2, Resolved v2)
    ∧ deref 0%nat (run (set_ 5 0%nat (VNum 1)) system_validation_set.1).1 = Some obj'
    ∧ Reactive.value obj' = v2
    ∧ ReactiveMetadata.updateCount (Reactive.meta obj')
      = S (ReactiveMetadata.updateCount
             (Reactive.meta
                (mark_error (MkError "Value cannot be null")
                   (new_reactive "A" "state" (VNum 0) None 0))))
    ∧ ReactiveMetadata.lastUpdated (Reactive.meta obj')
      = Some (System.now system_validation_set.1)
    ∧ ReactiveMetadata.status (Reactive.meta obj')
      = ReactiveMetadata.status
          (Reactive.meta
             (mark_error (MkError "Value cannot be null")
                (new_reactive "A" "state" (VNum 0) None 0)))
    ∧ ReactiveMetadata.error (Reactive.meta obj')
      = ReactiveMetadata.error
          (Reactive.meta
             (mark_error (MkError "Value cannot be null")
                (new_reactive "A" "state" (VNum 0) None 0))).
Proof.
  apply (set_on_leaf_writes 5 0%nat (VNum 1) system_validation_set.1
           (run (set_ 5 0%nat (VNum 1)) system_validation_set.1).1
           (mark_error (MkError "Value cannot be null")
              (new_reactive "A" "state" (VNum 0) None 0))).
  - vm_compute. reflexivity.
  - reflexivity.
  - vm_compute. reflexivity.
  - vm_compute. reflexivity.
Defined.

Lemma removeReactive_frame id st :
  System.options (removeReactive id st) = System.options st
  ∧ System.batchQueue (removeReactive id st) = System.batchQueue st
  ∧ System.plugins (removeReactive id st) = System.plugins st
  ∧ System.middleware (removeReactive id st) = System.middleware st.
Proof.
  unfold removeReactive. destruct (getReactive id st) as [r|]; [|done].
  by destruct (run_runPluginHook_traced BeforeDestroy (VReactive r) [] st) as (evs & -> & _).
Qed.

(** ** Invariants of an update *)

(** A relation between the states before and after that each elementary
    step of the engine establishes, and that is reflexive and transitive,
    holds across every [set], whatever its outcome and however far it
    propagates. *)
Section Invariant.
Variable R : System.t → System.t → Prop.
Hypothesis R_refl : ∀ st, R st st.
Hypothesis R_trans : ∀ st1 st2 st3, R st1 st2 → R st2 st3 → R st1 st3.
Hypothesis R_emit : ∀ ev st, R st (System.with_trace (System.trace st ++ [ev]) st).
Hypothesis R_mark : ∀ r e st, R st (update_object r (mark_error e) st).
Hypothesis R_write :
  ∀ r v st, R st (update_object r (write_value v (System.now st)) st).
Hypothesis R_history :
  ∀ id v st, Options.enableHistory (System.options st) = true →
             R st (updateHistory id v st).
Hypothesis R_enqueue :
  ∀ id v st, batching st = true →
             R st (System.with_batchQueue (map_set id v (System.batchQueue st)) st).

Local Ltac inv_step :=
  lazymatch goal with
  | |- pres _ (mbind _ _) _ =>
      apply pres_bind; [exact R_trans| |intros ? ? ? ?]
  | |- pres _ (Ret _) _ => apply pres_ret; exact R_refl
  | |- pres _ (Throw _) _ => apply pres_throw; exact R_refl
  | |- pres _ Spin _ => apply pres_spin; exact R_refl
  | |- pres _ (gets _) _ => apply pres_gets; exact R_refl
  | |- pres _ (await_value _) _ => apply pres_await_value; exact R_refl
  | |- pres _ (emit _) _ => apply pres_modify; apply R_emit
  | |- pres _ (await _) _ => apply pres_await
  | |- pres _ (Yield _) _ => apply pres_yield
  end.

Lemma inv_runPluginHook_loop hook plugins result args st :
  pres R (runPluginHook_loop hook plugins result args) st.
Proof.
  revert result st. induction plugins as [|[k plugin] plugins IH]; intros result st;
    cbn [runPluginHook_loop].
  - inv_step.
  - destruct (get_hook hook plugin) as [hookFn|]; [|apply IH].
    inv_step; [inv_step|]. inv_step; [inv_step|]. inv_step; [inv_step|]. apply IH.
Qed.

Lemma inv_runPluginHook hook value args st : pres R (runPluginHook hook value args) st.
Proof.
  unfold runPluginHook. inv_step; [inv_step|]. apply inv_runPluginHook_loop.
Qed.

Lemma inv_runMiddleware_loop phase timestamp middlewares result reactive st :
  pres R (runMiddleware_loop phase timestamp middlewares result reactive) st.
Proof.
  revert result st. induction middlewares as [|middleware middlewares IH];
    intros result st; cbn [runMiddleware_loop].
  - inv_step.
  - destruct (middleware_handler phase middleware) as [handler|]; [|apply IH].
    inv_step; [inv_step|]. inv_step; [inv_step|]. inv_step; [inv_step|]. apply IH.
Qed.

Lemma inv_runMiddleware phase value reactive st :
  pres R (runMiddleware phase value reactive) st.
Proof.
  unfold runMiddleware. inv_step; [inv_step|]. inv_step; [inv_step|].
  apply inv_runMiddleware_loop.
Qed.

Lemma inv_handleError_plugins plugins error reactive phase st :
  pres R (handleError_plugins plugins error reactive phase) st.
Proof.
  revert st. induction plugins as [|[k plugin] plugins IH]; intros st;
    cbn [handleError_plugins].
  - inv_step.
  - inv_step; [|apply IH].
    destruct (Plugin.handleError plugin) as [handler|].
    + inv_step; [inv_step|]. inv_step; [inv_step|]. inv_step.
    + inv_step. inv_step.
Qed.

Lemma inv_handleError_middleware middlewares error reactive st :
  pres R (handleError_middleware middlewares error reactive) st.
Proof.
  revert st. induction middlewares as [|middleware middlewares IH]; intros st;
    cbn [handleError_middleware].
  - inv_step.
  - inv_step; [|apply IH].
    destruct (Middleware.error middleware) as [handler|].
    + inv_step; [inv_step|]. inv_step; [inv_step|]. inv_step.
    + inv_step. inv_step.
Qed.

Lemma inv_handleError error reactive phase st :
  pres R (handleError error reactive phase) st.
Proof.
  unfold handleError.
  inv_step; [apply pres_modify, R_mark|].
  inv_step; [inv_step|]. inv_step; [apply inv_handleError_plugins|].
  inv_step; [inv_step|]. inv_step; [apply inv_handleError_middleware|].
  inv_step.
Qed.

Lemma inv_notifyDependents_loop set_rec n visited queue st :
  (∀ r v st', pres R (set_rec r v) st') →
  pres R (notifyDependents_loop set_rec n visited queue) st.
Proof.
  intros Hset. revert visited queue st.
  induction n as [|n IH]; intros visited [|dependentId queue] st;
    cbn [notifyDependents_loop]; try inv_step.
  destruct (decide (dependentId ∈ visited)); [apply IH|].
  inv_step; [inv_step|].
  destruct a as [d|]; [|apply IH].
  inv_step; [inv_step|]. inv_step.
  - destruct (from_option Reactive.has_set false a); [|inv_step].
    inv_step. apply Hset.
  - inv_step; [inv_step|]. apply IH.
Qed.

Lemma inv_notifyDependents set_rec n reactive st :
  (∀ r v st', pres R (set_rec r v) st') →
  pres R (notifyDependents set_rec n reactive) st.
Proof.
  intros Hset. unfold notifyDependents. inv_step; [inv_step|].
  by apply inv_notifyDependents_loop.
Qed.

Lemma inv_updateReactiveValue set_rec n reactive newValue st :
  (∀ r v st', pres R (set_rec r v) st') →
  pres R (updateReactiveValue set_rec n reactive newValue) st.
Proof.
  intros Hset. unfold updateReactiveValue. inv_step; [inv_step|].
  injection H as <- <-.
  destruct (batching st) eqn:Hb; [by apply pres_modify, R_enqueue|].
  inv_step; [inv_step; apply inv_runPluginHook|].
  inv_step; [apply pres_modify, R_write|].
  inv_step; [inv_step|].
  inv_step.
  { match goal with
    | E : run (gets _) _ = (_, Resolved _) |- _ => injection E as <- <-
    end.
    destruct (Options.enableHistory (System.options _)) eqn:Hen; [|inv_step].
    by apply pres_modify, R_history. }
  inv_step; [inv_step; by apply inv_notifyDependents|].
  inv_step; [inv_step; apply inv_runPluginHook|]. inv_step.
Qed.

Lemma inv_set_ fuel reactive newValue st : pres R (set_ fuel reactive newValue) st.
Proof.
  revert reactive newValue st.
  induction fuel as [|fuel IH]; intros reactive newValue st; cbn [set_].
  - inv_step.
  - apply pres_catch; [exact R_trans| |intros e st' _ _].
    + inv_step; [inv_step; apply inv_runMiddleware|].
      inv_step; [inv_step; by apply inv_updateReactiveValue|].
      inv_step; [inv_step|].
      inv_step; [inv_step; apply inv_runMiddleware|]. inv_step.
    + inv_step. apply inv_handleError.
Qed.

End Invariant.

Lemma Forall2_alter_related {A : Type} (P : A → A → Prop) (f : A → A) (i : nat)
    (l : list A) :
  (∀ x, P x x) → (∀ x, P x (f x)) → Forall2 P l (alter f i l).
Proof.
  intros Hrefl Hf. revert i. induction l as [|x l IH]; intros [|i]; simpl.
  - constructor.
  - constructor.
  - constructor; [apply Hf|]. by apply Forall_Forall2_diag, Forall_forall.
  - constructor; [apply Hrefl | apply IH].
Qed.

Lemma ages_refl a : ages a a.
Proof. unfold ages. auto. Qed.

Lemma ages_trans a b c : ages a b → ages b c → ages a c.
Proof.
  unfold ages. intros (H1 & H2 & H4) (H1' & H2' & H4').
  split; [lia|]. split; [congruence|].
  destruct H4' as [H4'|H4']; [|by right]. rewrite H4'. done.
Qed.

Lemma heap_ages_refl st : heap_ages st st.
Proof. apply Forall_Forall2_diag, Forall_forall. intros. apply ages_refl. Qed.

Lemma heap_ages_set fuel reactive newValue st :
  pres heap_ages (set_ fuel reactive newValue) st.
Proof.
  apply inv_set_.
  - apply heap_ages_refl.
  - intros st1 st2 st3 H1 H2. eapply Forall2_trans; [|exact H1|exact H2].
    intros a b c. apply ages_trans.
  - intros ev st0. exact (heap_ages_refl st0).
  - intros r e st0. unfold heap_ages. fields.
    apply Forall2_alter_related; [apply ages_refl|].
    intros x. unfold ages. cbn. auto.
  - intros r v st0. unfold heap_ages. fields.
    apply Forall2_alter_related; [apply ages_refl|].
    intros x. unfold ages. cbn. auto.
  - intros id v st0 _. exact (heap_ages_refl st0).
  - intros id v st0 _. exact (heap_ages_refl st0).
Qed.

(** X15: Whatever a [set] does, and however it ends, every object of the
    system keeps its id, its mutator, its edges and its type; its update
    count does not go down, its creation date stays, and its status is
    either what it was or ["error"]: the engine never moves a status to
    ["loading"] or ["success"], or back to ["idle"]. *)
Theorem set_ages_objects fuel reactive newValue st r obj :
  deref r st = Some obj →
  ∃ obj', deref r (run (set_ fuel reactive newValue) st).1 = Some obj'
          ∧ same_node obj obj' ∧ ages obj obj'.
Proof.
  intros Hobj.
  pose proof (heap_ages_set fuel reactive newValue st) as Hages.
  pose proof (keeps_set_ fuel reactive newValue st) as Hev.
  unfold pres in *. destruct (run (set_ fuel reactive newValue) st) as [st' o].
  cbn [fst] in *.
  destruct (evolves_deref _ _ _ _ Hev Hobj) as (obj' & Hobj' & Hsame).
  exists obj'. split; [done|]. split; [done|].
  unfold heap_ages in Hages. unfold deref in *.
  by eapply Forall2_lookup_lr.
Qed.

Lemma set_ages_objects_witness :
  ∃ obj', deref 2%nat (run (set_ 10 0%nat (VNum 1)) system_chain).1 = Some obj'
          ∧ same_node (new_reactive "C" "state" (VNum 0) (Some ["B"]) 0) obj'
          ∧ ages (new_reactive "C" "state" (VNum 0) (Some ["B"]) 0) obj'.
Proof.
  apply (set_ages_objects 10 0%nat (VNum 1) system_chain 2%nat
           (new_reactive "C" "state" (VNum 0) (Some ["B"]) 0)).
  vm_compute. reflexivity.
Defined.

Lemma history_kept_set fuel reactive newValue st :
  pres history_kept (set_ fuel reactive newValue) st.
Proof.
  apply inv_set_; unfold history_kept.
  - done.
  - intros st1 st2 st3 [H1 H1'] [H2 H2']. split; [congruence|].
    intros Hoff. rewrite H2', H1'; [done|done|congruence].
  - done.
  - done.
  - done.
  - intros id v st0 Hon. split; [done|]. congruence.
  - done.
Qed.

(** X16: With history disabled, as it is by default, no [set] records
    anything: the history map stays exactly as it was, whatever the
    outcome of the call and however far it propagates. *)
Theorem set_without_history_records_nothing fuel reactive newValue st :
  Options.enableHistory (System.options st) = false →
  System.history (run (set_ fuel reactive newValue) st).1 = System.history st.
Proof.
  intros Hoff. destruct (history_kept_set fuel reactive newValue st) as [_ H].
  by apply H.
Qed.

Lemma set_without_history_records_nothing_witness :
  System.history (run (set_ 10 0%nat (VNum 1)) system_chain).1
  = System.history system_chain.
Proof.
  apply (set_without_history_records_nothing 10 0%nat (VNum 1) system_chain).
  reflexivity.
Defined.

Lemma history_bounded_updateHistory id v st :
  history_bounded st → history_bounded (updateHistory id v st).
Proof.
  intros Hb id' log N HN. unfold updateHistory in *. fields. rewrite HN.
  destruct (decide (id' = id)) as [->|Hne].
  - rewrite lookup_insert_eq. intros [= <-].
    assert (List.length (default [] (System.history st !! id)) ≤ Z.to_nat N)%nat as Hold.
    { destruct (System.history st !! id) as [old|] eqn:E; [by apply (Hb id old N)|].
      cbn. lia. }
    set (old := default [] (System.history st !! id)) in *.
    destruct (Z.gtb_spec (Z.of_nat (List.length (old ++ [v]))) N) as [Hgt|Hle].
    + destruct old; cbn [app tail List.length] in *; [lia|].
      rewrite length_app. cbn [List.length]. lia.
    + rewrite length_app in *. cbn [List.length] in *. lia.
  - rewrite lookup_insert_ne by done. by apply Hb.
Qed.

Lemma bound_kept_set fuel reactive newValue st :
  pres bound_kept (set_ fuel reactive newValue) st.
Proof.
  apply inv_set_; unfold bound_kept.
  - done.
  - intros st1 st2 st3 [H1 H1'] [H2 H2']. split; [congruence|auto].
  - done.
  - done.
  - done.
  - intros id v st0 _. split; [done|]. apply history_bounded_updateHistory.
  - done.
Qed.

Lemma create_frame config st :
  System.history (run (create config) st).1 = System.history st
  ∧ System.options (run (create config) st).1 = System.options st.
Proof.
  rewrite run_create.
  pose proof (runPluginHook_logs BeforeCreate (config_value config) [] st)
    as (evs1 & E1 & _).
  destruct (run (runPluginHook BeforeCreate (config_value config) []) st)
    as [st1 [processedConfig|e|]]; cbn [fst and_then] in *; subst st1; [|done|done].
  assert (System.history (run (createReactive processedConfig) (traced evs1 st)).1
          = System.history st
          ∧ System.options (run (createReactive processedConfig) (traced evs1 st)).1
            = System.options st) as Hcr.
  { destruct processedConfig as [| | | | |cid type v deps|]; try done.
    rewrite run_createReactive. cbn zeta. cbn [fst]. fields.
    destruct (choose_id_frame cid (traced evs1 st)) as (_ & _ & Hh & _ & _ & Ho & _).
    by rewrite Hh, Ho. }
  destruct (run (createReactive processedConfig) (traced evs1 st))
    as [st2 [r|e|]]; cbn [fst and_then] in *; [|done|done].
  pose proof (runPluginHook_logs AfterCreate (VReactive r) [] st2) as (evs2 & E2 & _).
  destruct (run (runPluginHook AfterCreate (VReactive r) []) st2)
    as [st3 [w|e|]]; cbn [fst and_then] in *; subst st3; done.
Qed.

Lemma initializePlugins_history plugins st :
  System.history (initializePlugins plugins st) = System.history st.
Proof.
  unfold initializePlugins. revert st.
  induction plugins as [|p ps IH]; intros st; cbn [foldl]; [done|].
  rewrite IH. generalize (default [] (Plugin.initialize p)).
  set (st1 := System.Build _ _ _ _ _ _ _ _ _ _ _ _).
  change (System.history st) with (System.history st1). generalize st1.
  clear. intros st1 objs. revert st1.
  induction objs as [|obj objs IH]; intros st1; cbn [foldl]; [done|].
  rewrite IH. unfold register_new, alloc, registerReactive, deref. fields.
  by destruct (_ !! _).
Qed.

(** A new system has no history. *)
Lemma history_bounded_new config now uuids :
  history_bounded (ComponentSystem config now uuids).
Proof.
  intros id log N _. unfold ComponentSystem. fields.
  rewrite initializePlugins_history. fields. by rewrite lookup_empty.
Qed.

(** X17: The history bound is an invariant of the engine when [historySize] is
    a number: if every log holds at most [historySize] values (as in a
    new system, which has no log), the same is true after [create], after
    [removeReactive] and after every [set], whatever its outcome.  So no
    log ever grows beyond a numeric [historySize] (it stays empty when the
    size is zero or negative).  When the config gives a [historySize] that
    is not a number ([historySize: undefined]), nothing is ever evicted:
    every recorded value makes the log one longer. *)
Theorem history_stays_bounded st :
  history_bounded st →
  (∀ fuel reactive newValue, history_bounded (run (set_ fuel reactive newValue) st).1)
  ∧ (∀ config, history_bounded (run (create config) st).1)
  ∧ (∀ id, history_bounded (removeReactive id st))
  ∧ (Options.historySize (System.options st) = None →
     ∀ id value, history_of id (updateHistory id value st) = history_of id st ++ [value]).
Proof.
  intros Hb; split; [|split; [|split]].
  - intros fuel reactive newValue.
    destruct (bound_kept_set fuel reactive newValue st) as [_ H]. by apply H.
  - intros config' id log N. destruct (create_frame config' st) as [Hh Ho].
    rewrite Hh, Ho. apply Hb.
  - intros id id' log N. destruct (removeReactive_frame id st) as (Ho & _).
    rewrite Ho. unfold removeReactive.
    destruct (getReactive id st) as [r|]; [|apply Hb].
    destruct (run_runPluginHook_traced BeforeDestroy (VReactive r) [] st) as (evs & -> & _).
    fields. intros HN. destruct (decide (id' = id)) as [->|Hne].
    + by rewrite lookup_delete_eq.
    + rewrite lookup_delete_ne by done. by apply Hb.
  - intros HN id value. by rewrite history_of_updateHistory, HN.
Qed.

Lemma history_stays_bounded_witness :
  (∀ fuel reactive newValue,
     history_bounded (run (set_ fuel reactive newValue) system_history3).1)
  ∧ (∀ config, history_bounded (run (create config) system_history3).1)
  ∧ (∀ id, history_bounded (removeReactive id system_history3))
  ∧ (Options.historySize (System.options system_history3) = None →
     ∀ id value,
       history_of id (updateHistory id value system_history3)
       = history_of id system_history3 ++ [value]).
Proof.
  apply (history_stays_bounded system_history3).
  intros id log N _ H. vm_compute in H. discriminate H.
Defined.

(** With [historySize: undefined] in the config the log is unbounded:
    twelve commits leave twelve entries, two more than the default size
    that the config overrode. *)
Lemma history_unbounded_for_undefined_size :
  Options.historySize (System.options system_unbounded) = None
  ∧ (List.length
       (history_of "A"
          (from_option snd system_unbounded
             (commits 5 0%nat (VNum <$> [1; 2; 3; 4; 5; 6; 7; 8; 9; 10; 11; 12]%Z)
                system_unbounded))) = 12)%nat.
Proof. split; vm_compute; reflexivity. Qed.

(** ** [batch] *)

Lemma run_resume {A : Type} (t : Task A) st :
  run (resume t st).2 (resume t st).1 = run t st.
Proof.
  revert st. induction t as [a|e| |k IH|s k IH|k IH]; intros st; cbn [resume run];
    try done.
Qed.

Lemma yields_resume {A : Type} (t : Task A) st :
  settled (resume t st).2 = true
  ∨ S (yields (resume t st).2 (resume t st).1) = yields t st.
Proof.
  revert st. induction t as [a|e| |k IH|s k IH|k IH]; intros st;
    cbn [resume yields settled fst snd]; auto.
Qed.

Lemma reported_settled (t : Task unit) st :
  settled t = true → reported (st, [t], first_rejection None t) = run t st.
Proof. by destruct t as [[]| | | | |]. Qed.

Lemma drain_single (steps : nat) (t : Task unit) st :
  settled t = true ∨ (yields t st < steps)%nat →
  reported (drain steps [t] st (first_rejection None t)) = run t st.
Proof.
  revert t st. induction steps as [|steps IH]; intros t st Hsteps; cbn [drain].
  - destruct Hsteps as [Hs|?]; [|lia]. by apply reported_settled.
  - cbn [forallb]. destruct (settled t) eqn:Hs; cbn [andb].
    + by apply reported_settled.
    + destruct Hsteps as [?|Hsteps]; [done|].
      cbn [sweep]. rewrite Hs. cbn [orb negb].
      destruct (resume t st) as [st2 t2] eqn:Hr.
      assert (first_rejection None t = None) as -> by (by destruct t).
      rewrite <-(run_resume t st), Hr. cbn [fst snd]. apply IH.
      pose proof (yields_resume t st) as Hy. rewrite Hr in Hy. cbn [fst snd] in Hy.
      destruct Hy as [?|Hy]; [by left|right; lia].
Qed.

Lemma all_single (steps : nat) (t : Task unit) st :
  (yields t st ≤ steps)%nat → all_ steps [t] st = run t st.
Proof.
  intros Hsteps. unfold all_. cbn [sweep orb].
  destruct (resume t st) as [st1 t1] eqn:Hr.
  pose proof (drain_single steps t1 st1) as Hd.
  pose proof (yields_resume t st) as Hy. rewrite Hr in Hy. cbn [fst snd] in Hy.
  rewrite <-(run_resume t st), Hr. cbn [fst snd]. rewrite <-Hd.
  - unfold reported.
    by destruct (drain steps [t1] st1 (first_rejection None t1)) as [[st' ts] [e|]].
  - destruct Hy as [?|Hy]; [by left|right; lia].
Qed.

(** X18: A batch of one operation is that operation: when the operation, run
    alone, leaves the pending map empty (as every [set] does that starts
    with it empty), [batch] ends in the state and with the outcome of
    running the operation by itself; there is nothing to flush. *)
Theorem batch_of_one_operation (steps : nat) (operation : Task unit) st :
  (yields operation st ≤ steps)%nat →
  System.batchQueue (run operation st).1 = [] →
  batch steps [operation] st = run operation st.
Proof.
  intros Hsteps Hq. unfold batch. rewrite all_single by done.
  destruct (run operation st) as [st' [[]|e|]]; try done.
  cbn [fst] in Hq. rewrite Hq. cbn [fmap list_fmap].
  unfold all_. cbn [sweep drain forallb]. destruct steps; cbn [drain forallb];
    destruct st'; cbn in *; by subst.
Qed.

Lemma batch_of_one_operation_witness :
  batch 30 [set_operation (VNum 1)] system_batching
  = run (set_operation (VNum 1)) system_batching.
Proof.
  apply (batch_of_one_operation 30 (set_operation (VNum 1)) system_batching).
  - vm_compute. lia.
  - vm_compute. reflexivity.
Defined.

(** ** Construction *)

Lemma find_last_app id objs1 objs2 :
  find_last id (objs1 ++ objs2) =
  match find_last id objs2 with
  | Some i => Some (List.length objs1 + i)%nat
  | None => find_last id objs1
  end.
Proof.
  induction objs1 as [|obj objs1 IH]; cbn [app find_last List.length].
  - by destruct (find_last id objs2).
  - rewrite IH. by destruct (find_last id objs2).
Qed.

Lemma find_last_Some id objs i :
  find_last id objs = Some i →
  ∃ obj, objs !! i = Some obj ∧ Reactive.id obj = id
         ∧ ∀ j obj', (i < j)%nat → objs !! j = Some obj' → Reactive.id obj' ≠ id.
Proof.
  revert i. induction objs as [|obj objs IH]; intros i; cbn [find_last]; [done|].
  destruct (find_last id objs) as [i'|] eqn:E.
  - intros [= <-]. destruct (IH i' eq_refl) as (o & Ho & Hid & Hlast).
    exists o. split; [done|]. split; [done|].
    intros [|j] obj' Hlt Hj; [lia|]. apply (Hlast j); [lia|done].
  - destruct (decide (Reactive.id obj = id)) as [Hid|]; [|done].
    intros [= <-]. exists obj. split; [done|]. split; [done|].
    intros [|j] obj' Hlt Hj; [lia|]. cbn in Hj. intros Hid'.
    clear IH. revert j Hj E Hlt. clear -Hid'. revert obj' Hid'.
    induction objs as [|o objs IH]; intros obj' Hid' j Hj; [done|].
    cbn [find_last]. destruct (find_last id objs) eqn:E; [done|].
    destruct j as [|j]; cbn in Hj.
    + injection Hj as ->. by rewrite decide_True.
    + intros _ _. by eapply (IH obj' Hid' j Hj eq_refl); lia.
Qed.

Lemma register_new_spec obj st :
  System.heap (register_new obj st) = System.heap st ++ [obj]
  ∧ System.reactives (register_new obj st)
    = <[Reactive.id obj := List.length (System.heap st)]> (System.reactives st).
Proof.
  unfold register_new, alloc, registerReactive, deref. fields.
  by rewrite list_lookup_middle.
Qed.

Lemma register_all_spec objs st :
  System.heap (foldl (λ st obj, register_new obj st) st objs) = System.heap st ++ objs
  ∧ ∀ id, System.reactives (foldl (λ st obj, register_new obj st) st objs) !! id
          = match find_last id objs with
            | Some i => Some (List.length (System.heap st) + i)%nat
            | None => System.reactives st !! id
            end.
Proof.
  revert st. induction objs as [|obj objs IH]; intros st; cbn [foldl find_last].
  - by rewrite app_nil_r.
  - destruct (IH (register_new obj st)) as [Hh Hr].
    destruct (register_new_spec obj st) as [Hh1 Hr1].
    split; [by rewrite Hh, Hh1, <-app_assoc|].
    intros id. rewrite Hr, Hh1, Hr1, length_app. cbn [List.length].
    destruct (find_last id objs) as [i|]; [f_equal; lia|].
    destruct (decide (Reactive.id obj = id)) as [->|Hne].
    + rewrite lookup_insert_eq. f_equal. lia.
    + by rewrite lookup_insert_ne.
Qed.

Lemma initializePlugins_spec plugins st :
  System.heap (initializePlugins plugins st) = System.heap st ++ initialized plugins
  ∧ ∀ id, System.reactives (initializePlugins plugins st) !! id
          = match find_last id (initialized plugins) with
            | Some i => Some (List.length (System.heap st) + i)%nat
            | None => System.reactives st !! id
            end.
Proof.
  unfold initializePlugins, initialized. revert st.
  induction plugins as [|plugin plugins IH]; intros st;
    cbn [foldl fmap list_fmap mjoin list_join find_last].
  - by rewrite app_nil_r.
  - set (st1 := System.Build _ _ _ _ _ _ _ _ _ _ _ _).
    destruct (register_all_spec (default [] (Plugin.initialize plugin)) st1) as [Hh1 Hr1].
    destruct (IH (foldl (λ st obj, register_new obj st) st1
                    (default [] (Plugin.initialize plugin)))) as [Hh Hr].
    split; [by rewrite Hh, Hh1, <-app_assoc|].
    intros id. rewrite Hr, Hh1, Hr1, find_last_app, length_app.
    destruct (find_last id (mjoin _)) as [i|]; [f_equal; cbn; lia|done].
Qed.

(** X19: The constructor runs [initialize] of every plugin of the list, in
    order, also of a plugin that a later plugin of the same name replaces
    in the plugin map: the objects of the new system are the reactives
    these calls registered, and the registry maps an id to the last of
    them that carries it. *)
Theorem initialize_runs_for_every_plugin config now uuids :
  System.heap (ComponentSystem config now uuids)
  = initialized (default [] (SystemConfig.plugins config))
  ∧ ∀ id, getReactive id (ComponentSystem config now uuids)
          = find_last id (initialized (default [] (SystemConfig.plugins config))).
Proof.
  unfold ComponentSystem, getReactive. fields.
  set (st0 := System.Build _ _ _ _ _ _ _ _ _ _ _ _).
  destruct (initializePlugins_spec (default [] (SystemConfig.plugins config)) st0)
    as [Hh Hr].
  split; [by rewrite Hh|].
  intros id. rewrite Hr. by destruct (find_last id _).
Qed.

Lemma map_set_keys {V : Type} (k : string) (v : V) (m : list (string * V)) :
  NoDup m.*1 →
  NoDup (map_set k v m).*1
  ∧ ∀ k' v', (k', v') ∈ map_set k v m ↔ (k' = k ∧ v' = v) ∨ (k' ≠ k ∧ (k', v') ∈ m).
Proof.
  induction m as [|[k0 v0] m IH]; intros Hnd; cbn [map_set fmap list_fmap fst].
  - split; [apply NoDup_singleton|]. intros k' v'.
    rewrite list_elem_of_singleton, elem_of_nil. split.
    + intros [= -> ->]. by left.
    + intros [[-> ->]|[_ []]]. done.
  - cbn [fmap list_fmap fst] in Hnd. apply NoDup_cons in Hnd as [Hk0 Hnd].
    destruct (IH Hnd) as [IH1 IH2].
    destruct (decide (k = k0)) as [->|Hne]; cbn [fmap list_fmap fst].
    + split; [by apply NoDup_cons|]. intros k' v'. rewrite !elem_of_cons. split.
      * intros [[= -> ->]|Hin]; [by left|]. right. split; [|by right].
        intros ->. apply Hk0. by apply (list_elem_of_fmap_2 fst _ (k0, v')).
      * intros [[-> ->]|[Hne [[= -> ->]|Hin]]]; [by left|done|by right].
    + split.
      * apply NoDup_cons. split; [|done].
        intros Hin. apply list_elem_of_fmap in Hin as [[k1 v1] [Hk Hin]].
        cbn in Hk. subst k1. apply IH2 in Hin as [[-> _]|[_ Hin]]; [done|].
        apply Hk0. by apply (list_elem_of_fmap_2 fst _ (k0, v1)).
      * intros k' v'. rewrite !elem_of_cons, IH2. split.
        -- intros [[= -> ->]|[[-> ->]|[? ?]]]; [right; split; [done|by left]|by left|].
           right. split; [done|by right].
        -- intros [[-> ->]|[? [[= -> ->]|?]]]; [right; by left|by left|].
           right. by right.
Qed.

Lemma last_named_snoc name plugins plugin :
  last_named name (plugins ++ [plugin])
  = if decide (Plugin.name plugin = name) then Some plugin else last_named name plugins.
Proof.
  unfold last_named. rewrite filter_app.
  destruct (decide (Plugin.name plugin = name)) as [Hn|Hn].
  - rewrite (filter_cons_True (λ q, Plugin.name q = name) plugin [] Hn). apply last_snoc.
  - rewrite (filter_cons_False (λ q, Plugin.name q = name) plugin [] Hn).
    by rewrite app_nil_r.
Qed.

Lemma plugin_map_spec (plugins : list Plugin.t) :
  NoDup (foldl (λ m plugin, map_set (Plugin.name plugin) plugin m) [] plugins).*1
  ∧ ∀ name plugin,
      (name, plugin) ∈ foldl (λ m plugin, map_set (Plugin.name plugin) plugin m) [] plugins
      ↔ last_named name plugins = Some plugin.
Proof.
  induction plugins as [|plugin plugins IH] using rev_ind.
  - split; [constructor|]. intros name plugin. cbn [foldl]. rewrite elem_of_nil.
    split; [done|]. intros H. by cbv in H.
  - rewrite foldl_app. cbn [foldl]. destruct IH as [IH1 IH2].
    destruct (map_set_keys (Plugin.name plugin) plugin _ IH1) as [H1 H2].
    split; [done|]. intros name p. rewrite H2, last_named_snoc, IH2.
    destruct (decide (Plugin.name plugin = name)) as [<-|Hne]; split.
    + intros [[_ ->]|[? _]]; done.
    + intros [= ->]. by left.
    + intros [[-> _]|[_ ?]]; done.
    + intros Hl. right. split; [|done]. by intros ->.
Qed.

(** X20: The plugin map holds one entry per plugin name: of several plugins
    given under one name, the last one is the plugin kept (and only it
    takes part in the hook pipelines). *)
Theorem plugins_last_of_a_name_wins config now uuids :
  NoDup (System.plugins (ComponentSystem config now uuids)).*1
  ∧ ∀ name plugin,
      (name, plugin) ∈ System.plugins (ComponentSystem config now uuids)
      ↔ last_named name (default [] (SystemConfig.plugins config)) = Some plugin.
Proof.
  unfold ComponentSystem. fields. rewrite initializePlugins_plugins. fields.
  apply plugin_map_spec.
Qed.

Lemma ComponentSystem_plugins_order_witness :
  System.plugins system_rehydrated
  = (λ plugin, (Plugin.name plugin, plugin))
      <$> [LoggerPlugin; persistence (Some [("count", VNum 3); ("doubled", VNum 6)]) 0].
Proof.
  apply (ComponentSystem_plugins_order
           (SystemConfig.Build
              (Some [LoggerPlugin;
                     persistence (Some [("count", VNum 3); ("doubled", VNum 6)]) 0])
              (Some [validation])
              (Some (SystemConfig.BuildOptions (Some true) None None (Some true) None)))
           0 uuids0).
  - reflexivity.
  - apply (bool_decide_unpack _). vm_compute. exact I.
Defined.

Lemma find_last_None id objs :
  Forall (λ obj, Reactive.id obj ≠ id) objs → find_last id objs = None.
Proof.
  induction 1 as [|obj objs Hne _ IH]; cbn [find_last]; [done|].
  rewrite IH. by rewrite decide_False.
Qed.

Lemma find_last_persisted now state id value :
  NoDup state.*1 → (id, value) ∈ state →
  ∃ i, find_last id (persisted now <$> state) = Some i
       ∧ state !! i = Some (id, value).
Proof.
  induction state as [|[k v] state IH]; intros Hnd Hin; [by apply elem_of_nil in Hin|].
  cbn [fmap list_fmap fst] in Hnd. apply NoDup_cons in Hnd as [Hk Hnd].
  cbn [fmap list_fmap find_last].
  apply elem_of_cons in Hin as [[= -> ->]|Hin].
  - rewrite find_last_None.
    + cbn [persisted Reactive.id fst]. rewrite decide_True by done. by exists 0%nat.
    + apply Forall_fmap, Forall_forall. intros [k' v'] Hin' Heq.
      cbn [persisted Reactive.id fst] in Heq. subst k'. apply Hk.
      by apply (list_elem_of_fmap_2 fst _ (k, v')).
  - destruct (IH Hnd Hin) as (i & -> & Hi). by exists (S i).
Qed.

Lemma initialized_app plugins1 plugins2 :
  initialized (plugins1 ++ plugins2) = initialized plugins1 ++ initialized plugins2.
Proof. unfold initialized. by rewrite fmap_app, join_app. Qed.

(** X22: Rehydration: when the persistence plugin finds a stored state, every
    entry of it comes back as a registered reactive that holds the stored
    value, has type ["persisted"] and no mutator, provided no plugin after
    it registers something under the same id.  Being read-only, it
    ignores the engine's own attempts to set it. *)
Theorem persisted_reactives_restored config now uuids pre p post state id value
    fuel newValue :
  SystemConfig.plugins config = Some (pre ++ p :: post) →
  Plugin.initialize p = PersistencePlugin_initialize (Some state) now →
  NoDup state.*1 → (id, value) ∈ state →
  Forall (λ obj, Reactive.id obj ≠ id) (initialized post) →
  ∃ r, getReactive id (ComponentSystem config now uuids) = Some r
       ∧ deref r (ComponentSystem config now uuids) = Some (persisted now (id, value))
       ∧ run (set_if_present fuel (id, newValue)) (ComponentSystem config now uuids)
         = (ComponentSystem config now uuids, Resolved tt).
Proof.
  intros Hps Hinit Hnd Hin Hpost.
  destruct (find_last_persisted now state id value Hnd Hin) as (i & Hi & Hstate).
  assert (initialized (pre ++ p :: post)
          = initialized pre ++ (persisted now <$> state) ++ initialized post) as Hall.
  { change (p :: post) with ([p] ++ post). rewrite !initialized_app. do 2 f_equal.
    unfold initialized. cbn [fmap list_fmap mjoin list_join]. rewrite Hinit.
    cbn [PersistencePlugin_initialize default from_option]. by rewrite app_nil_r. }
  assert (getReactive id (ComponentSystem config now uuids)
          = Some (List.length (initialized pre) + i)%nat
          ∧ deref (List.length (initialized pre) + i)%nat (ComponentSystem config now uuids)
            = Some (persisted now (id, value))) as [Hreg Hobj].
  { unfold ComponentSystem, getReactive, deref. fields.
    set (st0 := System.Build _ _ _ _ _ _ _ _ _ _ _ _).
    destruct (initializePlugins_spec (default [] (SystemConfig.plugins config)) st0)
      as [Hh Hr].
    rewrite Hh, Hr, Hps. change (default [] (Some ?x)) with x.
    rewrite Hall. subst st0. fields.
    cbn [app List.length Nat.add]. split.
    - rewrite !find_last_app, (find_last_None _ _ Hpost), Hi. done.
    - rewrite lookup_app_r by lia.
      replace (List.length (initialized pre) + i - List.length (initialized pre))%nat
        with i by lia.
      rewrite lookup_app_l.
      + by rewrite list_lookup_fmap, Hstate.
      + rewrite length_fmap. by eapply lookup_lt_Some. }
  eexists. split; [exact Hreg|]. split; [exact Hobj|].
  by eapply run_set_if_present_readonly.
Qed.

Lemma persisted_reactives_restored_witness :
  ∃ r, getReactive "doubled" system_rehydrated = Some r
       ∧ deref r system_rehydrated = Some (persisted 0 ("doubled", VNum 6))
       ∧ run (set_if_present 5 ("doubled", VNum 8)) system_rehydrated
         = (system_rehydrated, Resolved tt).
Proof.
  apply (persisted_reactives_restored
           (SystemConfig.Build
              (Some [LoggerPlugin;
                     persistence (Some [("count", VNum 3); ("doubled", VNum 6)]) 0])
              (Some [validation])
              (Some (SystemConfig.BuildOptions (Some true) None None (Some true) None)))
           0 uuids0 [LoggerPlugin]
           (persistence (Some [("count", VNum 3); ("doubled", VNum 6)]) 0) []
           [("count", VNum 3); ("doubled", VNum 6)] "doubled" (VNum 6) 5 (VNum 8)).
  - reflexivity.
  - reflexivity.
  - apply (bool_decide_unpack _). vm_compute. exact I.
  - apply list_elem_of_further, list_elem_of_here.
  - constructor.
Defined.

(** ** Propagation to direct dependents *)

Lemma commit_frame reactive oldValue processedValue st :
  System.plugins (commit reactive oldValue processedValue st) = System.plugins st
  ∧ System.middleware (commit reactive oldValue processedValue st) = System.middleware st
  ∧ System.batchQueue (commit reactive oldValue processedValue st) = System.batchQueue st
  ∧ System.reactives (commit reactive oldValue processedValue st) = System.reactives st.
Proof.
  unfold commit. fields. by destruct (Options.enableHistory (System.options st)).
Qed.

Lemma commit_dependents reactive oldValue processedValue st r :
  dependents_of r (commit reactive oldValue processedValue st) = dependents_of r st.
Proof.
  unfold dependents_of.
  destruct (decide (r = reactive)) as [->|Hne].
  - destruct (deref reactive st) as [obj|] eqn:Hobj.
    + by erewrite deref_commit.
    + assert (deref reactive (commit reactive oldValue processedValue st) = None) as ->.
      { unfold commit. fields.
        assert (deref reactive (update_object reactive
                  (write_value processedValue (System.now st)) st) = None) as H.
        { by rewrite deref_update_object, Hobj. }
        by destruct (Options.enableHistory (System.options st)). }
      done.
  - by rewrite deref_commit_other.
Qed.

(** Without plugins and middleware, a [set] on a reactive without
    dependents is one commit. *)
Lemma run_set_plain_leaf fuel reactive newValue st :
  System.plugins st = [] → System.middleware st = [] → System.batchQueue st = [] →
  dependents_of reactive st = [] →
  run (set_ (S fuel) reactive newValue) st
  = (commit reactive (value_of reactive st) newValue st, Resolved tt).
Proof.
  intros Hp Hm Hq Hd.
  rewrite run_set_, run_runMiddleware_none by done. unfold or_handle.
  rewrite run_updateReactiveValue, batching_empty by done.
  rewrite run_runPluginHook_none by done. cbn [and_then].
  set (stc := commit _ _ _ _).
  destruct (commit_frame reactive (value_of reactive st) newValue st)
    as (Hp' & Hm' & _ & _). fold stc in Hp', Hm'.
  unfold notifyDependents. rewrite run_bind, run_gets.
  unfold stc at 1. rewrite commit_dependents, Hd, notifyDependents_loop_nil.
  cbn [run and_then].
  rewrite run_runPluginHook_none by congruence. cbn [and_then].
  by rewrite run_runMiddleware_none by congruence.
Qed.

(** X14: Removal does not disable the mutator.  In a system without plugins
    and middleware, a [set] through a handle kept from before
    [removeReactive] resolves and commits as before, and with history
    enabled it starts a new log under the removed id, although the id is
    no longer in the registry. *)
Theorem set_after_removal_records_history fuel id reactive obj newValue st N :
  System.plugins st = [] → System.middleware st = [] → System.batchQueue st = [] →
  getReactive id st = Some reactive →
  deref reactive st = Some obj → Reactive.id obj = id →
  Reactive.has_set obj = true → Reactive.dependents obj = [] →
  Options.enableHistory (System.options st) = true →
  Options.historySize (System.options st) = Some N → (0 < N)%Z →
  ∃ st',
    run (call_set (S fuel) reactive newValue) (removeReactive id st)
    = (st', Resolved tt)
    ∧ getReactive id st' = None
    ∧ value_of reactive st' = newValue
    ∧ updateCount_of reactive st' = S (updateCount_of reactive st)
    ∧ history_of id st' = [Reactive.value obj].
Proof.
  intros Hp Hm Hq Hreg Hobj Hid Hset Hdeps Hen HN Hpos.
  destruct (removeReactive_frame id st) as (Hopt & Hqueue & Hplugins & Hmiddleware).
  destruct (removeReactive_lookups id st reactive Hreg) as (Hnone & Hhist & _).
  assert (deref reactive (removeReactive id st) = Some obj) as Hobj'.
  { unfold deref. by rewrite removeReactive_heap. }
  set (str := removeReactive id st) in *.
  eexists. split.
  { unfold call_set. rewrite run_bind, run_gets, Hobj'. cbn [from_option]. rewrite Hset.
    apply run_set_plain_leaf; try congruence.
    unfold dependents_of. by rewrite Hobj'. }
  assert (value_of reactive str = Reactive.value obj) as Hv.
  { unfold value_of. by rewrite Hobj'. }
  rewrite Hv.
  destruct (commit_frame reactive (Reactive.value obj) newValue str) as (_ & _ & _ & Hr).
  split; [by unfold getReactive; rewrite Hr|].
  split; [unfold value_of; by erewrite deref_commit|].
  split.
  { unfold updateCount_of. erewrite deref_commit by done. by rewrite Hobj. }
  unfold history_of. erewrite history_commit by (done || congruence).
  rewrite Hid. unfold updateHistory. fields. rewrite lookup_insert_eq, Hhist, Hopt, HN.
  cbn [default from_option app List.length].
  destruct (Z.gtb_spec (Z.of_nat 1) N); [lia|done].
Qed.

Lemma set_after_removal_records_history_witness :
  ∃ st',
    run (call_set (S 4) 0%nat (VNum 2)) (removeReactive "A" system_A_used)
    = (st', Resolved tt)
    ∧ getReactive "A" st' = None
    ∧ value_of 0%nat st' = VNum 2
    ∧ updateCount_of 0%nat st' = S (updateCount_of 0%nat system_A_used)
    ∧ history_of "A" st'
      = [Reactive.value
           (write_value (VNum 1) 0 (new_reactive "A" "state" (VNum 0) None 0))].
Proof.
  apply (set_after_removal_records_history 4 "A" 0%nat
           (write_value (VNum 1) 0 (new_reactive "A" "state" (VNum 0) None 0))
           (VNum 2) system_A_used 3).
  - reflexivity.
  - reflexivity.
  - reflexivity.
  - vm_compute. reflexivity.
  - vm_compute. reflexivity.
  - reflexivity.
  - reflexivity.
  - reflexivity.
  - reflexivity.
  - reflexivity.
  - lia.
Defined.

Lemma dependents_are_leaves_commit ids reactive oldValue processedValue st :
  dependents_are_leaves ids st →
  dependents_are_leaves ids (commit reactive oldValue processedValue st).
Proof.
  intros Hl d rd od Hin Hreg Hobj.
  destruct (commit_frame reactive oldValue processedValue st) as (_ & _ & _ & Hr).
  unfold getReactive in Hreg. rewrite Hr in Hreg.
  pose proof (commit_dependents reactive oldValue processedValue st rd) as Hd.
  unfold dependents_of in Hd. rewrite Hobj in Hd. cbn [from_option] in Hd.
  rewrite Hd. destruct (deref rd st) as [od0|] eqn:Hod0; [|done].
  by apply (Hl d rd od0).
Qed.

Lemma run_notify_leaves fuel n visited queue st :
  System.plugins st = [] → System.middleware st = [] → System.batchQueue st = [] →
  NoDup queue → (∀ d, d ∈ queue → d ∉ visited) →
  dependents_are_leaves queue st →
  (List.length queue ≤ n)%nat →
  run (notifyDependents_loop (set_ (S fuel)) n visited queue) st
  = (foldl recommit st queue, Resolved tt).
Proof.
  revert n visited st.
  induction queue as [|d queue IH]; intros n visited st Hp Hm Hq Hnd Hvis Hl Hn.
  { by rewrite notifyDependents_loop_nil. }
  destruct n as [|n]; [cbn in Hn; lia|]. cbn [List.length] in Hn.
  apply NoDup_cons in Hnd as [Hd Hnd].
  cbn [notifyDependents_loop foldl].
  rewrite decide_False by (apply Hvis; by left).
  rewrite run_bind, run_gets. unfold recommit at 2.
  assert (∀ d', d' ∈ queue → d' ∉ visited ++ [d]) as Hvis'.
  { intros d' Hin [Hv| ->%list_elem_of_singleton]%elem_of_app; [|done].
    by apply (Hvis d'); [right|]. }
  assert (dependents_are_leaves queue st) as Hl'.
  { intros d' rd od Hin. apply Hl. by right. }
  destruct (getReactive d st) as [rd|] eqn:Hreg.
  - rewrite run_bind, run_gets.
    assert (dependents_of rd st = []) as Hleaf.
    { unfold dependents_of. destruct (deref rd st) as [od|] eqn:Hod; [|done].
      apply (Hl d rd od); [by left|done|done]. }
    destruct (deref rd st) as [od|] eqn:Hod; cbn [from_option].
    + destruct (Reactive.has_set od).
      * rewrite run_bind, run_await, run_set_plain_leaf by done.
        assert (value_of rd st = Reactive.value od) as Hv.
        { unfold value_of. by rewrite Hod. }
        rewrite Hv. set (stc := commit rd (Reactive.value od) (Reactive.value od) st).
        destruct (commit_frame rd (Reactive.value od) (Reactive.value od) st)
          as (Hp' & Hm' & Hq' & _). fold stc in Hp', Hm', Hq'.
        rewrite run_bind, run_gets. unfold stc at 1.
        rewrite commit_dependents, Hleaf, app_nil_r. fold stc.
        apply IH; try congruence; try done; [|lia].
        by apply dependents_are_leaves_commit.
      * rewrite run_bind. cbn [run]. rewrite run_bind, run_gets, Hleaf, app_nil_r.
        apply IH; try done. lia.
    + rewrite run_bind. cbn [run]. rewrite run_bind, run_gets, Hleaf, app_nil_r.
      apply IH; try done. lia.
  - apply IH; try done. lia.
Qed.

(** X23: Propagation over one level, in a system without plugins and
    middleware: a [set] on a reactive whose registered dependents have no
    dependents of their own commits the reactive and then goes through its
    dependents in order, committing each one that is registered and has a
    mutator once more with the value it already has; dependents that are
    not registered or are read-only are passed over, and the call
    resolves. *)
Theorem set_recommits_direct_dependents fuel reactive newValue st obj :
  System.plugins st = [] → System.middleware st = [] → System.batchQueue st = [] →
  deref reactive st = Some obj →
  NoDup (Reactive.dependents obj) →
  dependents_are_leaves (Reactive.dependents obj) st →
  (List.length (Reactive.dependents obj) ≤ fuel)%nat →
  run (set_ (S (S fuel)) reactive newValue) st
  = (foldl recommit (commit reactive (Reactive.value obj) newValue st)
       (Reactive.dependents obj),
     Resolved tt).
Proof.
  intros Hp Hm Hq Hobj Hnd Hl Hn.
  rewrite run_set_, run_runMiddleware_none by done. unfold or_handle.
  rewrite run_updateReactiveValue, batching_empty by done.
  rewrite run_runPluginHook_none by done. cbn [and_then].
  assert (value_of reactive st = Reactive.value obj) as ->.
  { unfold value_of. by rewrite Hobj. }
  set (stc := commit reactive (Reactive.value obj) newValue st).
  destruct (commit_frame reactive (Reactive.value obj) newValue st)
    as (Hp' & Hm' & Hq' & _). fold stc in Hp', Hm', Hq'.
  unfold notifyDependents. rewrite run_bind, run_gets.
  unfold stc at 1. rewrite commit_dependents. fold stc.
  assert (dependents_of reactive st = Reactive.dependents obj) as ->.
  { unfold dependents_of. by rewrite Hobj. }
  rewrite run_notify_leaves; try congruence; try done; try lia.
  - cbn [and_then].
    assert (∀ ids s, System.plugins s = [] → System.middleware s = [] →
              System.plugins (foldl recommit s ids) = []
              ∧ System.middleware (foldl recommit s ids) = []) as Hfold.
    { clear. induction ids as [|d ids IH]; intros s Hp Hm; cbn [foldl]; [done|].
      apply IH; unfold recommit;
        destruct (getReactive d s) as [rd|]; try done;
        destruct (deref rd s) as [od|]; try done;
        destruct (Reactive.has_set od); try done;
        destruct (commit_frame rd (Reactive.value od) (Reactive.value od) s)
          as (Hp' & Hm' & _); congruence. }
    destruct (Hfold (Reactive.dependents obj) stc) as [Hp'' Hm'']; [congruence..|].
    rewrite run_runPluginHook_none by done. cbn [and_then].
    by rewrite run_runMiddleware_none by done.
  - intros d _. apply not_elem_of_nil.
  - by apply dependents_are_leaves_commit.
Qed.

Lemma set_recommits_direct_dependents_witness :
  run (set_ (S (S 3)) 0%nat (VNum 1)) system_fan
  = (foldl recommit (commit 0%nat (Reactive.value fan_root) (VNum 1) system_fan)
       (Reactive.dependents fan_root),
     Resolved tt).
Proof.
  apply (set_recommits_direct_dependents 3 0%nat (VNum 1) system_fan fan_root).
  - reflexivity.
  - reflexivity.
  - reflexivity.
  - vm_compute. reflexivity.
  - apply (bool_decide_unpack _). vm_compute. exact I.
  - intros d rd od Hin Hreg Hobj.
    repeat (apply elem_of_cons in Hin as [->|Hin]); [..|by apply elem_of_nil in Hin];
      vm_compute in Hreg; try discriminate Hreg;
      injection Hreg as <-; vm_compute in Hobj; injection Hobj as <-; reflexivity.
  - vm_compute. lia.
Defined.

(** * The signal factory of [Source/v1/alternative.ts]: properties *)

Lemma pipeline_transform_first fs (next : Value → Result Value) value :
  foldl (λ next mw, mw next) next (transform_first <$> fs) value
  = next (foldr (λ f v, f v) value fs).
Proof.
  revert next value. induction fs as [|f fs IH]; intros next value;
    cbn [fmap list_fmap foldl foldr]; [done|].
  by rewrite IH.
Qed.

Lemma pipeline_transform_last fs (next : Value → Result Value) value :
  foldl (λ next mw, mw next) next (transform_last <$> fs) value
  = match next value with
    | Ok v => Ok (foldl (λ v f, f v) v fs)
    | Raise e => Raise e
    end.
Proof.
  revert next value. induction fs as [|f fs IH]; intros next value;
    cbn [fmap list_fmap foldl].
  - by destruct (next value).
  - rewrite IH. unfold transform_last. by destruct (next value).
Qed.

(** X24: The middleware of a getter are composed so that the last one of the
    array is outermost: middleware that change the value before handing it
    on act in reverse array order (the last one sees the raw value first),
    middleware that change what comes back act in array order.  Without
    middleware the value is returned as it is. *)
Theorem applyMiddleware_order value fs :
  Alternative.applyMiddleware value (Some (transform_first <$> fs))
  = Ok (foldr (λ f v, f v) value fs)
  ∧ Alternative.applyMiddleware value (Some (transform_last <$> fs))
    = Ok (foldl (λ v f, f v) value fs)
  ∧ Alternative.applyMiddleware value None = Ok value.
Proof.
  split; [|split; [|done]].
  - destruct fs as [|f fs]; [done|].
    change (Alternative.applyMiddleware value (Some (transform_first <$> f :: fs)))
      with (foldl (λ next mw, mw next) Ok (transform_first <$> f :: fs) value).
    apply pipeline_transform_first.
  - destruct fs as [|f fs]; [done|].
    change (Alternative.applyMiddleware value (Some (transform_last <$> f :: fs)))
      with (foldl (λ next mw, mw next) Ok (transform_last <$> f :: fs) value).
    apply pipeline_transform_last.
Qed.

Lemma notify_each_quiet key value callbacks st :
  (∀ cb, cb ∈ callbacks → Alternative.call cb value = Ok tt) →
  Alternative.notify_each key value callbacks st
  = (Alternative.BuildComponent (Alternative.signals st) (Alternative.subscribers st)
       (Alternative.calls st
        ++ ((λ cb, Alternative.Notified key (Alternative.callback cb) value)
              <$> callbacks)),
     Ok tt).
Proof.
  revert st. induction callbacks as [|cb callbacks IH]; intros st Hq;
    cbn [Alternative.notify_each fmap list_fmap].
  - rewrite app_nil_r. by destruct st.
  - rewrite (Hq cb) by (by left). rewrite IH by (intros cb' Hin; apply Hq; by right).
    unfold Alternative.called. cbn. by rewrite <-app_assoc.
Qed.

(** X25: A setter call that goes through: when the transform returns [t], the
    validator accepts [t] (or there is none), the config's setter makes
    [v] of the current value and [t], and [onSuccess] and the subscribers
    of the key return, the signal holds [v] afterwards, [onSuccess] was
    called with [t], and then every subscriber of the key was called once,
    in subscription order, with [t]: the transformed argument, not the
    value that was stored. *)
Theorem set_valid_notifies_transformed key newValue st conf current t v :
  Alternative.signals st !! key = Some (conf, current) →
  transformed conf newValue = Ok t →
  Alternative.validateValue t (Alternative.validate conf) = true →
  stored conf current t = Ok v →
  (∀ f, Alternative.onSuccess conf = Some f → f t = Ok tt) →
  (∀ cb, cb ∈ listeners key st → Alternative.call cb t = Ok tt) →
  Alternative.set key newValue st
  = Some (Alternative.BuildComponent
            (<[key := (conf, v)]> (Alternative.signals st))
            (Alternative.subscribers st)
            (Alternative.calls st
             ++ match Alternative.onSuccess conf with
                | Some _ => [Alternative.OnSuccess key t]
                | None => []
                end
             ++ ((λ cb, Alternative.Notified key (Alternative.callback cb) t)
                   <$> listeners key st)),
          Ok tt).
Proof.
  intros Hsig Ht Hvalid Hv Hsucc Hsubs.
  unfold Alternative.set. rewrite Hsig. f_equal.
  unfold Alternative.try_set. fold (transformed conf newValue). rewrite Ht, Hvalid.
  fold (stored conf current t). rewrite Hv.
  unfold Alternative.notifySubscribers.
  destruct (Alternative.onSuccess conf) as [f|] eqn:Hf.
  - rewrite (Hsucc f eq_refl). cbn [Alternative.called Alternative.subscribers].
    rewrite notify_each_quiet by exact Hsubs. cbn. by rewrite <-app_assoc.
  - cbn [Alternative.subscribers]. rewrite notify_each_quiet by exact Hsubs. done.
Qed.

Lemma set_valid_notifies_transformed_witness :
  Alternative.set "count" (VNum 5) counter_once
  = Some (Alternative.BuildComponent
            (<["count" := (counter_config None, VNum 16)]>
               (Alternative.signals counter_once))
            (Alternative.subscribers counter_once)
            (Alternative.calls counter_once
             ++ match Alternative.onSuccess (counter_config None) with
                | Some _ => [Alternative.OnSuccess "count" (VNum 10)]
                | None => []
                end
             ++ ((λ cb, Alternative.Notified "count" (Alternative.callback cb) (VNum 10))
                   <$> listeners "count" counter_once)),
          Ok tt).
Proof.
  apply (set_valid_notifies_transformed "count" (VNum 5) counter_once
           (counter_config None) (VNum 6) (VNum 10) (VNum 16)).
  - vm_compute. reflexivity.
  - reflexivity.
  - reflexivity.
  - reflexivity.
  - intros f [= <-]. reflexivity.
  - intros cb Hin. vm_compute in Hin.
    repeat (apply elem_of_cons in Hin as [->|Hin]); [..|by apply elem_of_nil in Hin];
      reflexivity.
Defined.

(** X26: A setter call that the validator refuses (it returns false or
    throws): the signal keeps its value, no subscriber is called and
    [onSuccess] is not called; the only thing that happens is the call of
    [onError] with the error ["Validation failed"].  With an [onError]
    that returns, and also without any [onError], the call resolves, so
    the caller cannot tell that nothing was stored. *)
Theorem set_invalid_keeps_value key newValue st conf current t :
  Alternative.signals st !! key = Some (conf, current) →
  transformed conf newValue = Ok t →
  Alternative.validateValue t (Alternative.validate conf) = false →
  ∃ st' outcome,
    Alternative.set key newValue st = Some (st', outcome)
    ∧ Alternative.signals st' = Alternative.signals st
    ∧ Alternative.subscribers st' = Alternative.subscribers st
    ∧ (Alternative.onError conf = None → st' = st ∧ outcome = Ok tt)
    ∧ (∀ f, Alternative.onError conf = Some f →
         f (MkError "Validation failed") = Ok tt →
         Alternative.calls st'
         = Alternative.calls st ++ [Alternative.OnError key (MkError "Validation failed")]
         ∧ outcome = Ok tt)
    ∧ (∃ errors, Alternative.calls st'
                 = Alternative.calls st ++ (Alternative.OnError key <$> errors)).
Proof.
  intros Hsig Ht Hvalid. unfold Alternative.set. rewrite Hsig.
  unfold Alternative.try_set. fold (transformed conf newValue). rewrite Ht, Hvalid.
  unfold Alternative.report.
  destruct (Alternative.onError conf) as [f|] eqn:Hf.
  - destruct (f (MkError "Validation failed")) as [[]|e] eqn:Hcall.
    + eexists _, _. split; [reflexivity|]. do 2 (split; [done|]). split; [done|].
      split; [done|]. by exists [MkError "Validation failed"].
    + eexists _, _. split; [reflexivity|]. do 2 (split; [done|]). split; [done|].
      split.
      * intros f' [= <-] Hok. congruence.
      * exists [MkError "Validation failed"; e]. cbn. by rewrite <-app_assoc.
  - eexists _, _. split; [reflexivity|]. do 2 (split; [done|]). split; [done|].
    split; [done|]. exists []. cbn. by rewrite app_nil_r.
Qed.

Lemma set_invalid_keeps_value_witness :
  ∃ st' outcome,
    Alternative.set "count" (VStr "five") (counter_component (Some noting))
    = Some (st', outcome)
    ∧ Alternative.signals st' = Alternative.signals (counter_component (Some noting))
    ∧ Alternative.subscribers st'
      = Alternative.subscribers (counter_component (Some noting))
    ∧ (Alternative.onError (counter_config (Some noting)) = None →
       st' = counter_component (Some noting) ∧ outcome = Ok tt)
    ∧ (∀ f, Alternative.onError (counter_config (Some noting)) = Some f →
         f (MkError "Validation failed") = Ok tt →
         Alternative.calls st'
         = Alternative.calls (counter_component (Some noting))
           ++ [Alternative.OnError "count" (MkError "Validation failed")]
         ∧ outcome = Ok tt)
    ∧ (∃ errors, Alternative.calls st'
                 = Alternative.calls (counter_component (Some noting))
                   ++ (Alternative.OnError "count" <$> errors)).
Proof.
  apply (set_invalid_keeps_value "count" (VStr "five") (counter_component (Some noting))
           (counter_config (Some noting)) (VNum 0) (VStr "five")).
  - vm_compute. reflexivity.
  - reflexivity.
  - reflexivity.
Defined.

Lemma report_outcome conf key error st st' e :
  Alternative.report conf key error st = (st', Raise e) →
  ∃ f, Alternative.onError conf = Some f ∧ f error = Raise e.
Proof.
  unfold Alternative.report. destruct (Alternative.onError conf) as [f|]; [|done].
  intros [= _ H]. by exists f.
Qed.

(** X27: A setter swallows failures: whatever throws inside it (the transform,
    the config's setter, [onSuccess], a subscriber), the call itself
    rejects only when [onError] throws, and then with what [onError]
    threw; without an [onError] it always resolves. *)
Theorem set_rejects_only_through_onError key newValue st st' e :
  Alternative.set key newValue st = Some (st', Raise e) →
  ∃ conf current f error,
    Alternative.signals st !! key = Some (conf, current)
    ∧ Alternative.onError conf = Some f ∧ f error = Raise e.
Proof.
  unfold Alternative.set.
  destruct (Alternative.signals st !! key) as [[conf current]|] eqn:Hsig; [|done].
  intros [= H]. exists conf, current.
  destruct (Alternative.try_set conf key current newValue st) as [st1 [[]|error]] eqn:Htry.
  - done.
  - apply report_outcome in H as (f & Hf & He). by exists f, error.
Qed.

Lemma set_rejects_only_through_onError_witness :
  ∃ conf current f error,
    Alternative.signals (counter_component (Some rethrowing)) !! "count"
    = Some (conf, current)
    ∧ Alternative.onError conf = Some f
    ∧ f error = Raise (MkError "Validation failed").
Proof.
  apply (set_rejects_only_through_onError "count" (VStr "five")
           (counter_component (Some rethrowing))
           (from_option fst (counter_component (Some rethrowing))
              (Alternative.set "count" (VStr "five")
                 (counter_component (Some rethrowing))))).
  vm_compute. reflexivity.
Defined.

(** X29: The capability returned by [subscribe] does not survive the removal
    of its key: [removeReactive] deletes the subscriber set of the key
    together with its getter and its setter, and the capability then
    throws instead of doing nothing. *)
Theorem cancel_after_removal_throws key cb st :
  (∃ error,
      Alternative.subscribe_cancel key cb
        (Alternative.removeReactive key (Alternative.subscribe key cb st))
      = Raise error)
  ∧ Alternative.get key (Alternative.removeReactive key st) = None
  ∧ (∀ newValue, Alternative.set key newValue (Alternative.removeReactive key st) = None)
  ∧ listeners key (Alternative.removeReactive key st) = [].
Proof.
  unfold Alternative.subscribe_cancel, Alternative.get, Alternative.set, listeners,
    Alternative.removeReactive, Alternative.subscribe.
  cbn [Alternative.signals Alternative.subscribers].
  rewrite !lookup_delete_eq. split; [by eexists|done].
Qed.

Lemma createReactive_all_other config key st :
  key ∉ config.*1 →
  Alternative.signals
    (foldl (λ st entry, Alternative.createReactive entry.2 entry.1 st) st config) !! key
  = Alternative.signals st !! key.
Proof.
  revert st. induction config as [|[k conf] config IH]; intros st Hk; [done|].
  cbn [fmap list_fmap fst] in Hk. apply not_elem_of_cons in Hk as [Hne Hk].
  cbn [foldl]. rewrite IH by done.
  cbn [Alternative.createReactive Alternative.signals fst snd].
  by rewrite lookup_insert_ne.
Qed.

Lemma createReactive_all_lookup config key conf st :
  NoDup config.*1 → (key, conf) ∈ config →
  Alternative.signals
    (foldl (λ st entry, Alternative.createReactive entry.2 entry.1 st) st config) !! key
  = Some (conf, Alternative.initialValue conf).
Proof.
  revert st. induction config as [|[k c] config IH]; intros st Hnd Hin;
    [by apply elem_of_nil in Hin|].
  cbn [fmap list_fmap fst] in Hnd. apply NoDup_cons in Hnd as [Hk Hnd].
  cbn [foldl]. apply elem_of_cons in Hin as [[= -> ->]|Hin].
  - rewrite createReactive_all_other by done.
    cbn [Alternative.createReactive Alternative.signals fst snd].
    by rewrite lookup_insert_eq.
  - by apply IH.
Qed.

(** X30: Right after the creation of a component, every signal of the config
    reads as its initial value, passed through the config's getter and
    then through its middleware; nothing has been called yet and nobody
    is subscribed. *)
Theorem created_signal_reads_initial config key conf :
  NoDup config.*1 → (key, conf) ∈ config →
  Alternative.get key (Alternative.createComponentFactory config)
  = Some (match Alternative.getter conf with
          | Some getter =>
              match getter (Alternative.initialValue conf) with
              | Ok v => Alternative.applyMiddleware v (Alternative.middleware conf)
              | Raise e => Raise e
              end
          | None =>
              Alternative.applyMiddleware (Alternative.initialValue conf)
                (Alternative.middleware conf)
          end)
  ∧ Alternative.calls (Alternative.createComponentFactory config) = []
  ∧ Alternative.subscribers (Alternative.createComponentFactory config) = ∅.
Proof.
  intros Hnd Hin. split.
  - unfold Alternative.get, Alternative.createComponentFactory.
    by rewrite (createReactive_all_lookup config key conf).
  - unfold Alternative.createComponentFactory.
    assert (∀ st, Alternative.calls
                    (foldl (λ st entry, Alternative.createReactive entry.2 entry.1 st)
                       st config) = Alternative.calls st
                  ∧ Alternative.subscribers
                      (foldl (λ st entry, Alternative.createReactive entry.2 entry.1 st)
                         st config) = Alternative.subscribers st) as Hframe.
    { clear. induction config as [|[k c] config IH]; intros st; [done|].
      cbn [foldl]. by destruct (IH (Alternative.createReactive (k, c).2 (k, c).1 st))
        as [-> ->]. }
    by destruct (Hframe (Alternative.BuildComponent ∅ ∅ [])) as [-> ->].
Qed.

Lemma created_signal_reads_initial_witness :
  Alternative.get "count"
    (Alternative.createComponentFactory [("count", counter_config None)])
  = Some (match Alternative.getter (counter_config None) with
          | Some getter =>
              match getter (Alternative.initialValue (counter_config None)) with
              | Ok v =>
                  Alternative.applyMiddleware v
                    (Alternative.middleware (counter_config None))
              | Raise e => Raise e
              end
          | None =>
              Alternative.applyMiddleware (Alternative.initialValue (counter_config None))
                (Alternative.middleware (counter_config None))
          end)
  ∧ Alternative.calls
      (Alternative.createComponentFactory [("count", counter_config None)]) = []
  ∧ Alternative.subscribers
      (Alternative.createComponentFactory [("count", counter_config None)]) = ∅.
Proof.
  apply (created_signal_reads_initial [("count", counter_config None)] "count"
           (counter_config None)).
  - apply (bool_decide_unpack _). vm_compute. exact I.
  - apply list_elem_of_here.
Defined.

Lemma notify_each_app key value callbacks1 callbacks2 st :
  (∀ cb, cb ∈ callbacks1 → Alternative.call cb value = Ok tt) →
  Alternative.notify_each key value (callbacks1 ++ callbacks2) st
  = Alternative.notify_each key value callbacks2
      (Alternative.BuildComponent (Alternative.signals st) (Alternative.subscribers st)
         (Alternative.calls st
          ++ ((λ cb, Alternative.Notified key (Alternative.callback cb) value)
                <$> callbacks1))).
Proof.
  revert st. induction callbacks1 as [|cb callbacks1 IH]; intros st Hq;
    cbn [app Alternative.notify_each fmap list_fmap].
  - rewrite app_nil_r. by destruct st.
  - rewrite (Hq cb) by (by left). rewrite IH by (intros cb' Hin; apply Hq; by right).
    unfold Alternative.called. cbn. by rewrite <-app_assoc.
Qed.

(** X28: A subscriber that throws: the value has been stored and [onSuccess]
    called by then, the subscribers before it have been notified, the
    ones after it are not called at all, and its exception goes to
    [onError] (when there is one) instead of the caller, who sees the call
    resolve if [onError] returns. *)
Theorem set_subscriber_failure key newValue st conf current t v pre cb post e :
  Alternative.signals st !! key = Some (conf, current) →
  transformed conf newValue = Ok t →
  Alternative.validateValue t (Alternative.validate conf) = true →
  stored conf current t = Ok v →
  (∀ f, Alternative.onSuccess conf = Some f → f t = Ok tt) →
  listeners key st = pre ++ cb :: post →
  (∀ cb', cb' ∈ pre → Alternative.call cb' t = Ok tt) →
  Alternative.call cb t = Raise e →
  Alternative.set key newValue st
  = Some (Alternative.BuildComponent
            (<[key := (conf, v)]> (Alternative.signals st))
            (Alternative.subscribers st)
            (Alternative.calls st
             ++ match Alternative.onSuccess conf with
                | Some _ => [Alternative.OnSuccess key t]
                | None => []
                end
             ++ ((λ cb, Alternative.Notified key (Alternative.callback cb) t)
                   <$> pre ++ [cb])
             ++ match Alternative.onError conf with
                | Some _ => [Alternative.OnError key e]
                | None => []
                end),
          match Alternative.onError conf with
          | Some onError => onError e
          | None => Ok tt
          end).
Proof.
  intros Hsig Ht Hvalid Hv Hsucc Hsubs Hpre Hcb.
  unfold Alternative.set. rewrite Hsig. f_equal.
  unfold Alternative.try_set. fold (transformed conf newValue). rewrite Ht, Hvalid.
  fold (stored conf current t). rewrite Hv.
  unfold Alternative.notifySubscribers. unfold listeners in Hsubs.
  assert (∀ st0, Alternative.subscribers st0 = Alternative.subscribers st →
            Alternative.notify_each key t
              (default [] (Alternative.subscribers st0 !! key)) st0
            = (Alternative.BuildComponent (Alternative.signals st0)
                 (Alternative.subscribers st0)
                 (Alternative.calls st0
                  ++ ((λ cb, Alternative.Notified key (Alternative.callback cb) t)
                        <$> pre ++ [cb])),
               Raise e)) as Hnotify.
  { intros st0 Hs. rewrite Hs at 1. rewrite Hsubs, notify_each_app by done.
    cbn [Alternative.notify_each]. rewrite Hcb.
    unfold Alternative.called. cbn. by rewrite fmap_app, app_assoc. }
  destruct (Alternative.onSuccess conf) as [f|] eqn:Hf.
  - rewrite (Hsucc f eq_refl), Hnotify by done.
    unfold Alternative.report, Alternative.called.
    destruct (Alternative.onError conf); cbn; by rewrite <-?app_assoc, ?app_nil_r.
  - rewrite Hnotify by done.
    unfold Alternative.report, Alternative.called.
    destruct (Alternative.onError conf); cbn; by rewrite <-?app_assoc, ?app_nil_r.
Qed.

Lemma set_subscriber_failure_witness :
  Alternative.set "count" (VNum 5) counter_faulty
  = Some (Alternative.BuildComponent
            (<["count" := (counter_config (Some noting), VNum 10)]>
               (Alternative.signals counter_faulty))
            (Alternative.subscribers counter_faulty)
            (Alternative.calls counter_faulty
             ++ match Alternative.onSuccess (counter_config (Some noting)) with
                | Some _ => [Alternative.OnSuccess "count" (VNum 10)]
                | None => []
                end
             ++ ((λ cb, Alternative.Notified "count" (Alternative.callback cb) (VNum 10))
                   <$> [watcher 1] ++ [faulty])
             ++ match Alternative.onError (counter_config (Some noting)) with
                | Some _ => [Alternative.OnError "count" (MkError "subscriber failed")]
                | None => []
                end),
          match Alternative.onError (counter_config (Some noting)) with
          | Some onError => onError (MkError "subscriber failed")
          | None => Ok tt
          end).
Proof.
  apply (set_subscriber_failure "count" (VNum 5) counter_faulty
           (counter_config (Some noting)) (VNum 0) (VNum 10) (VNum 10)
           [watcher 1] faulty [watcher 2] (MkError "subscriber failed")).
  - vm_compute. reflexivity.
  - reflexivity.
  - reflexivity.
  - reflexivity.
  - intros f [= <-]. reflexivity.
  - vm_compute. reflexivity.
  - intros cb' Hin. apply list_elem_of_singleton in Hin as ->. reflexivity.
  - reflexivity.
Defined.
